(** * Power-system analysis: admittance assembly, Newton-Raphson power flow
      and economic dispatch of [src/power_system.py], embedded and verified.

    The program computes on NumPy arrays of IEEE doubles and complex doubles.
    The embedding keeps every array, index, loop, guard and exception of the
    source concrete, and takes the arithmetic of the two scalar types through
    an interface ([Numeric]) on which no algebraic law is assumed: a theorem
    proved here holds for whatever the floating-point operations return. *)

From Stdlib Require Import String.
From Stdlib Require Import ZArith List Bool Lia.
From Stdlib Require Import Floats.PrimFloat.
Import ListNotations.
Open Scope Z_scope.

(** ** Exceptions and the error monad *)

Inductive exn : Type :=
| IndexError
| ValueError
| TypeError
| NameError
| OverflowError
| LinAlgFailure.

Inductive result (A : Type) : Type :=
| Ok (a : A)
| Raise (e : exn).
Arguments Ok {A} a.
Arguments Raise {A} e.

Definition bind {A B : Type} (r : result A) (k : A -> result B) : result B :=
  match r with
  | Ok a => k a
  | Raise e => Raise e
  end.

Notation "x <- c ;; k" := (bind c (fun x => k))
  (at level 61, c at next level, right associativity).

Definition of_option {A : Type} (e : exn) (o : option A) : result A :=
  match o with
  | Some a => Ok a
  | None => Raise e
  end.

(** ** Arrays with Python indexing *)

(** [py_idx n i]: the position that index [i] denotes in an axis of length
    [n]; a negative index counts from the end, anything else out of range
    raises [IndexError]. *)
Definition py_idx (n : nat) (i : Z) : option nat :=
  if 0 <=? i then
    if i <? Z.of_nat n then Some (Z.to_nat i) else None
  else if - Z.of_nat n <=? i then Some (Z.to_nat (Z.of_nat n + i))
  else None.

Fixpoint upd {A : Type} (l : list A) (i : nat) (f : A -> A) : list A :=
  match l, i with
  | [], _ => []
  | x :: t, O => f x :: t
  | x :: t, S i' => x :: upd t i' f
  end.

Definition aget {A : Type} (l : list A) (i : Z) : result A :=
  match py_idx (length l) i with
  | Some k => of_option IndexError (nth_error l k)
  | None => Raise IndexError
  end.

Definition aset {A : Type} (l : list A) (i : Z) (v : A) : result (list A) :=
  match py_idx (length l) i with
  | Some k => Ok (upd l k (fun _ => v))
  | None => Raise IndexError
  end.

Definition matrix (A : Type) : Type := list (list A).

Definition zeros {A : Type} (z : A) (n : nat) : list A := repeat z n.

Definition zeros2 {A : Type} (z : A) (r c : nat) : matrix A :=
  repeat (repeat z c) r.

(** A read [M[i, j]] of a square [n x n] array. *)
Definition mget {A : Type} (n : nat) (M : matrix A) (i j : Z) : result A :=
  match py_idx n i, py_idx n j with
  | Some r, Some c =>
      of_option IndexError
        (match nth_error M r with
         | Some row => nth_error row c
         | None => None
         end)
  | _, _ => Raise IndexError
  end.

(** A write [M[i, j] = v]. *)
Definition mset {A : Type} (n : nat) (M : matrix A) (i j : Z) (v : A)
  : result (matrix A) :=
  match py_idx n i, py_idx n j with
  | Some r, Some c => Ok (upd M r (fun row => upd row c (fun _ => v)))
  | _, _ => Raise IndexError
  end.

(** [for x in xs: s = body(s, x)], stopping at the first exception. *)
Fixpoint for_each {A S : Type} (xs : list A) (body : S -> A -> result S)
  (s : S) : result S :=
  match xs with
  | [] => Ok s
  | x :: t => s' <- body s x ;; for_each t body s'
  end.

(** [range(lo, lo + n)]. *)
Fixpoint zrange (lo : Z) (n : nat) : list Z :=
  match n with
  | O => []
  | S n' => lo :: zrange (lo + 1) n'
  end.

(** ** The scalar interface *)

(** [real] stands for NumPy's float64 and [cplx] for complex128. Each field
    is one operation the source applies; literals enter through [rlit], given
    as the ratio the decimal literal denotes. *)
Class Numeric : Type := {
  real : Type;
  cplx : Type;
  rlit : Z -> positive -> real;
  radd : real -> real -> real;
  rsub : real -> real -> real;
  rmul : real -> real -> real;
  rdiv : real -> real -> real;
  rneg : real -> real;
  rabs : real -> real;
  rmax : real -> real -> real;
  rsign : real -> real;
  rsin : real -> real;
  rcos : real -> real;
  rpi : real;
  rinf : real;
  rleb : real -> real -> bool;
  rltb : real -> real -> bool;
  reqb : real -> real -> bool;
  (* the reductions NumPy hands to its summation loop and to BLAS: how they
     order, group and fuse the additions is the library's, so they are
     operations of their own and not folds of [radd] and [rmul] *)
  rsum : list real -> real;                   (* np.sum(a), a one-dimensional *)
  vdot : list real -> list real -> real;      (* np.dot(a, b), both of one length *)
  mvdot : list (list real) -> list real -> nat -> real;
                                              (* np.dot(M, v)[i], M of len(v) columns *)
  (* complex128 *)
  czero : cplx;
  jtimes : real -> cplx;           (* 1j * x *)
  radd_c : real -> cplx -> cplx;   (* x + z *)
  rsub_c : real -> cplx -> cplx;   (* x - z *)
  rmul_c : real -> cplx -> cplx;   (* x * z *)
  cinv1 : cplx -> cplx;            (* 1.0 / z *)
  cdiv_r : cplx -> real -> cplx;   (* z / x *)
  cadd : cplx -> cplx -> cplx;
  csub : cplx -> cplx -> cplx;
  cabs : cplx -> real;
  cangle : cplx -> real;
  (* numpy.linalg.solve with the pseudo-inverse fallback of the source:
     [None] when the library raises out of both. *)
  lin_solve : matrix real -> list real -> option (list real)
}.

Definition r0 `{Numeric} : real := rlit 0 1.
Definition r1 `{Numeric} : real := rlit 1 1.
(** [x >= y] and [x > y] as NumPy evaluates them. *)
Definition rgeb `{Numeric} (x y : real) : bool := rleb y x.
Definition rgtb `{Numeric} (x y : real) : bool := rltb y x.
(** [x ** 2]. *)
Definition rsq `{Numeric} (x : real) : real := rmul x x.
(** [max(a)]: NumPy's reduction has no identity, so an empty array raises. *)
Definition rmax_list `{Numeric} (a : list real) : result real :=
  match a with
  | [] => Raise ValueError
  | x :: t => Ok (fold_left rmax t x)
  end.

(** ** The network model *)

(** One row of the branch table: [from, to, R, X, Bc, tap]. The two bus
    columns hold what [astype(int)] reads from them. *)
Record branch `{Numeric} : Type := {
  br_nl : Z;
  br_nr : Z;
  br_R : real;
  br_X : real;
  br_Bc : real;
  br_a : real
}.

(** One row of the bus table. [bus_no] and [bus_kind] hold what
    [int(busdata[k, 0])] and [int(busdata[k, 1])] read. *)
Record bus `{Numeric} : Type := {
  bus_no : Z;
  bus_kind : Z;
  bus_Vm : real;
  bus_delta : real;
  bus_Pd : real;
  bus_Qd : real;
  bus_Pg : real;
  bus_Qg : real;
  bus_Qmin : real;
  bus_Qmax : real;
  bus_Qsh : real
}.

Section Lfybus.
Context `{N : Numeric}.

(** [self.Bc = j * linedata[:, 4]]. *)
Definition Bc (b : branch) : cplx := jtimes (br_Bc b).

(** [self.a = np.where(self.a <= 0, 1.0, self.a)]. *)
Definition tap (b : branch) : real :=
  if rleb (br_a b) r0 then r1 else br_a b.

(** [Z = R + j * X; y = 1.0 / Z]. *)
Definition y (b : branch) : cplx := cinv1 (radd_c (br_R b) (jtimes (br_X b))).

(** [max(np.maximum(nl, nr))]; NumPy's [max] raises on an empty array (a
    table of no rows). *)
Definition max_bus (linedata : list branch) : result Z :=
  match linedata with
  | [] => Raise ValueError
  | b :: t =>
      Ok (fold_left (fun m b' => Z.max m (Z.max (br_nl b') (br_nr b'))) t
            (Z.max (br_nl b) (br_nr b)))
  end.

(** One pass of the off-diagonal loop. *)
Definition offdiag_step (n : nat) (Y : matrix cplx) (b : branch)
  : result (matrix cplx) :=
  let nl_idx := br_nl b - 1 in
  let nr_idx := br_nr b - 1 in
  v <- mget n Y nl_idx nr_idx ;;
  Y1 <- mset n Y nl_idx nr_idx (csub v (cdiv_r (y b) (tap b))) ;;
  v' <- mget n Y1 nl_idx nr_idx ;;
  mset n Y1 nr_idx nl_idx v'.

(** The body of the inner diagonal loop, for bus number [k]. *)
Definition diag_step (n : nat) (k : Z) (Y : matrix cplx) (b : branch)
  : result (matrix cplx) :=
  if br_nl b =? k then
    v <- mget n Y (k - 1) (k - 1) ;;
    mset n Y (k - 1) (k - 1)
      (cadd v (cadd (cdiv_r (y b) (rsq (tap b))) (Bc b)))
  else if br_nr b =? k then
    v <- mget n Y (k - 1) (k - 1) ;;
    mset n Y (k - 1) (k - 1) (cadd v (cadd (y b) (Bc b)))
  else Ok Y.

(** What [lfybus] leaves in the object: [nbus] and [Ybus]. *)
Record ybus_out : Type := {
  nbus : Z;
  Ybus : matrix cplx
}.

Definition lfybus (linedata : list branch) : result ybus_out :=
  nb <- max_bus linedata ;;
  if nb <? 0 then Raise ValueError else
  let n := Z.to_nat nb in
  Y0 <- for_each linedata (offdiag_step n) (zeros2 czero n n) ;;
  Y1 <- for_each (zrange 1 n)
          (fun Y k => for_each linedata (diag_step n k) Y) Y0 ;;
  Ok {| nbus := nb; Ybus := Y1 |}.

End Lfybus.

(** ** Newton-Raphson power flow *)

Section Lfnewton.
Context `{N : Numeric}.

(** The per-bus arrays [lfnewton] allocates and fills from the bus table. *)
Record arrays : Type := {
  kb : list Z;
  Vm : list real;
  delta : list real;
  V : list cplx;
  P : list real;
  Q : list real;
  Sbus : list cplx;        (* self.S *)
  Pd : list real;
  Qd : list real;
  Pg : list real;
  Qg : list real;
  Qmin : list real;
  Qmax : list real;
  Qsh : list real
}.

Definition init_arrays (n : nat) : arrays :=
  {| kb := zeros 0 n; Vm := zeros r0 n; delta := zeros r0 n;
     V := zeros czero n; P := zeros r0 n; Q := zeros r0 n;
     Sbus := zeros czero n; Pd := zeros r0 n; Qd := zeros r0 n;
     Pg := zeros r0 n; Qg := zeros r0 n; Qmin := zeros r0 n;
     Qmax := zeros r0 n; Qsh := zeros r0 n |}.

(** [Vm * (cos(delta) + 1j * sin(delta))]. *)
Definition polar (vm d : real) : cplx :=
  rmul_c vm (radd_c (rcos d) (jtimes (rsin d))).

(** [pi / 180 * x] and [180 / pi * x]. *)
Definition deg2rad (x : real) : real := rmul (rdiv rpi (rlit 180 1)) x.
Definition rad2deg (x : real) : real := rmul (rdiv (rlit 180 1) rpi) x.

(** [self.kb] is an array of int64: [self.kb[i] = v] resolves the index first
    and then converts [v], and a Python int outside int64 raises
    [OverflowError]. *)
Definition in_int64 (v : Z) : bool := (- 2 ^ 63 <=? v) && (v <? 2 ^ 63).

Definition aset_int64 (l : list Z) (i v : Z) : result (list Z) :=
  l1 <- aset l i v ;;
  if in_int64 v then Ok l1 else Raise OverflowError.

(** The body of the ingest loop, for one row of the bus table. *)
Definition ingest_row (basemva : real) (s : arrays) (b : bus) : result arrays :=
  let n_idx := bus_no b - 1 in
  kb1 <- aset_int64 (kb s) n_idx (bus_kind b) ;;
  Vm1 <- aset (Vm s) n_idx (bus_Vm b) ;;
  delta1 <- aset (delta s) n_idx (bus_delta b) ;;
  Pd1 <- aset (Pd s) n_idx (bus_Pd b) ;;
  Qd1 <- aset (Qd s) n_idx (bus_Qd b) ;;
  Pg1 <- aset (Pg s) n_idx (bus_Pg b) ;;
  Qg1 <- aset (Qg s) n_idx (bus_Qg b) ;;
  Qmin1 <- aset (Qmin s) n_idx (bus_Qmin b) ;;
  Qmax1 <- aset (Qmax s) n_idx (bus_Qmax b) ;;
  Qsh1 <- aset (Qsh s) n_idx (bus_Qsh b) ;;
  if rleb (bus_Vm b) r0 then
    Vm2 <- aset Vm1 n_idx r1 ;;
    V2 <- aset (V s) n_idx (radd_c r1 czero) ;;
    Ok {| kb := kb1; Vm := Vm2; delta := delta1; V := V2; P := P s; Q := Q s;
          Sbus := Sbus s; Pd := Pd1; Qd := Qd1; Pg := Pg1; Qg := Qg1;
          Qmin := Qmin1; Qmax := Qmax1; Qsh := Qsh1 |}
  else
    let d := deg2rad (bus_delta b) in
    delta2 <- aset delta1 n_idx d ;;
    V2 <- aset (V s) n_idx (polar (bus_Vm b) d) ;;
    let p := rdiv (rsub (bus_Pg b) (bus_Pd b)) basemva in
    let q := rdiv (radd (rsub (bus_Qg b) (bus_Qd b)) (bus_Qsh b)) basemva in
    P2 <- aset (P s) n_idx p ;;
    Q2 <- aset (Q s) n_idx q ;;
    S2 <- aset (Sbus s) n_idx (radd_c p (jtimes q)) ;;
    Ok {| kb := kb1; Vm := Vm1; delta := delta2; V := V2; P := P2; Q := Q2;
          Sbus := S2; Pd := Pd1; Qd := Qd1; Pg := Pg1; Qg := Qg1;
          Qmin := Qmin1; Qmax := Qmax1; Qsh := Qsh1 |}.

Definition ingest (basemva : real) (n : nat) (busdata : list bus)
  : result arrays :=
  for_each busdata (ingest_row basemva) (init_arrays n).

(** The running counts [nss], [ngs] and the totals [ns], [ng]. *)
Fixpoint count_kinds (kbs : list Z) (ns ng : Z) : list Z * list Z * Z * Z :=
  match kbs with
  | [] => ([], [], ns, ng)
  | k :: t =>
      let ns' := if k =? 1 then ns + 1 else ns in
      let ng' := if k =? 2 then ng + 1 else ng in
      let '(nss, ngs, nsf, ngf) := count_kinds t ns' ng' in
      (ns' :: nss, ng' :: ngs, nsf, ngf)
  end.


(** What stays fixed through the iterations of one run. *)
Record env : Type := {
  e_n : nat;                 (* int(self.nbus) *)
  e_lines : list branch;     (* self.nl, self.nr, row by row *)
  e_Ym : matrix real;        (* abs(self.Ybus) *)
  e_t : matrix real;         (* angle(self.Ybus) *)
  e_kb : list Z;
  e_nss : list Z;
  e_ngs : list Z;
  e_ns : Z;
  e_m : Z;
  e_Qd : list real;
  e_Qsh : list real;
  e_Qmin : list real;
  e_Qmax : list real;
  e_basemva : real;
  e_accuracy : real;
  e_maxiter : Z
}.

(** The four running sums of one bus and the Jacobian under construction. *)
Record jacc : Type := {
  J11 : real;
  J22 : real;
  J33 : real;
  J44 : real;
  jA : matrix real
}.

Definition in_range (m i : Z) : bool := (0 <=? i) && (i <? m).

(** [A[i, j] = v] when [guard] holds. *)
Definition mset_if (guard : bool) (m : Z) (A : matrix real) (i j : Z) (v : real)
  : result (matrix real) :=
  if guard then mset (Z.to_nat m) A i j v else Ok A.

(** The body of the loop over branches, for bus index [n]. *)
Definition branch_step (e : env) (vm dl : list real) (n nn lm : Z)
  (acc : jacc) (b : branch) : result jacc :=
  if (br_nl b - 1 =? n) || (br_nr b - 1 =? n) then
    let l := if br_nr b - 1 =? n then br_nl b - 1 else br_nr b - 1 in
    Vn <- aget vm n ;;
    Vl <- aget vm l ;;
    Ynl <- mget (e_n e) (e_Ym e) n l ;;
    tnl <- mget (e_n e) (e_t e) n l ;;
    dn <- aget dl n ;;
    dl_l <- aget dl l ;;
    kbn <- aget (e_kb e) n ;;
    let arg := radd (rsub tnl dn) dl_l in
    let j11 := radd (J11 acc) (rmul (rmul (rmul Vn Vl) Ynl) (rsin arg)) in
    let j33 := radd (J33 acc) (rmul (rmul (rmul Vn Vl) Ynl) (rcos arg)) in
    let j22 := if negb (kbn =? 1)
               then radd (J22 acc) (rmul (rmul Vl Ynl) (rcos arg)) else J22 acc in
    let j44 := if negb (kbn =? 1)
               then radd (J44 acc) (rmul (rmul Vl Ynl) (rsin arg)) else J44 acc in
    kbl <- aget (e_kb e) l ;;
    A4 <- (if negb (kbn =? 1) && negb (kbl =? 1) then
             ngsl <- aget (e_ngs e) l ;;
             nssl <- aget (e_nss e) l ;;
             let m := e_m e in
             let lk := Z.of_nat (e_n e) + l - ngsl - nssl - e_ns e in
             let ll := l - nssl in
             A1 <- mset_if (in_range m nn && in_range m ll) m (jA acc) nn ll
                     (rmul (rmul (rmul (rneg Vn) Vl) Ynl) (rsin arg)) ;;
             A2 <- mset_if ((kbl =? 0) && in_range m nn && in_range m lk) m A1 nn lk
                     (rmul (rmul Vn Ynl) (rcos arg)) ;;
             A3 <- mset_if ((kbn =? 0) && in_range m lm && in_range m ll) m A2 lm ll
                     (rmul (rmul (rmul (rneg Vn) Vl) Ynl) (rcos arg)) ;;
             mset_if ((kbn =? 0) && (kbl =? 0) && in_range m lm && in_range m lk)
               m A3 lm lk (rmul (rmul (rneg Vn) Ynl) (rsin arg))
           else Ok (jA acc)) ;;
    Ok {| J11 := j11; J22 := j22; J33 := j33; J44 := j44; jA := A4 |}
  else Ok acc.

(** What the sweep over the buses carries from one bus to the next. *)
Record sweep : Type := {
  sw_A : matrix real;
  sw_DC : list real;
  sw_Vm : list real;
  sw_P : list real;
  sw_Q : list real
}.

(** The reactive-limit nudge of a generator bus, on iterations 3 to 7. *)
Definition nudge (e : env) (iter n : Z) (vm q : list real) : result (list real) :=
  Qmaxn <- aget (e_Qmax e) n ;;
  if negb (reqb Qmaxn r0) then
    Qn <- aget q n ;;
    Qdn <- aget (e_Qd e) n ;;
    Qshn <- aget (e_Qsh e) n ;;
    let Qgc := rsub (radd (rmul Qn (e_basemva e)) Qdn) Qshn in
    if (iter <=? 7) && (2 <? iter) then
      Qminn <- aget (e_Qmin e) n ;;
      Vn <- aget vm n ;;
      if rltb Qgc Qminn then aset vm n (radd Vn (rlit 1 100))
      else if rgtb Qgc Qmaxn then aset vm n (rsub Vn (rlit 1 100))
      else Ok vm
    else Ok vm
  else Ok vm.

(** The body of the loop over the buses: Jacobian rows and mismatches of
    bus index [n]. *)
Definition sweep_step (e : env) (iter : Z) (dl : list real) (s : sweep) (n : Z)
  : result sweep :=
  nssn <- aget (e_nss e) n ;;
  ngsn <- aget (e_ngs e) n ;;
  kbn <- aget (e_kb e) n ;;
  let m := e_m e in
  let nn := n - nssn in
  let lm := Z.of_nat (e_n e) + n - ngsn - nssn - e_ns e in
  acc <- for_each (e_lines e) (branch_step e (sw_Vm s) dl n nn lm)
           {| J11 := r0; J22 := r0; J33 := r0; J44 := r0; jA := sw_A s |} ;;
  Vn <- aget (sw_Vm s) n ;;
  Ynn <- mget (e_n e) (e_Ym e) n n ;;
  tnn <- mget (e_n e) (e_t e) n n ;;
  let Pk := radd (rmul (rmul (rsq Vn) Ynn) (rcos tnn)) (J33 acc) in
  let Qk := rsub (rmul (rmul (rneg (rsq Vn)) Ynn) (rsin tnn)) (J11 acc) in
  P1 <- (if kbn =? 1 then aset (sw_P s) n Pk else Ok (sw_P s)) ;;
  Q1 <- (if kbn =? 1 then aset (sw_Q s) n Qk else Ok (sw_Q s)) ;;
  Q2 <- (if kbn =? 2 then aset Q1 n Qk else Ok Q1) ;;
  Vm2 <- (if kbn =? 2 then nudge e iter n (sw_Vm s) Q2 else Ok (sw_Vm s)) ;;
  AD1 <- (if negb (kbn =? 1) && in_range m nn then
            A1 <- mset (Z.to_nat m) (jA acc) nn nn (J11 acc) ;;
            Pn <- aget P1 n ;;
            DC1 <- aset (sw_DC s) nn (rsub Pn Pk) ;;
            Ok (A1, DC1)
          else Ok (jA acc, sw_DC s)) ;;
  AD2 <- (if (kbn =? 0) && in_range m lm && in_range m nn then
            Vn' <- aget Vm2 n ;;
            A2 <- mset (Z.to_nat m) (fst AD1) nn lm
                    (radd (rmul (rmul (rmul (rlit 2 1) Vn') Ynn) (rcos tnn)) (J22 acc)) ;;
            A3 <- mset (Z.to_nat m) A2 lm nn (J33 acc) ;;
            A4 <- mset (Z.to_nat m) A3 lm lm
                    (rsub (rmul (rmul (rmul (rlit (-2) 1) Vn') Ynn) (rsin tnn)) (J44 acc)) ;;
            Qn <- aget Q2 n ;;
            DC2 <- aset (snd AD1) lm (rsub Qn Qk) ;;
            Ok (A4, DC2)
          else Ok AD1) ;;
  Ok {| sw_A := fst AD2; sw_DC := snd AD2; sw_Vm := Vm2; sw_P := P1; sw_Q := Q2 |}.

(** The body of the correction loop, for bus index [n]. *)
Definition correct_step (e : env) (DX : list real) (s : list real * list real)
  (n : Z) : result (list real * list real) :=
  let '(dl, vm) := s in
  nssn <- aget (e_nss e) n ;;
  ngsn <- aget (e_ngs e) n ;;
  kbn <- aget (e_kb e) n ;;
  let len := Z.of_nat (length DX) in
  let nn := n - nssn in
  let lm := Z.of_nat (e_n e) + n - ngsn - nssn - e_ns e in
  dl1 <- (if negb (kbn =? 1) && in_range len nn then
            d <- aget dl n ;; x <- aget DX nn ;; aset dl n (radd d x)
          else Ok dl) ;;
  vm1 <- (if (kbn =? 0) && in_range len lm then
            v <- aget vm n ;; x <- aget DX lm ;; aset vm n (radd v x)
          else Ok vm) ;;
  Ok (dl1, vm1).

(** The variables the [while] loop updates. *)
Record iter_state : Type := {
  it_Vm : list real;
  it_delta : list real;
  it_P : list real;
  it_Q : list real;
  it_iter : Z;
  it_maxerror : real;
  it_converge : Z
}.

(** One pass through the body of the [while] loop. *)
Definition iteration (e : env) (s : iter_state) : result iter_state :=
  if e_m e <? 0 then Raise ValueError else
  let m := Z.to_nat (e_m e) in
  let iter := it_iter s + 1 in
  sw <- for_each (zrange 0 (e_n e)) (sweep_step e iter (it_delta s))
          {| sw_A := zeros2 r0 m m; sw_DC := zeros r0 m; sw_Vm := it_Vm s;
             sw_P := it_P s; sw_Q := it_Q s |} ;;
  DX <- of_option LinAlgFailure (lin_solve (sw_A sw) (sw_DC sw)) ;;
  dv <- for_each (zrange 0 (e_n e)) (correct_step e DX) (it_delta s, sw_Vm sw) ;;
  maxerror <- rmax_list (map rabs (sw_DC sw)) ;;
  Ok {| it_Vm := snd dv; it_delta := fst dv; it_P := sw_P sw; it_Q := sw_Q sw;
        it_iter := iter; it_maxerror := maxerror;
        it_converge := if (iter =? e_maxiter e) && rgtb maxerror (e_accuracy e)
                       then 0 else it_converge s |}.

(** [while self.maxerror >= self.accuracy and self.iter <= self.maxiter].
    [k] bounds the passes still possible; [lfnewton] starts it at
    [maxiter + 1], which the loop test never lets run out. *)
Fixpoint while_loop (e : env) (k : nat) (s : iter_state) : result iter_state :=
  if rgeb (it_maxerror s) (e_accuracy e) && (it_iter s <=? e_maxiter e) then
    match k with
    | O => Ok s
    | S k' => s' <- iteration e s ;; while_loop e k' s'
    end
  else Ok s.


(** The solver settings of the object. *)
Record config : Type := {
  basemva : real;
  accuracy : real;
  maxiter : Z
}.

(** What the loop over the buses after the iterations updates. *)
Record post : Type := {
  po_S : list cplx;
  po_Pg : list real;
  po_Qg : list real;
  po_Pgg : list real;
  po_Qgg : list real;
  po_yload : list cplx
}.

Definition post_step (bm : real) (kbs : list Z) (vm p q pd qd qsh : list real)
  (s : post) (n : Z) : result post :=
  kbn <- aget kbs n ;;
  Pn <- aget p n ;;
  Qn <- aget q n ;;
  Pdn <- aget pd n ;;
  Qdn <- aget qd n ;;
  Qshn <- aget qsh n ;;
  Vn <- aget vm n ;;
  s1 <- (if kbn =? 1 then
           S1 <- aset (po_S s) n (radd_c Pn (jtimes Qn)) ;;
           let pg := radd (rmul Pn bm) Pdn in
           let qg := rsub (radd (rmul Qn bm) Qdn) Qshn in
           Pg1 <- aset (po_Pg s) n pg ;;
           Qg1 <- aset (po_Qg s) n qg ;;
           Ok {| po_S := S1; po_Pg := Pg1; po_Qg := Qg1;
                 po_Pgg := po_Pgg s ++ [pg]; po_Qgg := po_Qgg s ++ [qg];
                 po_yload := po_yload s |}
         else if kbn =? 2 then
           S1 <- aset (po_S s) n (radd_c Pn (jtimes Qn)) ;;
           let qg := rsub (radd (rmul Qn bm) Qdn) Qshn in
           Qg1 <- aset (po_Qg s) n qg ;;
           pg <- aget (po_Pg s) n ;;
           Ok {| po_S := S1; po_Pg := po_Pg s; po_Qg := Qg1;
                 po_Pgg := po_Pgg s ++ [pg]; po_Qgg := po_Qgg s ++ [qg];
                 po_yload := po_yload s |}
         else Ok s) ;;
  yl <- aset (po_yload s1) n
          (cdiv_r (cadd (rsub_c Pdn (jtimes Qdn)) (jtimes Qshn))
             (rmul bm (rsq Vn))) ;;
  Ok {| po_S := po_S s1; po_Pg := po_Pg s1; po_Qg := po_Qg s1;
        po_Pgg := po_Pgg s1; po_Qgg := po_Qgg s1; po_yload := yl |}.

(** [busdata[:, c] = col]: NumPy assigns row by row when the lengths agree,
    repeats a one-element array, and raises otherwise. *)
Definition assign_column (rows : list bus) (col : list real)
  (setf : bus -> real -> bus) : result (list bus) :=
  if (length col =? length rows)%nat
  then Ok (map (fun br => setf (fst br) (snd br)) (combine rows col))
  else match col with
       | [x] => Ok (map (fun b => setf b x) rows)
       | _ => Raise ValueError
       end.

Definition set_Vm (b : bus) (v : real) : bus :=
  {| bus_no := bus_no b; bus_kind := bus_kind b; bus_Vm := v;
     bus_delta := bus_delta b; bus_Pd := bus_Pd b; bus_Qd := bus_Qd b;
     bus_Pg := bus_Pg b; bus_Qg := bus_Qg b; bus_Qmin := bus_Qmin b;
     bus_Qmax := bus_Qmax b; bus_Qsh := bus_Qsh b |}.

Definition set_delta (b : bus) (d : real) : bus :=
  {| bus_no := bus_no b; bus_kind := bus_kind b; bus_Vm := bus_Vm b;
     bus_delta := d; bus_Pd := bus_Pd b; bus_Qd := bus_Qd b;
     bus_Pg := bus_Pg b; bus_Qg := bus_Qg b; bus_Qmin := bus_Qmin b;
     bus_Qmax := bus_Qmax b; bus_Qsh := bus_Qsh b |}.

Definition tech_diverged : String.string :=
  "ITERATIVE SOLUTION DID NOT CONVERGE"%string.
Definition tech_converged : String.string :=
  "Power Flow Solution by Newton-Raphson Method"%string.

(** What [lfnewton] leaves in the object. *)
Record lf_out : Type := {
  o_arr : arrays;
  o_deltad : list real;
  o_Pgg : list real;
  o_Qgg : list real;
  o_yload : list cplx;
  o_Pgt : real;
  o_Qgt : real;
  o_Pdt : real;
  o_Qdt : real;
  o_Qsht : real;
  o_iter : Z;
  o_maxerror : real;
  o_tech : String.string;
  o_busdata : list bus
}.

(** The environment of a run, from the arrays the ingest filled. *)
Definition make_env (cfg : config) (yb : ybus_out) (linedata : list branch)
  (a : arrays) : env :=
  let n := Z.to_nat (nbus yb) in
  let '(nss, ngs, ns, ng) := count_kinds (kb a) 0 0 in
  {| e_n := n; e_lines := linedata;
     e_Ym := map (map cabs) (Ybus yb); e_t := map (map cangle) (Ybus yb);
     e_kb := kb a; e_nss := nss; e_ngs := ngs; e_ns := ns;
     e_m := 2 * Z.of_nat n - ng - 2 * ns;
     e_Qd := Qd a; e_Qsh := Qsh a; e_Qmin := Qmin a; e_Qmax := Qmax a;
     e_basemva := basemva cfg; e_accuracy := accuracy cfg;
     e_maxiter := maxiter cfg |}.

Definition lfnewton (cfg : config) (yb : ybus_out) (linedata : list branch)
  (busdata : list bus) : result lf_out :=
  if nbus yb <? 0 then Raise ValueError else
  let n := Z.to_nat (nbus yb) in
  a <- ingest (basemva cfg) n busdata ;;
  let e := make_env cfg yb linedata a in
  it <- while_loop e (Z.to_nat (maxiter cfg + 1))
          {| it_Vm := Vm a; it_delta := delta a; it_P := P a; it_Q := Q a;
             it_iter := 0; it_maxerror := rlit 1 1; it_converge := 1 |} ;;
  let tech := if negb (it_converge it =? 1) then tech_diverged
              else tech_converged in
  let Vfin := map (fun vd => polar (fst vd) (snd vd))
                (combine (it_Vm it) (it_delta it)) in
  let deltad := map rad2deg (it_delta it) in
  po <- for_each (zrange 0 n)
          (post_step (basemva cfg) (kb a) (it_Vm it) (it_P it) (it_Q it)
             (Pd a) (Qd a) (Qsh a))
          {| po_S := Sbus a; po_Pg := Pg a; po_Qg := Qg a;
             po_Pgg := []; po_Qgg := []; po_yload := zeros czero n |} ;;
  bd1 <- assign_column busdata (it_Vm it) set_Vm ;;
  bd2 <- assign_column bd1 deltad set_delta ;;
  Ok {| o_arr := {| kb := kb a; Vm := it_Vm it; delta := it_delta it;
                    V := Vfin; P := it_P it; Q := it_Q it; Sbus := po_S po;
                    Pd := Pd a; Qd := Qd a; Pg := po_Pg po; Qg := po_Qg po;
                    Qmin := Qmin a; Qmax := Qmax a; Qsh := Qsh a |};
        o_deltad := deltad; o_Pgg := po_Pgg po; o_Qgg := po_Qgg po;
        o_yload := po_yload po;
        o_Pgt := rsum (po_Pg po); o_Qgt := rsum (po_Qg po);
        o_Pdt := rsum (Pd a); o_Qdt := rsum (Qd a); o_Qsht := rsum (Qsh a);
        o_iter := it_iter it; o_maxerror := it_maxerror it; o_tech := tech;
        o_busdata := bd2 |}.

(** [lfybus()] followed by [lfnewton()] on one object. *)
Definition power_flow (cfg : config) (linedata : list branch)
  (busdata : list bus) : result lf_out :=
  yb <- lfybus linedata ;;
  lfnewton cfg yb linedata busdata.

End Lfnewton.

(** ** Economic dispatch *)

Section Dispatch.
Context `{N : Numeric}.

(** The fields of the object that [dispatch] reads or writes. [None] is
    Python's [None] (or, for [lambda_], an attribute not yet set). *)
Record psys : Type := {
  ps_basemva : real;
  ps_B : option (matrix real);
  ps_B0 : option (list real);
  ps_B00 : option real;
  ps_lambda : option real;
  ps_Pgg : option (list real);
  ps_busdata : option (list bus);
  ps_Pg : option (list real);
  ps_kb : option (list Z);
  ps_nbus : Z;
  ps_Pdt : real
}.

(** One row of the cost table: [alpha, beta, gama]. *)
Record cost_row : Type := {
  c_alpha : real;
  c_beta : real;
  c_gama : real
}.

(** [np.dot] of two one-dimensional arrays: shapes that do not agree raise
    [ValueError]. *)
Definition dot (a b : list real) : result real :=
  if (length a =? length b)%nat then Ok (vdot a b) else Raise ValueError.

(** [np.dot] of a two-dimensional array and a one-dimensional one: one entry
    for each row. *)
Definition matvec (M : matrix real) (v : list real) : result (list real) :=
  if forallb (fun row => (length row =? length v)%nat) M
  then Ok (map (mvdot M v) (seq 0 (length M)))
  else Raise ValueError.

(** [np.dot(Pgg, np.dot(Bu, Pgg)) + np.dot(self.B0, Pgg) + B00u]. *)
Definition losses (Bu : matrix real) (B0 : list real) (B00u : real)
  (Pgg : list real) : result real :=
  BuP <- matvec Bu Pgg ;;
  q <- dot Pgg BuP ;;
  l <- dot B0 Pgg ;;
  Ok (radd (radd q l) B00u).

(** The variables of the lambda iteration. [d_wgt] holds the weights, [true]
    for 1 (active) and [false] for 0 (clamped); [d_clamp_DelP] keeps the
    residual that the clamp step of the last pass tested, before the pass
    recomputed [DelP]. *)
Record dloop : Type := {
  d_wgt : list bool;
  d_lambda : real;
  d_iterp : Z;
  d_DelP : real;
  d_Pgg : list real;
  d_PL : real;
  d_clamp_DelP : real
}.

(** What stays fixed through the lambda iteration. *)
Record denv : Type := {
  de_ngg : nat;
  de_Bu : matrix real;
  de_B0 : list real;
  de_B00u : real;
  de_cost : list cost_row;
  de_Pmin : list real;
  de_Pmax : list real;
  de_Pdt : real
}.

Definition weight (w : bool) : real := if w then r1 else r0.

(** The body of the loop that forms [E] and [Dx], for generator [k]. *)
Definition form_step (e : denv) (wgt : list bool) (lam : real)
  (s : matrix real * list real) (k : Z) : result (matrix real * list real) :=
  let '(E, Dx) := s in
  let nE := length (de_Bu e) in
  w <- aget wgt k ;;
  if w then
    c <- aget (de_cost e) k ;;
    Bkk <- mget nE (de_Bu e) k k ;;
    E1 <- mset nE E k k (radd (rdiv (c_gama c) lam) Bkk) ;;
    B0k <- aget (de_B0 e) k ;;
    Dx1 <- aset Dx k (rmul (rlit 1 2)
                       (rsub (rsub r1 B0k) (rdiv (c_beta c) lam))) ;;
    Ok (E1, Dx1)
  else
    E1 <- mset nE E k k r1 ;;
    Dx1 <- aset Dx k r0 ;;
    E2 <- for_each (zrange 0 (de_ngg e))
            (fun E' m => if negb (m =? k) then mset nE E' k m r0 else Ok E') E1 ;;
    Ok (E2, Dx1).

(** [Pgg[k] = PP[k]] for the active generators. *)
Definition take_step (wgt : list bool) (PP : list real) (Pgg : list real)
  (k : Z) : result (list real) :=
  w <- aget wgt k ;;
  if w then x <- aget PP k ;; aset Pgg k x else Ok Pgg.

(** The body of the limit check, for generator [k]. *)
Definition clamp_step (e : denv) (DelP : real) (s : list real * list bool)
  (k : Z) : result (list real * list bool) :=
  let '(Pgg, wgt) := s in
  Pk <- aget Pgg k ;;
  Pmaxk <- aget (de_Pmax e) k ;;
  if rgtb Pk Pmaxk && rleb (rabs DelP) (rlit 1 1000) then
    Pgg1 <- aset Pgg k Pmaxk ;;
    wgt1 <- aset wgt k false ;;
    Ok (Pgg1, wgt1)
  else
    Pmink <- aget (de_Pmin e) k ;;
    if rltb Pk Pmink && rleb (rabs DelP) (rlit 1 1000) then
      Pgg1 <- aset Pgg k Pmink ;;
      wgt1 <- aset wgt k false ;;
      Ok (Pgg1, wgt1)
    else Ok s.

(** The body of the gradient loop, for generator [k]. *)
Definition grad_step (e : denv) (wgt : list bool) (lam : real)
  (Pgg : list real) (grad : list real) (k : Z) : result (list real) :=
  let nE := length (de_Bu e) in
  w <- aget wgt k ;;
  if w then
    BP <- for_each (zrange 0 (de_ngg e))
            (fun bp m => if negb (m =? k)
                         then b <- mget nE (de_Bu e) k m ;;
                              p <- aget Pgg m ;;
                              Ok (radd bp (rmul b p))
                         else Ok bp) r0 ;;
    c <- aget (de_cost e) k ;;
    Bkk <- mget nE (de_Bu e) k k ;;
    let denominator :=
      rmul (rlit 2 1) (rsq (radd (c_gama c) (rmul lam Bkk))) in
    if rgtb denominator (rlit 1 10000000000) then
      B0k <- aget (de_B0 e) k ;;
      aset grad k
        (rdiv (rsub (radd (rmul (c_gama c) (rsub r1 B0k)) (rmul Bkk (c_beta c)))
                 (rmul (rmul (rlit 2 1) (c_gama c)) BP))
           denominator)
    else aset grad k r0
  else Ok grad.

(** The update of [lambda_] at the end of a pass. *)
Definition next_lambda (lam DelP sumgrad : real) : real :=
  if rgtb (rabs sumgrad) (rlit 1 1000000) then
    let Delambda := rdiv DelP sumgrad in
    let Delambda' :=
      if rgtb (rabs Delambda) (rmul (rlit 1 2) lam)
      then rmul (rmul (rlit 1 2) lam) (rsign Delambda)
      else Delambda in
    radd lam Delambda'
  else if rgtb DelP r0 then rmul lam (rlit 105 100)
  else rmul lam (rlit 95 100).

(** One pass through the body of the [while] loop of [dispatch]. *)
Definition dispatch_pass (e : denv) (s : dloop) : result dloop :=
  let ks := zrange 0 (de_ngg e) in
  ED <- for_each ks (form_step e (d_wgt s) (d_lambda s))
          (de_Bu e, zeros r0 (de_ngg e)) ;;
  PP <- of_option LinAlgFailure (lin_solve (fst ED) (snd ED)) ;;
  Pgg1 <- for_each ks (take_step (d_wgt s) PP) (d_Pgg s) ;;
  let Pgtt := rsum Pgg1 in
  PL1 <- losses (de_Bu e) (de_B0 e) (de_B00u e) Pgg1 ;;
  let DelP1 := rsub (radd (de_Pdt e) PL1) Pgtt in
  Pw <- for_each ks (clamp_step e DelP1) (Pgg1, d_wgt s) ;;
  let '(Pgg2, wgt2) := Pw in
  PL2 <- losses (de_Bu e) (de_B0 e) (de_B00u e) Pgg2 ;;
  let DelP2 := rsub (radd (de_Pdt e) PL2) (rsum Pgg2) in
  grad <- for_each ks (grad_step e wgt2 (d_lambda s) Pgg2)
            (zeros r0 (de_ngg e)) ;;
  sumgrad <- dot (map weight wgt2) grad ;;
  Ok {| d_wgt := wgt2; d_lambda := next_lambda (d_lambda s) DelP2 sumgrad;
        d_iterp := d_iterp s + 1; d_DelP := DelP2; d_Pgg := Pgg2;
        d_PL := PL2; d_clamp_DelP := DelP1 |}.

(** [while abs(DelP) >= 0.0001 and iterp < 200], with [k] the passes still
    possible ([200 - iterp]). *)
Fixpoint dispatch_loop (e : denv) (k : nat) (s : dloop) : result dloop :=
  if rgeb (rabs (d_DelP s)) (rlit 1 10000) && (d_iterp s <? 200) then
    match k with
    | O => Ok s
    | S k' => s' <- dispatch_pass e s ;; dispatch_loop e k' s'
    end
  else Ok s.


(** The three arguments of [dispatch], [None] when the caller leaves one out. *)
Record dispatch_args : Type := {
  arg_Pdt : option real;
  arg_cost : option (list cost_row);
  arg_mwlimits : option (list (real * real))
}.

(** What a call returns: nothing after one of the three diagnostics, or the
    triple [(Pgg, lambda_, PL)]. *)
Inductive dispatch_ret : Type :=
| CostRequired
| DemandAboveMax
| DemandBelowMin
| Schedule (Pgg : list real) (lam : real) (PL : real).

(** The three [if self.B... is None] assignments. *)
Definition fill_defaults (s : psys) (ngg : nat) : psys :=
  {| ps_basemva := ps_basemva s;
     ps_B := Some (match ps_B s with Some B => B | None => zeros2 r0 ngg ngg end);
     ps_B0 := Some (match ps_B0 s with Some b => b | None => zeros r0 ngg end);
     ps_B00 := Some (match ps_B00 s with Some b => b | None => r0 end);
     ps_lambda := ps_lambda s; ps_Pgg := ps_Pgg s;
     ps_busdata := ps_busdata s; ps_Pg := ps_Pg s; ps_kb := ps_kb s;
     ps_nbus := ps_nbus s; ps_Pdt := ps_Pdt s |}.

Definition set_Pg (b : bus) (v : real) : bus :=
  {| bus_no := bus_no b; bus_kind := bus_kind b; bus_Vm := bus_Vm b;
     bus_delta := bus_delta b; bus_Pd := bus_Pd b; bus_Qd := bus_Qd b;
     bus_Pg := v; bus_Qg := bus_Qg b; bus_Qmin := bus_Qmin b;
     bus_Qmax := bus_Qmax b; bus_Qsh := bus_Qsh b |}.

(** The loop that copies the schedule into the [Pg] column of the bus
    table; [ng] counts the generator rows met so far. *)
Fixpoint sync_Pg (kbs : option (list Z)) (Pgg : list real) (ng : nat)
  (rows : list bus) : result (list bus) :=
  match rows with
  | [] => Ok []
  | b :: t =>
      let bus_idx := bus_no b - 1 in
      isgen <- match kbs with
               | Some kb' =>
                   if bus_idx <? Z.of_nat (length kb')
                   then k <- aget kb' bus_idx ;; Ok (negb (k =? 0))
                   else Ok false
               | None => Ok false
               end ;;
      if isgen then
        match nth_error Pgg ng with
        | Some p => t' <- sync_Pg kbs Pgg (S ng) t ;; Ok (set_Pg b p :: t')
        | None => t' <- sync_Pg kbs Pgg ng t ;; Ok (b :: t')
        end
      else t' <- sync_Pg kbs Pgg ng t ;; Ok (b :: t')
  end.

(** The slack-mismatch report: it only prints, but its reads can raise. *)
Fixpoint report_slack (kb' : list Z) (Pg' : option (list real))
  (Pgg : list real) (ks : list Z) : result unit :=
  match ks with
  | [] => Ok tt
  | k :: t =>
      kbk <- aget kb' k ;;
      if kbk =? 1 then
        match Pg' with
        | Some pg => _ <- aget pg k ;; _ <- aget Pgg 0 ;; Ok tt
        | None => Raise TypeError
        end
      else report_slack kb' Pg' Pgg t
  end.

(** [mwlimits], with the default [(0, inf)] rows. *)
Definition limits_of (args : dispatch_args) (ngg : nat) : list (real * real) :=
  match arg_mwlimits args with
  | Some l => l
  | None => repeat (r0, rmul rinf r1) ngg
  end.

Definition demand_of (s : psys) (args : dispatch_args) : real :=
  match arg_Pdt args with Some p => p | None => ps_Pdt s end.

(** The scaled coefficients, cost columns, limits and demand of a call. *)
Definition denv_of (s : psys) (args : dispatch_args) (cost : list cost_row)
  : denv :=
  let ngg := length cost in
  let B := match ps_B s with Some B => B | None => zeros2 r0 ngg ngg end in
  let B0 := match ps_B0 s with Some b => b | None => zeros r0 ngg end in
  let B00 := match ps_B00 s with Some b => b | None => r0 end in
  {| de_ngg := ngg;
     de_Bu := map (map (fun x => rdiv x (ps_basemva s))) B;
     de_B0 := B0;
     de_B00u := rmul (ps_basemva s) B00;
     de_cost := cost;
     de_Pmin := map fst (limits_of args ngg);
     de_Pmax := map snd (limits_of args ngg);
     de_Pdt := demand_of s args |}.

(** The locals as the [while] loop first meets them. *)
Definition dloop_init (ngg : nat) (lam0 : real) : dloop :=
  {| d_wgt := repeat true ngg; d_lambda := lam0; d_iterp := 0;
     d_DelP := rlit 10 1; d_Pgg := zeros r0 ngg; d_PL := r0;
     d_clamp_DelP := rlit 10 1 |}.

(** [self.lambda_], set to [np.max(beta)] on a first call. *)
Definition lambda0 (s : psys) (cost : list cost_row) : result real :=
  match ps_lambda s with
  | Some l => Ok l
  | None => rmax_list (map c_beta cost)
  end.

Definition dispatch (s : psys) (args : dispatch_args)
  : result (psys * dispatch_ret) :=
  match arg_cost args with
  | None => Ok (s, CostRequired)
  | Some cost =>
      let ngg := length cost in
      let s1 := fill_defaults s ngg in
      let e := denv_of s args cost in
      if rgtb (de_Pdt e) (rsum (de_Pmax e)) then Ok (s1, DemandAboveMax)
      else if rltb (de_Pdt e) (rsum (de_Pmin e)) then Ok (s1, DemandBelowMin)
      else
        lam0 <- lambda0 s cost ;;
        fin <- dispatch_loop e 200 (dloop_init ngg lam0) ;;
        if d_iterp fin =? 0 then Raise NameError else
        bd <- match ps_busdata s with
              | Some rows =>
                  rows' <- sync_Pg (ps_kb s) (d_Pgg fin) 0 rows ;;
                  _ <- match ps_kb s with
                       | Some kb' =>
                           report_slack kb' (ps_Pg s) (d_Pgg fin)
                             (zrange 0 (Z.to_nat (ps_nbus s)))
                       | None => Ok tt
                       end ;;
                  Ok (Some rows')
              | None => Ok None
              end ;;
        Ok ({| ps_basemva := ps_basemva s; ps_B := ps_B s1; ps_B0 := ps_B0 s1;
               ps_B00 := ps_B00 s1; ps_lambda := Some (d_lambda fin);
               ps_Pgg := Some (d_Pgg fin); ps_busdata := bd;
               ps_Pg := ps_Pg s; ps_kb := ps_kb s; ps_nbus := ps_nbus s;
               ps_Pdt := ps_Pdt s |},
            Schedule (d_Pgg fin) (d_lambda fin) (d_PL fin))
  end.

End Dispatch.

(** ** The scalar interface at IEEE doubles *)

Module F64.

Local Open Scope float_scope.

Fixpoint of_pos (p : positive) : float :=
  match p with
  | xH => 1
  | xO q => 2 * of_pos q
  | xI q => 2 * of_pos q + 1
  end.

Definition of_Z (z : Z) : float :=
  match z with
  | Z0 => 0
  | Zpos p => of_pos p
  | Zneg p => - of_pos p
  end.

(** The double nearest to the ratio [z / p] (the division rounds once). *)
Definition lit (z : Z) (p : positive) : float := of_Z z / of_pos p.

Definition is_nan (x : float) : bool := negb (x =? x).

(** [np.maximum]: a NaN operand wins. *)
Definition fmax (x y : float) : float :=
  if is_nan x then x else if is_nan y then y else if x <? y then y else x.

(** [np.sign]. *)
Definition fsign (x : float) : float :=
  if is_nan x then x else if 0 <? x then 1 else if x <? 0 then -1 else 0.

Definition pi : float := 0x1.921fb54442d18p+1.

(** complex128 as a pair, with NumPy's arithmetic on the parts. *)
Definition c128 : Type := float * float.

Definition c_add (a b : c128) : c128 := (fst a + fst b, snd a + snd b).
Definition c_sub (a b : c128) : c128 := (fst a - fst b, snd a - snd b).
Definition c_mul (a b : c128) : c128 :=
  (fst a * fst b - snd a * snd b, fst a * snd b + snd a * fst b).

(** NumPy's complex division (Smith's scaling). *)
Definition c_div (a b : c128) : c128 :=
  let '(ar, ai) := a in
  let '(br, bi) := b in
  if abs bi <=? abs br then
    if (br =? 0) && (bi =? 0) then (ar / abs br, ai / abs bi)
    else
      let rat := bi / br in
      let scl := 1 / (br + bi * rat) in
      ((ar + ai * rat) * scl, (ai - ar * rat) * scl)
  else
    let rat := br / bi in
    let scl := 1 / (bi + br * rat) in
    ((ar * rat + ai) * scl, (ai * rat - ar) * scl).

Definition c_of (x : float) : c128 := (x, 0).

(** The functions NumPy takes from the C library, which the kernel's floats
    do not provide. *)
Record libm : Type := {
  lm_sin : float -> float;
  lm_cos : float -> float;
  lm_hypot : float -> float -> float;
  lm_atan2 : float -> float -> float
}.

(** The library at the arguments where its result is fixed, by the C
    standard or by correct rounding: [sin] and [cos] at zero and at the
    double nearest to pi, [hypot] with one argument zero, [atan2] with a zero
    first argument. The table has no other entry and answers NaN there: with
    it the instance evaluates the runs whose admittances and voltages stay
    on the real axis. *)
Definition sin_pi : float := 0x1.1a62633145c07p-53.

Definition pos_zero (x : float) : bool := (x =? 0) && (0 <? 1 / x).

Definition axis_libm : libm :=
  {| lm_sin := fun x =>
       if x =? 0 then x
       else if x =? pi then sin_pi
       else if x =? - pi then - sin_pi
       else nan;
     lm_cos := fun x =>
       if x =? 0 then 1
       else if abs x =? pi then -1
       else nan;
     lm_hypot := fun x y =>
       if y =? 0 then abs x
       else if x =? 0 then abs y
       else nan;
     lm_atan2 := fun y x =>
       if y =? 0 then
         if (0 <? x) || pos_zero x then y
         else if (x <? 0) || (x =? 0) then (if pos_zero y then pi else - pi)
         else nan
       else nan |}.

(** Systems of at most one equation, as LAPACK solves them: an exactly zero
    pivot is singular, and the fallback multiplies the pseudo-inverse of the
    zero matrix, which is zero, into the right-hand side. Larger systems are
    outside what this instance evaluates. *)
Definition solve_small (A : matrix float) (b : list float) : option (list float) :=
  match A, b with
  | [], [] => Some []
  | [[a]], [x] => Some [if a =? 0 then 0 + 0 * x else x / a]
  | _, _ => None
  end.

(** [np.sum] of a float64 array, as NumPy's pairwise summation orders it:
    fewer than eight terms are added in sequence; up to 128 terms go into
    eight running sums that are combined as a tree before the remaining
    terms are added; longer arrays are split in two at a multiple of eight.
    The reduction adds the result to its initial value 0. *)
Definition add8 (r l : list float) : list float :=
  map (fun xy => fst xy + snd xy) (combine r l).

Fixpoint blocks (k : nat) (r l : list float) : list float * list float :=
  match k with
  | O => (r, l)
  | S k' => blocks k' (add8 r (firstn 8 l)) (skipn 8 l)
  end.

Definition tree8 (r : list float) : float :=
  let g i := nth i r 0 in
  ((g 0%nat + g 1%nat) + (g 2%nat + g 3%nat))
  + ((g 4%nat + g 5%nat) + (g 6%nat + g 7%nat)).

Definition sum_block (l : list float) : float :=
  let '(r, rest) := blocks (length l / 8 - 1) (firstn 8 l) (skipn 8 l) in
  fold_left PrimFloat.add rest (tree8 r).

Fixpoint pairwise_sum (fuel : nat) (l : list float) : float :=
  let n := length l in
  if (n <? 8)%nat then fold_left PrimFloat.add l (-0)
  else
    match fuel with
    | S f =>
        if (n <=? 128)%nat then sum_block l
        else
          let n2 := (n / 2 - (n / 2) mod 8)%nat in
          pairwise_sum f (firstn n2 l) + pairwise_sum f (skipn n2 l)
    | O => sum_block l
    end.

Definition np_sum (l : list float) : float := 0 + pairwise_sum (length l) l.

(** [np.dot] of two arrays of one length as a BLAS without fused
    multiply-add accumulates it, one product after the other. A fused kernel
    rounds once where this one rounds twice: the two agree when every
    product is exact. *)
Definition plain_dot (a b : list float) : float :=
  fold_left (fun acc xy => acc + fst xy * snd xy) (combine a b) 0.

End F64.

#[local] Instance F64_Numeric (lm : F64.libm) : Numeric :=
  {| real := float;
     cplx := F64.c128;
     rlit := F64.lit;
     radd := PrimFloat.add;
     rsub := PrimFloat.sub;
     rmul := PrimFloat.mul;
     rdiv := PrimFloat.div;
     rneg := PrimFloat.opp;
     rabs := PrimFloat.abs;
     rmax := F64.fmax;
     rsign := F64.fsign;
     rsin := F64.lm_sin lm;
     rcos := F64.lm_cos lm;
     rpi := F64.pi;
     rinf := PrimFloat.infinity;
     rleb := PrimFloat.leb;
     rltb := PrimFloat.ltb;
     reqb := PrimFloat.eqb;
     rsum := F64.np_sum;
     vdot := F64.plain_dot;
     mvdot := fun M v i => F64.plain_dot (nth i M []) v;
     czero := (0%float, 0%float);
     jtimes := fun x => F64.c_mul (0%float, 1%float) (F64.c_of x);
     radd_c := fun x z => F64.c_add (F64.c_of x) z;
     rsub_c := fun x z => F64.c_sub (F64.c_of x) z;
     rmul_c := fun x z => F64.c_mul (F64.c_of x) z;
     cinv1 := fun z => F64.c_div (F64.c_of 1%float) z;
     cdiv_r := fun z x => F64.c_div z (F64.c_of x);
     cadd := F64.c_add;
     csub := F64.c_sub;
     cabs := fun z => F64.lm_hypot lm (fst z) (snd z);
     cangle := fun z => F64.lm_atan2 lm (snd z) (fst z);
     lin_solve := F64.solve_small |}.

(** * Facts *)

(** ** Lists and indices *)

Lemma upd_length {A} (l : list A) i f : length (upd l i f) = length l.
Proof. revert i; induction l; intros [|i]; simpl; auto. Qed.

Lemma nth_error_upd_same {A} (l : list A) i f x :
  nth_error l i = Some x -> nth_error (upd l i f) i = Some (f x).
Proof.
  revert i; induction l; intros [|i]; simpl; try discriminate.
  - intros [= ->]; reflexivity.
  - apply IHl.
Qed.

Lemma nth_error_upd_other {A} (l : list A) i j f :
  i <> j -> nth_error (upd l i f) j = nth_error l j.
Proof.
  revert i j; induction l; intros [|i] [|j] Hij; simpl; auto; congruence.
Qed.

Lemma py_idx_in (n : nat) (k : Z) :
  1 <= k <= Z.of_nat n -> py_idx n (k - 1) = Some (Z.to_nat (k - 1)).
Proof.
  intros Hk. unfold py_idx.
  destruct (Z.leb_spec 0 (k - 1)); [|lia].
  destruct (Z.ltb_spec (k - 1) (Z.of_nat n)); [reflexivity|lia].
Qed.

Section LfybusFacts.
Context `{N : Numeric}.

Definition shape (n : nat) (M : matrix cplx) : Prop :=
  length M = n /\ Forall (fun row => length row = n) M.

(** The entry of bus pair (i, j), 1-based. *)
Definition entry (M : matrix cplx) (i j : Z) : cplx :=
  nth (Z.to_nat (j - 1)) (nth (Z.to_nat (i - 1)) M []) czero.

Lemma shape_zeros2 n : shape n (zeros2 czero n n).
Proof.
  split; unfold zeros2.
  - apply repeat_length.
  - apply Forall_forall. intros x Hx. apply repeat_spec in Hx. subst.
    apply repeat_length.
Qed.

Lemma entry_zeros2 n i j : entry (zeros2 czero n n) i j = czero.
Proof.
  unfold entry, zeros2.
  destruct (nth_in_or_default (Z.to_nat (i - 1)) (repeat (repeat czero n) n) []) as [Hin | ->].
  - apply repeat_spec in Hin. rewrite Hin.
    destruct (nth_in_or_default (Z.to_nat (j - 1)) (repeat czero n) czero) as [Hin' | ->]; auto.
    apply repeat_spec in Hin'. auto.
  - destruct (Z.to_nat (j - 1)); reflexivity.
Qed.

Lemma mget_entry n M i j :
  shape n M -> 1 <= i <= Z.of_nat n -> 1 <= j <= Z.of_nat n ->
  mget n M (i - 1) (j - 1) = Ok (entry M i j).
Proof.
  intros [HL HR] Hi Hj. unfold mget, entry.
  rewrite !py_idx_in by assumption.
  destruct (nth_error M (Z.to_nat (i - 1))) as [row|] eqn:Er.
  - pose proof (nth_error_In _ _ Er) as Hin.
    rewrite Forall_forall in HR. specialize (HR _ Hin).
    rewrite (nth_error_nth _ _ [] Er).
    destruct (nth_error row (Z.to_nat (j - 1))) as [v|] eqn:Ec.
    + rewrite (nth_error_nth _ _ czero Ec). reflexivity.
    + apply nth_error_None in Ec. lia.
  - apply nth_error_None in Er. lia.
Qed.

Lemma mset_entry n M i j v :
  shape n M -> 1 <= i <= Z.of_nat n -> 1 <= j <= Z.of_nat n ->
  exists M', mset n M (i - 1) (j - 1) v = Ok M' /\ shape n M' /\
    forall i' j', 1 <= i' <= Z.of_nat n -> 1 <= j' <= Z.of_nat n ->
      entry M' i' j' = if (i' =? i) && (j' =? j) then v else entry M i' j'.
Proof.
  intros [HL HR] Hi Hj. unfold mset. rewrite !py_idx_in by assumption.
  eexists; split; [reflexivity|]. split.
  - split; [rewrite upd_length; exact HL|].
    apply Forall_forall. intros row Hin.
    apply In_nth_error in Hin. destruct Hin as [k Hk].
    destruct (Nat.eq_dec (Z.to_nat (i - 1)) k) as [<-|Hne].
    + destruct (nth_error M (Z.to_nat (i - 1))) as [row0|] eqn:E0.
      * rewrite (nth_error_upd_same _ _ _ _ E0) in Hk. injection Hk as <-.
        rewrite upd_length. rewrite Forall_forall in HR. apply HR.
        eapply nth_error_In; eauto.
      * apply nth_error_None in E0. lia.
    + rewrite nth_error_upd_other in Hk by assumption.
      rewrite Forall_forall in HR. apply HR. eapply nth_error_In; eauto.
  - intros i' j' Hi' Hj'. unfold entry.
    destruct (Z.eqb_spec i' i) as [->|Hne]; simpl.
    + destruct (nth_error M (Z.to_nat (i - 1))) as [row0|] eqn:E0.
      2:{ apply nth_error_None in E0. lia. }
      rewrite (nth_error_nth _ _ [] (nth_error_upd_same _ _ _ _ E0)).
      rewrite (nth_error_nth _ _ [] E0).
      assert (Hlen : length row0 = n).
      { rewrite Forall_forall in HR. apply HR. eapply nth_error_In; eauto. }
      destruct (Z.eqb_spec j' j) as [->|Hnj].
      * destruct (nth_error row0 (Z.to_nat (j - 1))) as [v0|] eqn:E1.
        2:{ apply nth_error_None in E1. lia. }
        apply nth_error_nth. apply (nth_error_upd_same _ _ (fun _ => v) _ E1).
      * assert (Z.to_nat (j - 1) <> Z.to_nat (j' - 1)) by lia.
        destruct (nth_error row0 (Z.to_nat (j' - 1))) as [v0|] eqn:E1.
        2:{ apply nth_error_None in E1. lia. }
        rewrite (nth_error_nth _ _ czero E1).
        apply nth_error_nth. rewrite nth_error_upd_other; assumption.
    + assert (Z.to_nat (i - 1) <> Z.to_nat (i' - 1)) by lia.
      destruct (nth_error M (Z.to_nat (i' - 1))) as [row0|] eqn:E0.
      2:{ apply nth_error_None in E0. lia. }
      rewrite (nth_error_nth _ _ [] E0).
      assert (E0' : nth_error (upd M (Z.to_nat (i - 1)) (fun row => upd row (Z.to_nat (j - 1)) (fun _ => v))) (Z.to_nat (i' - 1)) = Some row0).
      { rewrite nth_error_upd_other; assumption. }
      rewrite (nth_error_nth _ _ [] E0'). reflexivity.
Qed.


Definition wf_branch (n : nat) (b : branch) : Prop :=
  1 <= br_nl b <= Z.of_nat n /\ 1 <= br_nr b <= Z.of_nat n.

Definition connects (b : branch) (i j : Z) : bool :=
  ((br_nl b =? i) && (br_nr b =? j)) || ((br_nl b =? j) && (br_nr b =? i)).

Definition off_acc (i j : Z) (acc : cplx) (b : branch) : cplx :=
  if connects b i j then csub acc (cdiv_r (y b) (tap b)) else acc.

Definition diag_acc (i : Z) (acc : cplx) (b : branch) : cplx :=
  if br_nl b =? i then cadd acc (cadd (cdiv_r (y b) (rsq (tap b))) (Bc b))
  else if br_nr b =? i then cadd acc (cadd (y b) (Bc b))
  else acc.

Definition sym (n : nat) (M : matrix cplx) : Prop :=
  forall i j, 1 <= i <= Z.of_nat n -> 1 <= j <= Z.of_nat n ->
    entry M i j = entry M j i.

Lemma connects_comm b i j : connects b i j = connects b j i.
Proof. unfold connects. apply orb_comm. Qed.

Lemma offdiag_step_entry n M b :
  shape n M -> sym n M -> wf_branch n b ->
  exists M', offdiag_step n M b = Ok M' /\ shape n M' /\
    forall i j, 1 <= i <= Z.of_nat n -> 1 <= j <= Z.of_nat n ->
      entry M' i j = off_acc i j (entry M i j) b.
Proof.
  intros HS Hsym [Hl Hr]. unfold offdiag_step.
  rewrite (mget_entry n M _ _ HS Hl Hr). cbn [bind].
  destruct (mset_entry n M _ _ (csub (entry M (br_nl b) (br_nr b)) (cdiv_r (y b) (tap b))) HS Hl Hr)
    as (M1 & E1 & HS1 & HE1).
  rewrite E1. cbn [bind].
  rewrite (mget_entry n M1 _ _ HS1 Hl Hr). cbn [bind].
  destruct (mset_entry n M1 _ _ (entry M1 (br_nl b) (br_nr b)) HS1 Hr Hl)
    as (M2 & E2 & HS2 & HE2).
  exists M2. split; [exact E2|]. split; [exact HS2|].
  intros i j Hi Hj.
  rewrite (HE2 i j Hi Hj), (HE1 (br_nl b) (br_nr b) Hl Hr), (HE1 i j Hi Hj).
  unfold off_acc, connects. rewrite !Z.eqb_refl. cbn [andb].
  rewrite (Z.eqb_sym (br_nl b) i), (Z.eqb_sym (br_nr b) j),
    (Z.eqb_sym (br_nl b) j), (Z.eqb_sym (br_nr b) i).
  destruct (Z.eqb_spec i (br_nl b)), (Z.eqb_spec j (br_nr b)),
    (Z.eqb_spec i (br_nr b)), (Z.eqb_spec j (br_nl b));
    cbn [andb orb]; try reflexivity; try congruence; subst;
    try (rewrite (Hsym (br_nl b) (br_nr b)) by assumption; reflexivity);
    try (rewrite (Hsym (br_nr b) (br_nl b)) by assumption; reflexivity).
Qed.

Lemma off_acc_sym n M b :
  sym n M -> forall i j, 1 <= i <= Z.of_nat n -> 1 <= j <= Z.of_nat n ->
  off_acc i j (entry M i j) b = off_acc j i (entry M j i) b.
Proof.
  intros Hsym i j Hi Hj. unfold off_acc.
  rewrite (connects_comm b i j), (Hsym i j Hi Hj). reflexivity.
Qed.

Lemma offdiag_loop_entry n lines : forall M,
  shape n M -> sym n M -> Forall (wf_branch n) lines ->
  exists M', for_each lines (offdiag_step n) M = Ok M' /\ shape n M' /\ sym n M' /\
    forall i j, 1 <= i <= Z.of_nat n -> 1 <= j <= Z.of_nat n ->
      entry M' i j = fold_left (off_acc i j) lines (entry M i j).
Proof.
  induction lines as [|b t IH]; intros M HS Hsym Hwf.
  - exists M. cbn. auto.
  - inversion Hwf as [|? ? Hb Ht]; subst.
    destruct (offdiag_step_entry n M b HS Hsym Hb) as (M1 & E1 & HS1 & HE1).
    assert (Hsym1 : sym n M1).
    { intros i j Hi Hj. rewrite (HE1 i j Hi Hj), (HE1 j i Hj Hi).
      eapply off_acc_sym; eauto. }
    destruct (IH M1 HS1 Hsym1 Ht) as (M2 & E2 & HS2 & Hsym2 & HE2).
    exists M2. cbn [for_each]. rewrite E1. cbn [bind].
    split; [exact E2|]. split; [exact HS2|]. split; [exact Hsym2|].
    intros i j Hi Hj. rewrite (HE2 i j Hi Hj), (HE1 i j Hi Hj). reflexivity.
Qed.

Lemma diag_step_entry n k M b :
  shape n M -> 1 <= k <= Z.of_nat n ->
  exists M', diag_step n k M b = Ok M' /\ shape n M' /\
    forall i j, 1 <= i <= Z.of_nat n -> 1 <= j <= Z.of_nat n ->
      entry M' i j =
        if (i =? k) && (j =? k) then diag_acc k (entry M k k) b else entry M i j.
Proof.
  intros HS Hk. unfold diag_step, diag_acc.
  destruct (br_nl b =? k).
  - rewrite (mget_entry n M _ _ HS Hk Hk). cbn [bind].
    destruct (mset_entry n M k k (cadd (entry M k k) (cadd (cdiv_r (y b) (rsq (tap b))) (Bc b))) HS Hk Hk)
      as (M1 & E1 & HS1 & HE1).
    exists M1. auto.
  - destruct (br_nr b =? k).
    + rewrite (mget_entry n M _ _ HS Hk Hk). cbn [bind].
      destruct (mset_entry n M k k (cadd (entry M k k) (cadd (y b) (Bc b))) HS Hk Hk)
        as (M1 & E1 & HS1 & HE1).
      exists M1. auto.
    + exists M. split; [reflexivity|]. split; [exact HS|].
      intros i j _ _.
      destruct (Z.eqb_spec i k) as [->|]; destruct (Z.eqb_spec j k) as [->|]; reflexivity.
Qed.

Lemma diag_inner_entry n k lines : forall M,
  shape n M -> 1 <= k <= Z.of_nat n ->
  exists M', for_each lines (diag_step n k) M = Ok M' /\ shape n M' /\
    forall i j, 1 <= i <= Z.of_nat n -> 1 <= j <= Z.of_nat n ->
      entry M' i j =
        if (i =? k) && (j =? k) then fold_left (diag_acc k) lines (entry M k k)
        else entry M i j.
Proof.
  induction lines as [|b t IH]; intros M HS Hk.
  - exists M. cbn [for_each fold_left]. split; [reflexivity|]. split; [exact HS|].
    intros i j _ _.
    destruct (Z.eqb_spec i k) as [->|]; destruct (Z.eqb_spec j k) as [->|]; reflexivity.
  - destruct (diag_step_entry n k M b HS Hk) as (M1 & E1 & HS1 & HE1).
    destruct (IH M1 HS1 Hk) as (M2 & E2 & HS2 & HE2).
    exists M2. cbn [for_each]. rewrite E1. cbn [bind].
    split; [exact E2|]. split; [exact HS2|].
    intros i j Hi Hj. rewrite (HE2 i j Hi Hj). rewrite (HE1 k k Hk Hk).
    rewrite !Z.eqb_refl. cbn [andb fold_left].
    destruct ((i =? k) && (j =? k)) eqn:E; [reflexivity|].
    rewrite (HE1 i j Hi Hj), E. reflexivity.
Qed.

Lemma diag_outer_entry n lines cnt : forall lo M,
  shape n M -> 1 <= lo -> lo + Z.of_nat cnt - 1 <= Z.of_nat n ->
  exists M',
    for_each (zrange lo cnt) (fun Y k => for_each lines (diag_step n k) Y) M = Ok M' /\
    shape n M' /\
    forall i j, 1 <= i <= Z.of_nat n -> 1 <= j <= Z.of_nat n ->
      entry M' i j =
        if (i =? j) && (lo <=? i) && (i <? lo + Z.of_nat cnt)
        then fold_left (diag_acc i) lines (entry M i i)
        else entry M i j.
Proof.
  induction cnt as [|cnt IH]; intros lo M HS Hlo Hhi.
  - exists M. cbn [zrange for_each]. split; [reflexivity|]. split; [exact HS|].
    intros i j _ _.
    replace (i <? lo + Z.of_nat 0) with (negb (lo <=? i)).
    2:{ destruct (Z.leb_spec lo i), (Z.ltb_spec i (lo + Z.of_nat 0)); try reflexivity; lia. }
    destruct (i =? j), (lo <=? i); reflexivity.
  - assert (Hk : 1 <= lo <= Z.of_nat n) by lia.
    destruct (diag_inner_entry n lo lines M HS Hk) as (M1 & E1 & HS1 & HE1).
    destruct (IH (lo + 1) M1 HS1 ltac:(lia) ltac:(lia)) as (M2 & E2 & HS2 & HE2).
    exists M2. cbn [zrange for_each]. rewrite E1. cbn [bind].
    split; [exact E2|]. split; [exact HS2|].
    intros i j Hi Hj. rewrite (HE2 i j Hi Hj).
    rewrite (HE1 i i Hi Hi), (HE1 i j Hi Hj).
    destruct (Z.eqb_spec i j) as [<-|Hij]; cbn [andb].
    + destruct (Z.eqb_spec i lo) as [->|Hne]; cbn [andb].
      * destruct (Z.leb_spec (lo + 1) lo); [lia|]. cbn [andb].
        destruct (Z.leb_spec lo lo); [|lia].
        destruct (Z.ltb_spec lo (lo + Z.of_nat (S cnt))); [|lia]. reflexivity.
      * destruct (Z.leb_spec (lo + 1) i), (Z.leb_spec lo i); try lia; cbn [andb]; try reflexivity.
        destruct (Z.ltb_spec i (lo + 1 + Z.of_nat cnt)), (Z.ltb_spec i (lo + Z.of_nat (S cnt)));
          try lia; reflexivity.
    + destruct (Z.eqb_spec i lo) as [->|]; cbn [andb]; [|reflexivity].
      destruct (Z.eqb_spec j lo) as [->|]; [contradiction|reflexivity].
Qed.


Definition endpoints (lines : list branch) : list Z :=
  flat_map (fun b => [br_nl b; br_nr b]) lines.

Lemma fold_max_spec (t : list branch) : forall m0,
  let m := fold_left (fun m b' => Z.max m (Z.max (br_nl b') (br_nr b'))) t m0 in
  m0 <= m /\ Forall (fun e => e <= m) (endpoints t) /\ (m = m0 \/ In m (endpoints t)).
Proof.
  induction t as [|b t IH]; intros m0; cbn [fold_left endpoints flat_map].
  - split; [lia|]. split; [constructor|]. left; reflexivity.
  - specialize (IH (Z.max m0 (Z.max (br_nl b) (br_nr b)))).
    cbv zeta in IH. destruct IH as (H1 & H2 & H3).
    split; [lia|]. split.
    + cbn [app]. repeat constructor; try lia. exact H2.
    + destruct H3 as [H3|H3].
      * rewrite H3. cbn [app In]. lia.
      * right. cbn [app In]. auto.
Qed.

Lemma max_bus_spec (lines : list branch) :
  lines <> [] ->
  exists nb, max_bus lines = Ok nb /\ In nb (endpoints lines) /\
    Forall (fun e => e <= nb) (endpoints lines).
Proof.
  destruct lines as [|b t]; [congruence|]. intros _.
  eexists. split; [reflexivity|].
  destruct (fold_max_spec t (Z.max (br_nl b) (br_nr b))) as (H1 & H2 & H3).
  cbv zeta in *. cbn [endpoints flat_map app]. split.
  - destruct H3 as [H3|H3].
    + rewrite H3. cbn [In]. lia.
    + cbn [In]. auto.
  - repeat constructor; try lia. exact H2.
Qed.

Definition numbered_from_one (lines : list branch) : Prop :=
  Forall (fun b => 1 <= br_nl b /\ 1 <= br_nr b) lines.

Lemma wf_of_numbered lines nb :
  numbered_from_one lines ->
  Forall (fun e => e <= nb) (endpoints lines) ->
  0 <= nb ->
  Forall (wf_branch (Z.to_nat nb)) lines.
Proof.
  induction lines as [|b t IH]; intros Hn He Hnb; [constructor|].
  inversion Hn as [|? ? [Hl Hr] Ht]; subst.
  cbn [endpoints flat_map app] in He.
  inversion He as [|? ? H1 He1]; subst. inversion He1 as [|? ? H2 He2]; subst.
  constructor.
  - unfold wf_branch. rewrite Z2Nat.id by assumption. lia.
  - apply IH; assumption.
Qed.

Lemma sym_zeros2 n : sym n (zeros2 czero n n).
Proof. intros i j _ _. rewrite !entry_zeros2. reflexivity. Qed.

(** What [lfybus] builds, entry by entry (self-loops included). *)
Lemma lfybus_entries (lines : list branch) :
  lines <> [] -> numbered_from_one lines ->
  exists out, lfybus lines = Ok out /\
    1 <= nbus out /\
    In (nbus out) (endpoints lines) /\
    Forall (fun e => e <= nbus out) (endpoints lines) /\
    shape (Z.to_nat (nbus out)) (Ybus out) /\
    forall i j, 1 <= i <= nbus out -> 1 <= j <= nbus out ->
      entry (Ybus out) i j =
        if i =? j
        then fold_left (diag_acc i) lines (fold_left (off_acc i i) lines czero)
        else fold_left (off_acc i j) lines czero.
Proof.
  intros Hne Hnum.
  destruct (max_bus_spec lines Hne) as (nb & Emax & Hin & Hle).
  assert (Hnb : 1 <= nb).
  { unfold numbered_from_one in Hnum. rewrite Forall_forall in Hnum.
    unfold endpoints in Hin. apply in_flat_map in Hin.
    destruct Hin as (b & Hb & Hin). specialize (Hnum b Hb).
    cbn [In] in Hin. lia. }
  pose proof (wf_of_numbered lines nb Hnum Hle ltac:(lia)) as Hwf.
  unfold lfybus. rewrite Emax. cbn [bind].
  destruct (Z.ltb_spec nb 0); [lia|].
  set (n := Z.to_nat nb) in *.
  assert (Hn : Z.of_nat n = nb) by (subst n; apply Z2Nat.id; lia).
  destruct (offdiag_loop_entry n lines (zeros2 czero n n)
              (shape_zeros2 n) (sym_zeros2 n) Hwf) as (Y0 & E0 & HS0 & Hsym0 & HE0).
  rewrite E0. cbn [bind].
  destruct (diag_outer_entry n lines n 1 Y0 HS0 ltac:(lia) ltac:(lia))
    as (Y1 & E1 & HS1 & HE1).
  rewrite E1. cbn [bind].
  eexists. split; [reflexivity|]. cbn [nbus Ybus].
  split; [exact Hnb|]. split; [exact Hin|]. split; [exact Hle|].
  split; [exact HS1|].
  intros i j Hi Hj. rewrite <- Hn in Hi, Hj.
  rewrite (HE1 i j Hi Hj), (HE0 i j Hi Hj), (HE0 i i Hi Hi), !entry_zeros2.
  destruct (Z.leb_spec 1 i); [|lia].
  destruct (Z.ltb_spec i (1 + Z.of_nat n)); [|lia].
  rewrite !andb_true_r. reflexivity.
Qed.

End LfybusFacts.

(** ** The admittance matrix *)

Section LfybusClaims.
Context `{N : Numeric}.

Lemma off_acc_comm (i j : Z) (lines : list branch) : forall acc,
  fold_left (off_acc i j) lines acc = fold_left (off_acc j i) lines acc.
Proof.
  induction lines as [|b t IH]; intros acc; cbn [fold_left]; [reflexivity|].
  unfold off_acc at 2 4. rewrite (connects_comm b i j). apply IH.
Qed.

Lemma off_acc_no_loop (i : Z) (lines : list branch) :
  Forall (fun b => br_nl b <> br_nr b) lines ->
  forall acc, fold_left (off_acc i i) lines acc = acc.
Proof.
  induction 1 as [|b t Hb _ IH]; intros acc; cbn [fold_left]; [reflexivity|].
  rewrite IH. unfold off_acc, connects.
  destruct (Z.eqb_spec (br_nl b) i), (Z.eqb_spec (br_nr b) i);
    cbn [andb orb]; try reflexivity; congruence.
Qed.

Lemma mget_out_of_range (n : nat) (M : matrix cplx) (k j : Z) :
  Z.of_nat n < k ->
  mget n M (k - 1) j = Raise IndexError /\ mget n M j (k - 1) = Raise IndexError.
Proof.
  intros Hk. assert (E : py_idx n (k - 1) = None).
  { unfold py_idx. destruct (Z.leb_spec 0 (k - 1)); [|lia].
    destruct (Z.ltb_spec (k - 1) (Z.of_nat n)); [lia|reflexivity]. }
  unfold mget. rewrite E. split; [reflexivity|].
  destruct (py_idx n j); reflexivity.
Qed.

End LfybusClaims.

(** C1. For a branch table without self-loops, whose bus numbers start at 1,
    [lfybus] succeeds; [nbus] is the largest bus number among the endpoints
    of the branches, [Ybus] has [nbus] rows of [nbus] entries, and every one
    of these entries is the sum, taken in table order from zero, of the
    contributions of the branches: each branch between [i] and [j] subtracts
    [y/a] from the off-diagonal entries [(i, j)] and [(j, i)], adds
    [y/a**2 + Bc] (the stored [Bc], not halved) to the diagonal entry of its
    from bus and [y + Bc] to that of its to bus. *)
Theorem lfybus_assembly `{N : Numeric} (lines : list branch) :
  lines <> [] ->
  numbered_from_one lines ->
  Forall (fun b => br_nl b <> br_nr b) lines ->
  exists out, lfybus lines = Ok out /\
    In (nbus out) (endpoints lines) /\
    Forall (fun e => e <= nbus out) (endpoints lines) /\
    length (Ybus out) = Z.to_nat (nbus out) /\
    Forall (fun row => length row = Z.to_nat (nbus out)) (Ybus out) /\
    forall i j, 1 <= i <= nbus out -> 1 <= j <= nbus out ->
      mget (Z.to_nat (nbus out)) (Ybus out) (i - 1) (j - 1) =
        Ok (if i =? j then fold_left (diag_acc i) lines czero
            else fold_left (off_acc i j) lines czero).
Proof.
  intros Hne Hnum Hloop.
  destruct (lfybus_entries lines Hne Hnum)
    as (out & E & Hnb & Hin & Hle & HS & HE).
  exists out. split; [exact E|].
  split; [exact Hin|]. split; [exact Hle|].
  split; [exact (proj1 HS)|]. split; [exact (proj2 HS)|].
  intros i j Hi Hj.
  rewrite mget_entry by (try exact HS; rewrite Z2Nat.id; lia).
  rewrite (HE i j Hi Hj), (off_acc_no_loop i lines Hloop). reflexivity.
Qed.

(** C2. For a branch table whose bus numbers start at 1 (any taps, parallel
    branches and self-loops included), [lfybus] succeeds and
    [Ybus[i, j] = Ybus[j, i]] for all bus numbers [i], [j]. *)
Theorem lfybus_symmetric `{N : Numeric} (lines : list branch) :
  lines <> [] ->
  numbered_from_one lines ->
  exists out, lfybus lines = Ok out /\
    forall i j, 1 <= i <= nbus out -> 1 <= j <= nbus out ->
      exists v,
        mget (Z.to_nat (nbus out)) (Ybus out) (i - 1) (j - 1) = Ok v /\
        mget (Z.to_nat (nbus out)) (Ybus out) (j - 1) (i - 1) = Ok v.
Proof.
  intros Hne Hnum.
  destruct (lfybus_entries lines Hne Hnum)
    as (out & E & Hnb & _ & _ & HS & HE).
  exists out. split; [exact E|].
  intros i j Hi Hj. exists (entry (Ybus out) i j).
  rewrite !mget_entry by (try exact HS; rewrite Z2Nat.id; lia).
  split; [reflexivity|]. f_equal.
  rewrite (HE i j Hi Hj), (HE j i Hj Hi), (Z.eqb_sym j i).
  destruct (Z.eqb_spec i j) as [->|_]; [reflexivity|].
  symmetry. apply off_acc_comm.
Qed.

(** C10, as amended. [lfybus] takes the bus count from the branch table
    alone: [nbus] is the largest bus number that is an endpoint of a branch,
    [Ybus] has exactly [nbus] rows of [nbus] entries, and a bus whose number
    is larger than every branch endpoint has no row or column (reading one
    raises [IndexError]). *)
Theorem lfybus_dimension `{N : Numeric} (lines : list branch) :
  lines <> [] ->
  numbered_from_one lines ->
  exists out, lfybus lines = Ok out /\
    In (nbus out) (endpoints lines) /\
    Forall (fun e => e <= nbus out) (endpoints lines) /\
    length (Ybus out) = Z.to_nat (nbus out) /\
    Forall (fun row => length row = Z.to_nat (nbus out)) (Ybus out) /\
    forall k j, nbus out < k ->
      mget (Z.to_nat (nbus out)) (Ybus out) (k - 1) j = Raise IndexError /\
      mget (Z.to_nat (nbus out)) (Ybus out) j (k - 1) = Raise IndexError.
Proof.
  intros Hne Hnum.
  destruct (lfybus_entries lines Hne Hnum)
    as (out & E & Hnb & Hin & Hle & [HL HR] & _).
  exists out. repeat split; try assumption.
  all: apply mget_out_of_range; rewrite Z2Nat.id; lia.
Qed.

(** ** Concrete networks *)

Module Cases.

Definition NF : Numeric := F64_Numeric F64.axis_libm.
#[local] Existing Instance NF.

(** Three buses: a tapped branch 1-2, a second branch between the same
    buses entered from the other end, and a line 2-3. *)
Definition lines3 : list branch :=
  [ {| br_nl := 1; br_nr := 2; br_R := rlit 2 100; br_X := rlit 4 100;
       br_Bc := rlit 1 100; br_a := rlit 95 100 |};
    {| br_nl := 2; br_nr := 1; br_R := rlit 1 100; br_X := rlit 3 100;
       br_Bc := rlit 0 1; br_a := rlit 0 1 |};
    {| br_nl := 2; br_nr := 3; br_R := rlit 125 10000; br_X := rlit 25 1000;
       br_Bc := rlit 2 100; br_a := rlit 1 1 |} ].

(** A single line between buses 1 and 3; bus 2 touches no branch. *)
Definition lines13 : list branch :=
  [ {| br_nl := 1; br_nr := 3; br_R := rlit 2 100; br_X := rlit 4 100;
       br_Bc := rlit 0 1; br_a := rlit 1 1 |} ].

End Cases.

Lemma lfybus_assembly_witness :
  exists out, lfybus Cases.lines3 = Ok out /\
    In (nbus out) (endpoints Cases.lines3) /\
    Forall (fun e => e <= nbus out) (endpoints Cases.lines3) /\
    length (Ybus out) = Z.to_nat (nbus out) /\
    Forall (fun row => length row = Z.to_nat (nbus out)) (Ybus out) /\
    forall i j, 1 <= i <= nbus out -> 1 <= j <= nbus out ->
      mget (Z.to_nat (nbus out)) (Ybus out) (i - 1) (j - 1) =
        Ok (if i =? j then fold_left (diag_acc i) Cases.lines3 czero
            else fold_left (off_acc i j) Cases.lines3 czero).
Proof.
  apply (@lfybus_assembly Cases.NF Cases.lines3).
  - discriminate.
  - repeat constructor; cbn; lia.
  - repeat constructor; cbn; lia.
Defined.

Lemma lfybus_symmetric_witness :
  exists out, lfybus Cases.lines3 = Ok out /\
    forall i j, 1 <= i <= nbus out -> 1 <= j <= nbus out ->
      exists v,
        mget (Z.to_nat (nbus out)) (Ybus out) (i - 1) (j - 1) = Ok v /\
        mget (Z.to_nat (nbus out)) (Ybus out) (j - 1) (i - 1) = Ok v.
Proof.
  apply (@lfybus_symmetric Cases.NF Cases.lines3).
  - discriminate.
  - repeat constructor; cbn; lia.
Defined.

Lemma lfybus_dimension_witness :
  exists out, lfybus Cases.lines13 = Ok out /\
    In (nbus out) (endpoints Cases.lines13) /\
    Forall (fun e => e <= nbus out) (endpoints Cases.lines13) /\
    length (Ybus out) = Z.to_nat (nbus out) /\
    Forall (fun row => length row = Z.to_nat (nbus out)) (Ybus out) /\
    forall k j, nbus out < k ->
      mget (Z.to_nat (nbus out)) (Ybus out) (k - 1) j = Raise IndexError /\
      mget (Z.to_nat (nbus out)) (Ybus out) j (k - 1) = Raise IndexError.
Proof.
  apply (@lfybus_dimension Cases.NF Cases.lines13).
  - discriminate.
  - repeat constructor; cbn; lia.
Defined.

(** C10, the claim as stated fails: with the single line 1-3, bus 2 is
    incident to no branch, yet [Ybus] is 3 x 3 and bus 2 has a row and a
    column, whose diagonal entry reads as zero. *)
Lemma isolated_bus_keeps_row :
  (yb <- lfybus Cases.lines13 ;;
   v <- mget (Z.to_nat (nbus yb)) (Ybus yb) 1 1 ;;
   Ok (nbus yb, length (Ybus yb), map (@length _) (Ybus yb), v))
  = Ok (3, 3%nat, [3%nat; 3%nat; 3%nat], @czero Cases.NF).
Proof. vm_compute. reflexivity. Qed.

(** ** Reads and writes of one-dimensional arrays *)

Lemma bind_Ok {A B : Type} (c : result A) (k : A -> result B) (b : B) :
  bind c k = Ok b -> exists a, c = Ok a /\ k a = Ok b.
Proof. destruct c as [a|e]; cbn; [eauto|discriminate]. Qed.

(** Splits the hypothesis [x <- c ;; k = Ok b] into its two steps. *)
Ltac bind_inv H :=
  let a := fresh "a" in
  let Ha := fresh "Ha" in
  apply bind_Ok in H; destruct H as (a & Ha & H).

Lemma py_idx_nonneg (n : nat) (k : Z) (p : nat) :
  0 <= k -> py_idx n k = Some p -> p = Z.to_nat k /\ (p < n)%nat.
Proof.
  intros Hk. unfold py_idx.
  destruct (Z.leb_spec 0 k); [|lia].
  destruct (Z.ltb_spec k (Z.of_nat n)); [|discriminate].
  intros [= <-]. lia.
Qed.

Lemma aget_nonneg {A : Type} (l : list A) (k : Z) (x : A) :
  0 <= k -> aget l k = Ok x -> nth_error l (Z.to_nat k) = Some x.
Proof.
  intros Hk. unfold aget.
  destruct (py_idx (length l) k) as [p|] eqn:E; [|discriminate].
  destruct (py_idx_nonneg _ _ _ Hk E) as [-> _].
  destruct (nth_error l (Z.to_nat k)); cbn; congruence.
Qed.

Lemma aset_nonneg {A : Type} (l l' : list A) (k : Z) (v : A) :
  0 <= k -> aset l k v = Ok l' ->
  length l' = length l /\
  nth_error l' (Z.to_nat k) = Some v /\
  forall p, p <> Z.to_nat k -> nth_error l' p = nth_error l p.
Proof.
  intros Hk. unfold aset.
  destruct (py_idx (length l) k) as [p|] eqn:E; [|discriminate].
  destruct (py_idx_nonneg _ _ _ Hk E) as [-> Hlt].
  intros [= <-]. split; [apply upd_length|]. split.
  - destruct (nth_error l (Z.to_nat k)) as [x|] eqn:Ex.
    + apply (nth_error_upd_same _ _ (fun _ => v) _ Ex).
    + apply nth_error_None in Ex. lia.
  - intros p Hp. apply nth_error_upd_other. congruence.
Qed.

Lemma aset_length {A : Type} (l l' : list A) (k : Z) (v : A) :
  aset l k v = Ok l' -> length l' = length l.
Proof.
  unfold aset. destruct (py_idx (length l) k); [|discriminate].
  intros [= <-]. apply upd_length.
Qed.

Lemma zrange_nonneg (cnt : nat) : forall lo k,
  0 <= lo -> In k (zrange lo cnt) -> lo <= k < lo + Z.of_nat cnt.
Proof.
  induction cnt as [|cnt IH]; intros lo k Hlo; cbn [zrange In]; [tauto|].
  intros [<-|Hin]; [lia|]. apply IH in Hin; lia.
Qed.

(** ** Economic dispatch *)

Section DispatchFacts.
Context `{N : Numeric}.

(** Generator [p] of a schedule is within its limits, as far as the two
    comparisons of the limit check can tell. *)
Definition within_limits (e : denv) (Pgg : list real) (wgt : list bool)
  (p : nat) : Prop :=
  forall x pmin pmax,
    nth_error wgt p = Some true ->
    nth_error Pgg p = Some x ->
    nth_error (de_Pmin e) p = Some pmin ->
    nth_error (de_Pmax e) p = Some pmax ->
    rgtb x pmax = false /\ rltb x pmin = false.

Lemma clamp_step_spec (e : denv) (D : real) (Pgg Pgg' : list real)
  (wgt wgt' : list bool) (k : Z) :
  0 <= k ->
  clamp_step e D (Pgg, wgt) k = Ok (Pgg', wgt') ->
  (forall p, p <> Z.to_nat k ->
     nth_error Pgg' p = nth_error Pgg p /\ nth_error wgt' p = nth_error wgt p) /\
  (rleb (rabs D) (rlit 1 1000) = true -> within_limits e Pgg' wgt' (Z.to_nat k)).
Proof.
  intros Hk H. unfold clamp_step in H.
  bind_inv H. bind_inv H.
  pose proof (aget_nonneg _ _ _ Hk Ha) as Hx.
  pose proof (aget_nonneg _ _ _ Hk Ha0) as Hmax.
  destruct (rgtb a a0 && rleb (rabs D) (rlit 1 1000)) eqn:E1.
  - bind_inv H. bind_inv H. injection H as <- <-.
    destruct (aset_nonneg _ _ _ _ Hk Ha1) as (_ & _ & HP).
    destruct (aset_nonneg _ _ _ _ Hk Ha2) as (_ & Hw & HW).
    split; [intros p Hp; split; auto|].
    intros _ x pmin pmax Hact. rewrite Hw in Hact. discriminate.
  - bind_inv H.
    pose proof (aget_nonneg _ _ _ Hk Ha1) as Hmin.
    destruct (rltb a a1 && rleb (rabs D) (rlit 1 1000)) eqn:E2.
    + bind_inv H. bind_inv H. injection H as <- <-.
      destruct (aset_nonneg _ _ _ _ Hk Ha2) as (_ & _ & HP).
      destruct (aset_nonneg _ _ _ _ Hk Ha3) as (_ & Hw & HW).
      split; [intros p Hp; split; auto|].
      intros _ x pmin pmax Hact. rewrite Hw in Hact. discriminate.
    + injection H as <- <-. split; [auto|].
      intros HD x pmin pmax _ Hx' Hmin' Hmax'.
      rewrite HD, andb_true_r in E1, E2.
      rewrite Hx in Hx'. rewrite Hmin in Hmin'. rewrite Hmax in Hmax'.
      split; congruence.
Qed.

Lemma clamp_loop_spec (e : denv) (D : real) (cnt : nat) :
  forall lo Pgg wgt Pgg' wgt',
  0 <= lo ->
  for_each (zrange lo cnt) (clamp_step e D) (Pgg, wgt) = Ok (Pgg', wgt') ->
  (forall p, (p < Z.to_nat lo)%nat ->
     nth_error Pgg' p = nth_error Pgg p /\ nth_error wgt' p = nth_error wgt p) /\
  (rleb (rabs D) (rlit 1 1000) = true ->
   forall p, (Z.to_nat lo <= p < Z.to_nat lo + cnt)%nat ->
     within_limits e Pgg' wgt' p).
Proof.
  induction cnt as [|cnt IH]; intros lo Pgg wgt Pgg' wgt' Hlo H.
  - cbn in H. injection H as <- <-. split; [auto|]. intros _ p Hp. lia.
  - cbn [zrange for_each] in H. bind_inv H. destruct a as [Pgg1 wgt1].
    destruct (clamp_step_spec e D _ _ _ _ lo Hlo Ha) as [Hfr1 Hin1].
    destruct (IH (lo + 1) Pgg1 wgt1 Pgg' wgt' ltac:(lia) H) as [Hfr2 Hin2].
    split.
    + intros p Hp.
      destruct (Hfr2 p ltac:(lia)) as [-> ->]. apply Hfr1. lia.
    + intros HD p Hp.
      destruct (Nat.eq_dec p (Z.to_nat lo)) as [->|Hne].
      * intros x pmin pmax Hw Hx. 
        destruct (Hfr2 (Z.to_nat lo) ltac:(lia)) as [EP EW].
        rewrite EW in Hw. rewrite EP in Hx.
        exact (Hin1 HD x pmin pmax Hw Hx).
      * apply (Hin2 HD). lia.
Qed.

Lemma dispatch_pass_within (e : denv) (s s' : dloop) :
  dispatch_pass e s = Ok s' ->
  d_iterp s' = d_iterp s + 1 /\
  (rleb (rabs (d_clamp_DelP s')) (rlit 1 1000) = true ->
   forall p, (p < de_ngg e)%nat -> within_limits e (d_Pgg s') (d_wgt s') p).
Proof.
  intros H. unfold dispatch_pass in H.
  bind_inv H. bind_inv H. bind_inv H. bind_inv H. bind_inv H.
  destruct a3 as [Pgg2 wgt2].
  bind_inv H. bind_inv H. bind_inv H. injection H as <-. cbn.
  split; [reflexivity|].
  intros HD p Hp.
  destruct (clamp_loop_spec e _ _ 0 _ _ _ _ ltac:(lia) Ha3) as [_ Hin].
  apply (Hin HD). cbn. lia.
Qed.

(** The state the loop ends in is the one it started from or the outcome
    of a pass. *)
Lemma dispatch_loop_last (e : denv) (k : nat) : forall s fin,
  dispatch_loop e k s = Ok fin ->
  fin = s \/ exists s0, dispatch_pass e s0 = Ok fin.
Proof.
  induction k as [|k IH]; intros s fin H; cbn [dispatch_loop] in H.
  - destruct (_ && _) in H; injection H as <-; auto.
  - destruct (_ && _) in H; [|injection H as <-; auto].
    bind_inv H. destruct (IH _ _ H) as [->|Hex]; eauto.
Qed.

End DispatchFacts.

(** X1. When the demand is above [np.sum(Pmax)] or below [np.sum(Pmin)],
    the sums as NumPy's summation returns them, [dispatch] returns the
    diagnostic without entering the lambda iteration and leaves [lambda_], [Pgg], [busdata] and [Pg] as they
    were; [B], [B0] and [B00] keep their values when they were set, and are
    otherwise initialised (to zeros of the size of the cost table) before the
    gate is reached. *)
Theorem dispatch_infeasible `{N : Numeric} (s : psys) (args : dispatch_args)
  (cost : list cost_row) :
  arg_cost args = Some cost ->
  rgtb (demand_of s args) (rsum (map snd (limits_of args (length cost)))) = true \/
  rltb (demand_of s args) (rsum (map fst (limits_of args (length cost)))) = true ->
  exists s' r,
    dispatch s args = Ok (s', r) /\
    (r = DemandAboveMax \/ r = DemandBelowMin) /\
    s' = fill_defaults s (length cost) /\
    ps_lambda s' = ps_lambda s /\ ps_Pgg s' = ps_Pgg s /\
    ps_busdata s' = ps_busdata s /\ ps_Pg s' = ps_Pg s /\
    (forall B, ps_B s = Some B -> ps_B s' = Some B) /\
    (forall b, ps_B0 s = Some b -> ps_B0 s' = Some b) /\
    (forall b, ps_B00 s = Some b -> ps_B00 s' = Some b).
Proof.
  intros Hc Hgate. unfold dispatch. rewrite Hc. cbn [denv_of de_Pdt de_Pmax de_Pmin].
  assert (Hfr : forall s0 : psys, s0 = fill_defaults s (length cost) ->
            ps_lambda s0 = ps_lambda s /\ ps_Pgg s0 = ps_Pgg s /\
            ps_busdata s0 = ps_busdata s /\ ps_Pg s0 = ps_Pg s /\
            (forall B, ps_B s = Some B -> ps_B s0 = Some B) /\
            (forall b, ps_B0 s = Some b -> ps_B0 s0 = Some b) /\
            (forall b, ps_B00 s = Some b -> ps_B00 s0 = Some b)).
  { intros s0 ->. cbn. repeat split; auto; intros x Hx; rewrite Hx; reflexivity. }
  destruct (rgtb (demand_of s args)
              (rsum (map snd (limits_of args (length cost))))) eqn:E1.
  - exists (fill_defaults s (length cost)), DemandAboveMax.
    split; [reflexivity|]. split; [auto|]. split; [reflexivity|]. auto.
  - destruct Hgate as [Hg|Hg]; [discriminate|]. rewrite Hg.
    exists (fill_defaults s (length cost)), DemandBelowMin.
    split; [reflexivity|]. split; [auto|]. split; [reflexivity|]. auto.
Qed.

(** X2. When [dispatch] returns a schedule, it is the [Pgg] of
    the state in which the lambda iteration ended; and if the residual that
    the limit check of the last pass tested was within [0.001], every
    generator still active in that state is neither above its [Pmax] nor
    below its [Pmin]. *)
Theorem dispatch_active_within_limits `{N : Numeric} (s s' : psys)
  (args : dispatch_args) (Pgg : list real) (lam PL : real) :
  dispatch s args = Ok (s', Schedule Pgg lam PL) ->
  exists cost lam0 fin,
    arg_cost args = Some cost /\
    lambda0 s cost = Ok lam0 /\
    dispatch_loop (denv_of s args cost) 200 (dloop_init (length cost) lam0)
      = Ok fin /\
    Pgg = d_Pgg fin /\
    (rleb (rabs (d_clamp_DelP fin)) (rlit 1 1000) = true ->
     forall p, (p < length cost)%nat ->
       within_limits (denv_of s args cost) Pgg (d_wgt fin) p).
Proof.
  intros H. unfold dispatch in H.
  destruct (arg_cost args) as [cost|] eqn:Hc; [|discriminate].
  destruct (rgtb _ _) in H; [discriminate|].
  destruct (rltb _ _) in H; [discriminate|].
  bind_inv H. rename a into lam0. bind_inv H. rename a into fin.
  destruct (d_iterp fin =? 0) eqn:Hit; [discriminate|].
  bind_inv H. injection H as _ <- _ _.
  exists cost, lam0, fin.
  split; [reflexivity|]. split; [exact Ha|]. split; [exact Ha0|].
  split; [reflexivity|].
  intros HD q Hq.
  destruct (dispatch_loop_last _ _ _ _ Ha0) as [->|[s0 Hs0]].
  - cbn in Hit. discriminate.
  - destruct (dispatch_pass_within _ _ _ Hs0) as [_ Hw].
    apply (Hw HD). exact Hq.
Qed.

Module DispatchCases.

#[local] Existing Instance Cases.NF.

(** An object on which neither [bloss] nor [lfnewton] has run. *)
Definition fresh : psys :=
  {| ps_basemva := rlit 100 1; ps_B := None; ps_B0 := None; ps_B00 := None;
     ps_lambda := None; ps_Pgg := None; ps_busdata := None; ps_Pg := None;
     ps_kb := None; ps_nbus := 0; ps_Pdt := rlit 0 1 |}.

(** One generator limited to 50 MW, asked for 100 MW. *)
Definition args_over : dispatch_args :=
  {| arg_Pdt := Some (rlit 100 1);
     arg_cost := Some [ {| c_alpha := rlit 0 1; c_beta := rlit 7 1;
                           c_gama := rlit 8 1000 |} ];
     arg_mwlimits := Some [ (rlit 0 1, rlit 50 1) ] |}.

(** One generator between 10 and 100 MW, asked for 50 MW. *)
Definition args_ok : dispatch_args :=
  {| arg_Pdt := Some (rlit 50 1);
     arg_cost := Some [ {| c_alpha := rlit 0 1; c_beta := rlit 7 1;
                           c_gama := rlit 8 1000 |} ];
     arg_mwlimits := Some [ (rlit 10 1, rlit 100 1) ] |}.

(** The same demand and limits with the cost [1 * P + 1e6 * P**2]. *)
Definition args_steep : dispatch_args :=
  {| arg_Pdt := Some (rlit 50 1);
     arg_cost := Some [ {| c_alpha := rlit 0 1; c_beta := rlit 1 1;
                           c_gama := rlit 1000000 1 |} ];
     arg_mwlimits := Some [ (rlit 10 1, rlit 100 1) ] |}.

Definition cost_of (args : dispatch_args) : list cost_row :=
  match arg_cost args with Some c => c | None => [] end.

End DispatchCases.

Lemma dispatch_infeasible_witness :
  exists s' r,
    dispatch DispatchCases.fresh DispatchCases.args_over = Ok (s', r) /\
    (r = DemandAboveMax \/ r = DemandBelowMin) /\
    s' = fill_defaults DispatchCases.fresh 1 /\
    ps_lambda s' = ps_lambda DispatchCases.fresh /\
    ps_Pgg s' = ps_Pgg DispatchCases.fresh /\
    ps_busdata s' = ps_busdata DispatchCases.fresh /\
    ps_Pg s' = ps_Pg DispatchCases.fresh /\
    (forall B, ps_B DispatchCases.fresh = Some B -> ps_B s' = Some B) /\
    (forall b, ps_B0 DispatchCases.fresh = Some b -> ps_B0 s' = Some b) /\
    (forall b, ps_B00 DispatchCases.fresh = Some b -> ps_B00 s' = Some b).
Proof.
  apply (@dispatch_infeasible Cases.NF DispatchCases.fresh
           DispatchCases.args_over (DispatchCases.cost_of DispatchCases.args_over)).
  - reflexivity.
  - left. vm_compute. reflexivity.
Defined.

(** C6, the claim as stated fails: on an object whose loss coefficients
    were never set, the infeasible call returns its diagnostic but has by
    then replaced [B], [B0] and [B00] ([None] before) with zeros. *)
Lemma infeasible_call_sets_B :
  (r <- dispatch DispatchCases.fresh DispatchCases.args_over ;;
   Ok (snd r, ps_B DispatchCases.fresh, ps_B (fst r), ps_B0 (fst r),
       ps_B00 (fst r)))
  = Ok (DemandAboveMax, None, Some [[0%float]], Some [0%float], Some 0%float).
Proof. vm_compute. reflexivity. Qed.

Lemma dispatch_active_within_limits_witness :
  exists Pgg cost lam0 fin,
    arg_cost DispatchCases.args_ok = Some cost /\
    lambda0 DispatchCases.fresh cost = Ok lam0 /\
    dispatch_loop (denv_of DispatchCases.fresh DispatchCases.args_ok cost) 200
      (dloop_init (length cost) lam0) = Ok fin /\
    Pgg = d_Pgg fin /\
    (rleb (rabs (d_clamp_DelP fin)) (rlit 1 1000) = true ->
     forall p, (p < length cost)%nat ->
       within_limits (denv_of DispatchCases.fresh DispatchCases.args_ok cost)
         Pgg (d_wgt fin) p).
Proof.
  eexists.
  eapply (@dispatch_active_within_limits Cases.NF DispatchCases.fresh _
            DispatchCases.args_ok).
  vm_compute. reflexivity.
Defined.

(** C7, the claim as stated fails: with one generator held between 10 and
    100 MW, a demand of 50 MW (feasible) and the cost [1 * P + 1e6 * P**2],
    the call runs its 200 passes and returns; the generator is still active
    and scheduled at about 0.008 MW, below its [Pmin] of 10 MW. *)
Lemma active_generator_below_Pmin :
  (r <- dispatch DispatchCases.fresh DispatchCases.args_steep ;;
   fin <- dispatch_loop
            (denv_of DispatchCases.fresh DispatchCases.args_steep
               (DispatchCases.cost_of DispatchCases.args_steep))
            200 (dloop_init 1 (rlit 1 1)) ;;
   Ok (match snd r with
       | Schedule Pgg _ _ => map (fun x => rltb x (rlit 10 1)) Pgg
       | _ => []
       end,
       d_iterp fin, d_wgt fin,
       map (fun x => (rltb x (rlit 10 1), rltb x (rlit 1 100))) (d_Pgg fin)))
  = Ok ([true], 200, [true], [(true, true)]).
Proof. vm_compute. reflexivity. Qed.

(** ** The Newton-Raphson loop: what it leaves alone *)

Lemma for_each_inv {A S : Type} (R : S -> S -> Prop) (xs : list A)
  (body : S -> A -> result S) :
  (forall s, R s s) ->
  (forall a b c, R a b -> R b c -> R a c) ->
  (forall x s s', In x xs -> body s x = Ok s' -> R s s') ->
  forall s s', for_each xs body s = Ok s' -> R s s'.
Proof.
  intros Hrefl Htrans. induction xs as [|x t IH]; intros Hstep s s' H.
  - cbn in H. injection H as <-. apply Hrefl.
  - cbn [for_each] in H. bind_inv H.
    apply (Htrans _ a).
    + apply (Hstep x); [left; reflexivity|assumption].
    + apply IH; [|assumption]. intros y u u' Hy. apply Hstep. right. exact Hy.
Qed.

Tactic Notation "bind_as" hyp(H) ident(a) ident(Ha) :=
  apply bind_Ok in H; destruct H as (a & Ha & H).

Section NewtonFrame.
Context `{N : Numeric}.

(** The correction never moves the angle of bus position [p]. *)
Definition delta_fixed (e : env) (p : nat) : Prop :=
  nth_error (e_kb e) p = Some 1.

(** Neither the correction nor the reactive-limit nudge moves the magnitude
    of bus position [p]: the bus is not a load bus, and if it is a generator
    bus its [Qmax] is zero. *)
Definition vm_fixed (e : env) (p : nat) : Prop :=
  exists k, nth_error (e_kb e) p = Some k /\ k <> 0 /\
    (k = 2 -> exists q, nth_error (e_Qmax e) p = Some q /\ reqb q r0 = true).

Lemma nudge_frame (e : env) (iter n : Z) (vm vm' q : list real) (p : nat) :
  0 <= n ->
  nudge e iter n vm q = Ok vm' ->
  (p = Z.to_nat n ->
   exists qm, nth_error (e_Qmax e) p = Some qm /\ reqb qm r0 = true) ->
  nth_error vm' p = nth_error vm p.
Proof.
  intros Hn H Hp. unfold nudge in H. bind_inv H.
  pose proof (aget_nonneg _ _ _ Hn Ha) as HQ.
  destruct (reqb a r0) eqn:Eq; cbn [negb] in H.
  - injection H as <-. reflexivity.
  - assert (Hne : p <> Z.to_nat n).
    { intros ->. destruct (Hp eq_refl) as (qm & E1 & E2). congruence. }
    bind_inv H. bind_inv H. bind_inv H.
    destruct ((iter <=? 7) && (2 <? iter)).
    + bind_inv H. bind_inv H.
      destruct (rltb _ _).
      * destruct (aset_nonneg _ _ _ _ Hn H) as (_ & _ & HF). apply HF, Hne.
      * destruct (rgtb _ _).
        -- destruct (aset_nonneg _ _ _ _ Hn H) as (_ & _ & HF). apply HF, Hne.
        -- injection H as <-. reflexivity.
    + injection H as <-. reflexivity.
Qed.

Lemma sweep_step_frame (e : env) (iter n : Z) (dl : list real) (s s' : sweep)
  (p : nat) :
  0 <= n ->
  sweep_step e iter dl s n = Ok s' ->
  vm_fixed e p ->
  nth_error (sw_Vm s') p = nth_error (sw_Vm s) p.
Proof.
  intros Hn H (k & Hk & Hk0 & Hk2). unfold sweep_step in H.
  bind_inv H. bind_inv H. bind_as H kbn Hkb.
  pose proof (aget_nonneg _ _ _ Hn Hkb) as Hkbn.
  bind_inv H. bind_inv H. bind_inv H. bind_inv H. bind_inv H. bind_inv H.
  bind_inv H. bind_as H Vm2 HVm2. bind_inv H. bind_inv H.
  injection H as <-. cbn [sw_Vm].
  destruct (kbn =? 2) eqn:E2.
  - apply Z.eqb_eq in E2. subst kbn.
    apply (nudge_frame _ _ _ _ _ _ _ Hn HVm2).
    intros ->. apply Hk2. congruence.
  - injection HVm2 as <-. reflexivity.
Qed.

Lemma correct_step_frame (e : env) (DX dl vm dl' vm' : list real) (n : Z)
  (p : nat) :
  0 <= n ->
  correct_step e DX (dl, vm) n = Ok (dl', vm') ->
  (delta_fixed e p -> nth_error dl' p = nth_error dl p) /\
  (vm_fixed e p -> nth_error vm' p = nth_error vm p).
Proof.
  intros Hn H. unfold correct_step in H.
  bind_inv H. bind_inv H. bind_as H kbn Hkb.
  pose proof (aget_nonneg _ _ _ Hn Hkb) as Hkbn.
  bind_as H dl1 Ha2. bind_as H vm1 Ha3. injection H as <- <-. split.
  - intros Hp. unfold delta_fixed in Hp.
    destruct (kbn =? 1) eqn:E1; cbn [negb andb] in Ha2.
    + injection Ha2 as <-. reflexivity.
    + destruct (in_range _ _) in Ha2; [|injection Ha2 as <-; reflexivity].
      bind_inv Ha2. bind_inv Ha2.
      destruct (aset_nonneg _ _ _ _ Hn Ha2) as (_ & _ & HF). apply HF.
      intros ->. rewrite Hkbn in Hp. injection Hp as ->. discriminate.
  - intros (k & Hk & Hk0 & _).
    destruct (kbn =? 0) eqn:E0; cbn [andb] in Ha3.
    + destruct (in_range _ _) in Ha3; [|injection Ha3 as <-; reflexivity].
      bind_inv Ha3. bind_inv Ha3.
      destruct (aset_nonneg _ _ _ _ Hn Ha3) as (_ & _ & HF). apply HF.
      intros ->. apply Z.eqb_eq in E0. congruence.
    + injection Ha3 as <-. reflexivity.
Qed.

Lemma iteration_frame (e : env) (s s' : iter_state) (p : nat) :
  iteration e s = Ok s' ->
  (delta_fixed e p -> nth_error (it_delta s') p = nth_error (it_delta s) p) /\
  (vm_fixed e p -> nth_error (it_Vm s') p = nth_error (it_Vm s) p).
Proof.
  intros H. unfold iteration in H.
  destruct (e_m e <? 0); [discriminate|].
  bind_as H sw Ha. bind_as H DX HDX.
  bind_as H dv Ha1. destruct dv as [dl' vm']. bind_inv H.
  injection H as <-. cbn [it_delta it_Vm fst snd].
  assert (Hsw : vm_fixed e p ->
            nth_error (sw_Vm sw) p = nth_error (it_Vm s) p).
  { intros Hp.
    apply (for_each_inv
             (fun a b : sweep => nth_error (sw_Vm b) p = nth_error (sw_Vm a) p)
             _ _ ltac:(reflexivity) ltac:(intros; congruence)) in Ha.
    - exact Ha.
    - intros x u u' Hx Hu. apply zrange_nonneg in Hx; [|lia].
      eapply sweep_step_frame; eauto. lia. }
  assert (Hco :
    (delta_fixed e p -> nth_error dl' p = nth_error (it_delta s) p) /\
    (vm_fixed e p -> nth_error vm' p = nth_error (sw_Vm sw) p)).
  { apply (for_each_inv
             (fun a b : list real * list real =>
                (delta_fixed e p -> nth_error (fst b) p = nth_error (fst a) p) /\
                (vm_fixed e p -> nth_error (snd b) p = nth_error (snd a) p)))
      in Ha1.
    - exact Ha1.
    - intros; split; reflexivity.
    - intros u v w [H1 H2] [H3 H4]. split; intros Hp.
      + rewrite (H3 Hp). auto.
      + rewrite (H4 Hp). auto.
    - intros x [d0 v0] [d1 v1] Hx Hu. apply zrange_nonneg in Hx; [|lia].
      cbn [fst snd]. eapply correct_step_frame; eauto. lia. }
  destruct Hco as [Hd Hv]. split; [exact Hd|].
  intros Hp. rewrite (Hv Hp). auto.
Qed.

Lemma while_loop_frame (e : env) (p : nat) (k : nat) : forall s s',
  while_loop e k s = Ok s' ->
  (delta_fixed e p -> nth_error (it_delta s') p = nth_error (it_delta s) p) /\
  (vm_fixed e p -> nth_error (it_Vm s') p = nth_error (it_Vm s) p).
Proof.
  induction k as [|k IH]; intros s s' H; cbn [while_loop] in H.
  - destruct (_ && _) in H; injection H as <-; split; reflexivity.
  - destruct (_ && _) in H; [|injection H as <-; split; reflexivity].
    bind_inv H. destruct (IH _ _ H) as [H1 H2].
    destruct (iteration_frame e s a p Ha) as [H3 H4].
    split; intros Hp.
    + rewrite (H1 Hp). auto.
    + rewrite (H2 Hp). auto.
Qed.

End NewtonFrame.

(** ** A network of one slack bus *)

Section SingleBus.
Context `{N : Numeric}.

Lemma shape_one (M : matrix cplx) : shape 1 M -> exists c, M = [[c]].
Proof.
  intros [HL HR]. destruct M as [|row [|? ?]]; try discriminate.
  inversion HR as [|? ? Hrow _]; subst.
  destruct row as [|c [|? ?]]; try discriminate. eauto.
Qed.

Lemma branch_loop_single (e : env) (v d ym t : real) (nn lm : Z)
  (lines : list branch) :
  e_n e = 1%nat -> e_Ym e = [[ym]] -> e_t e = [[t]] -> e_kb e = [1] ->
  Forall (fun b => br_nl b = 1 /\ br_nr b = 1) lines ->
  forall acc, exists acc',
    for_each lines (branch_step e [v] [d] 0 nn lm) acc = Ok acc' /\
    jA acc' = jA acc.
Proof.
  intros En EY Et Ek. induction 1 as [|b l [Hl Hr] _ IH]; intros acc.
  - exists acc. split; reflexivity.
  - cbn [for_each]. unfold branch_step at 1.
    rewrite Hl, Hr, En, EY, Et, Ek. cbn.
    match goal with |- context [for_each l _ ?a] => destruct (IH a) as (acc' & E & HA) end.
    exists acc'. split; [exact E|]. rewrite HA. reflexivity.
Qed.


Lemma endpoints_all_one (lines : list branch) (k : Z) :
  Forall (fun b => br_nl b = 1 /\ br_nr b = 1) lines ->
  In k (endpoints lines) -> k = 1.
Proof.
  induction 1 as [|b l [Hl Hr] _ IH]; cbn [endpoints flat_map app In]; [tauto|].
  intros [<-|[<-|Hin]]; auto.
Qed.

(** The first pass on a single slack bus with branches: the sweep goes
    through, the empty system is solved, and [max] finds nothing to reduce. *)
Lemma single_bus_first_pass (cfg : config) (lines : list branch) (s : bus) :
  lines <> [] ->
  Forall (fun b => br_nl b = 1 /\ br_nr b = 1) lines ->
  bus_no s = 1 -> bus_kind s = 1 ->
  rgeb (rlit 1 1) (accuracy cfg) = true ->
  0 <= maxiter cfg ->
  power_flow cfg lines [s] =
    match lin_solve [] [] with
    | Some _ => Raise ValueError
    | None => Raise LinAlgFailure
    end.
Proof.
  intros Hne Hall Hno Hkind Hacc Hmax.
  assert (Hnum : numbered_from_one lines).
  { unfold numbered_from_one. eapply Forall_impl; [|exact Hall].
    cbn. intros b [-> ->]. lia. }
  destruct (lfybus_entries lines Hne Hnum) as (out & E & _ & Hin & _ & HS & _).
  apply (endpoints_all_one _ _ Hall) in Hin.
  unfold power_flow. rewrite E. cbn [bind].
  destruct out as [nb Y]. cbn [nbus Ybus] in *. subst nb.
  destruct (shape_one Y HS) as [c ->].
  unfold lfnewton, make_env. cbn [nbus Ybus].
  change (1 <? 0) with false. cbv iota.
  change (Z.to_nat 1) with 1%nat.
  unfold ingest, init_arrays, zeros. cbn [repeat for_each].
  unfold ingest_row. rewrite Hno, Hkind.
  destruct (rleb (bus_Vm s) r0) eqn:HVm;
    (cbn -[polar deg2rad];
     destruct (Z.to_nat (maxiter cfg + 1)) as [|k] eqn:Ek; [lia|];
     cbn [while_loop it_maxerror it_iter e_accuracy e_maxiter];
     unfold rgeb in Hacc |- *; rewrite Hacc;
     destruct (Z.leb_spec 0 (maxiter cfg)); [|lia]; cbn [andb bind];
     unfold iteration at 1; cbn [e_m e_n];
     cbn [Z.ltb Z.compare Z.to_nat zeros2 zeros repeat zrange for_each];
     unfold sweep_step at 1; cbn -[branch_step rsq];
     match goal with
     | |- context [for_each lines (branch_step ?e [?v] [?d] 0 ?nn ?lm) ?acc] =>
         destruct (branch_loop_single e v d (cabs c) (cangle c) nn lm lines
                     eq_refl eq_refl eq_refl eq_refl Hall acc)
           as (acc' & EL & HA)
     end;
     rewrite EL; cbn -[rsq]; rewrite HA; cbn -[rsq];
     destruct (lin_solve [] []) as [DX|]; cbn; reflexivity).
Qed.

(** X3. A network of a single slack bus does not solve in zero passes: with
    [accuracy] at most 1 and [maxiter >= 0], [lfybus] followed by [lfnewton]
    raises, whatever the pre-set [Vm] of the bus. With no branch at all
    [lfybus] raises already ([max] of an empty array). With branches, which
    can only be self-loops at bus 1, the loop is entered, the mismatch vector
    has length 0, and [max(abs(DC))] raises [ValueError] (unless the linear
    solve of the empty system has raised before). *)
Theorem single_slack_bus_raises (cfg : config) (lines : list branch) (s : bus) :
  Forall (fun b => br_nl b = 1 /\ br_nr b = 1) lines ->
  bus_no s = 1 -> bus_kind s = 1 ->
  rgeb (rlit 1 1) (accuracy cfg) = true ->
  0 <= maxiter cfg ->
  (exists e, power_flow cfg lines [s] = Raise e) /\
  (lines = [] -> lfybus lines = Raise ValueError) /\
  (lines <> [] ->
   power_flow cfg lines [s] =
     match lin_solve [] [] with
     | Some _ => Raise ValueError
     | None => Raise LinAlgFailure
     end).
Proof.
  intros Hall Hno Hkind Hacc Hmax.
  pose proof (fun Hne => single_bus_first_pass cfg lines s Hne Hall Hno Hkind
                           Hacc Hmax) as Hrun.
  split; [|split; [intros ->; reflexivity|exact Hrun]].
  destruct lines as [|b l] eqn:El.
  - exists ValueError. reflexivity.
  - rewrite Hrun by discriminate.
    destruct (lin_solve [] []); eauto.
Qed.

End SingleBus.

(** ** The ingest of the bus table and the run as a whole *)

Lemma bind_Raise {A B : Type} (c : result A) (k : A -> result B) (e : exn) :
  bind c k = Raise e -> c = Raise e \/ exists a, c = Ok a /\ k a = Raise e.
Proof. destruct c as [a|e']; cbn; [eauto|]. intros [= ->]. auto. Qed.

Lemma aset_Raise {A : Type} (l : list A) (i : Z) (v : A) (e : exn) :
  aset l i v = Raise e -> e = IndexError.
Proof. unfold aset. destruct (py_idx _ _); [discriminate|]. congruence. Qed.

Lemma aset_out_of_range {A : Type} (l : list A) (i : Z) (v : A) :
  Z.of_nat (length l) <= i -> aset l i v = Raise IndexError.
Proof.
  intros Hi. unfold aset, py_idx.
  destruct (Z.leb_spec 0 i); [|lia].
  destruct (Z.ltb_spec i (Z.of_nat (length l))); [lia|reflexivity].
Qed.

Section Ingest.
Context `{N : Numeric}.

(** What the ingest loop stores for one row of the bus table. *)
Definition stored_Vm (b : bus) : real :=
  if rleb (bus_Vm b) r0 then r1 else bus_Vm b.
Definition stored_delta (b : bus) : real :=
  if rleb (bus_Vm b) r0 then bus_delta b else deg2rad (bus_delta b).

Lemma aset_int64_Ok (l l' : list Z) (i v : Z) :
  aset_int64 l i v = Ok l' -> aset l i v = Ok l' /\ in_int64 v = true.
Proof.
  unfold aset_int64. destruct (aset l i v) as [l1|e]; cbn [bind]; [|discriminate].
  destruct (in_int64 v); [|discriminate]. intros [= ->]. auto.
Qed.

Lemma aset_int64_Raise (l : list Z) (i v : Z) (e : exn) :
  aset_int64 l i v = Raise e ->
  e = IndexError \/ (e = OverflowError /\ in_int64 v = false).
Proof.
  unfold aset_int64. destruct (aset l i v) as [l1|e'] eqn:E; cbn [bind].
  - destruct (in_int64 v); [discriminate|]. intros [= <-]. auto.
  - intros [= <-]. left. exact (aset_Raise _ _ _ _ E).
Qed.

(** A row stops the ingest with [IndexError], or with the [OverflowError] of
    a kind that does not fit the int64 array. *)
Lemma ingest_row_Raise (bm : real) (s : arrays) (b : bus) (e : exn) :
  ingest_row bm s b = Raise e ->
  e = IndexError \/ (e = OverflowError /\ in_int64 (bus_kind b) = false).
Proof.
  unfold ingest_row. intros H.
  apply bind_Raise in H. destruct H as [H|(? & _ & H)];
    [exact (aset_int64_Raise _ _ _ _ H)|].
  left.
  repeat (apply bind_Raise in H;
          destruct H as [H|(? & _ & H)]; [exact (aset_Raise _ _ _ _ H)|]).
  destruct (rleb _ _);
    repeat (apply bind_Raise in H;
            destruct H as [H|(? & _ & H)]; [exact (aset_Raise _ _ _ _ H)|]);
    discriminate.
Qed.

Lemma ingest_row_spec (bm : real) (s s' : arrays) (b : bus) :
  1 <= bus_no b ->
  ingest_row bm s b = Ok s' ->
  let p0 := Z.to_nat (bus_no b - 1) in
  (length (kb s') = length (kb s) /\ length (Vm s') = length (Vm s) /\
   length (delta s') = length (delta s) /\ length (Qmax s') = length (Qmax s) /\
   length (Pg s') = length (Pg s)) /\
  (nth_error (kb s') p0 = Some (bus_kind b) /\
   nth_error (Vm s') p0 = Some (stored_Vm b) /\
   nth_error (delta s') p0 = Some (stored_delta b) /\
   nth_error (Qmax s') p0 = Some (bus_Qmax b)) /\
  (forall p, p <> p0 ->
     nth_error (kb s') p = nth_error (kb s) p /\
     nth_error (Vm s') p = nth_error (Vm s) p /\
     nth_error (delta s') p = nth_error (delta s) p /\
     nth_error (Qmax s') p = nth_error (Qmax s) p).
Proof.
  intros Hno H. assert (Hi : 0 <= bus_no b - 1) by lia.
  unfold ingest_row in H.
  bind_as H kb1 Hkb. bind_as H Vm1 HVm. bind_as H dl1 Hdl.
  bind_as H Pd1 HPd. bind_as H Qd1 HQd. bind_as H Pg1 HPg.
  bind_as H Qg1 HQg. bind_as H Qmin1 HQmin. bind_as H Qmax1 HQmax.
  bind_as H Qsh1 HQsh. apply aset_int64_Ok in Hkb. destruct Hkb as [Hkb _].
  destruct (aset_nonneg _ _ _ _ Hi Hkb) as (Lk & Ek & Fk).
  destruct (aset_nonneg _ _ _ _ Hi HVm) as (Lv & Ev & Fv).
  destruct (aset_nonneg _ _ _ _ Hi Hdl) as (Ld & Ed & Fd).
  destruct (aset_nonneg _ _ _ _ Hi HQmax) as (Lq & Eq & Fq).
  pose proof (aset_length _ _ _ _ HPg) as Lp.
  unfold stored_Vm, stored_delta.
  destruct (rleb (bus_Vm b) r0).
  - bind_as H Vm2 HVm2. bind_as H V2 HV2. injection H as <-. cbn.
    destruct (aset_nonneg _ _ _ _ Hi HVm2) as (Lv2 & Ev2 & Fv2).
    split; [repeat split; congruence|]. split; [repeat split; assumption|].
    intros p Hp. repeat split; auto. rewrite Fv2 by assumption. auto.
  - bind_as H dl2 Hdl2. bind_as H V2 HV2. bind_as H P2 HP2.
    bind_as H Q2 HQ2. bind_as H S2 HS2. injection H as <-. cbn.
    destruct (aset_nonneg _ _ _ _ Hi Hdl2) as (Ld2 & Ed2 & Fd2).
    split; [repeat split; congruence|]. split; [repeat split; assumption|].
    intros p Hp. repeat split; auto. rewrite Fd2 by assumption. auto.
Qed.


Lemma ingest_row_length (bm : real) (s s' : arrays) (b : bus) :
  ingest_row bm s b = Ok s' ->
  length (kb s') = length (kb s) /\ length (Vm s') = length (Vm s) /\
  length (delta s') = length (delta s) /\ length (Pg s') = length (Pg s).
Proof.
  intros H. unfold ingest_row in H.
  bind_as H kb1 Hkb. bind_as H Vm1 HVm. bind_as H dl1 Hdl.
  bind_as H Pd1 HPd. bind_as H Qd1 HQd. bind_as H Pg1 HPg.
  bind_as H Qg1 HQg. bind_as H Qmin1 HQmin. bind_as H Qmax1 HQmax.
  bind_as H Qsh1 HQsh. apply aset_int64_Ok in Hkb. destruct Hkb as [Hkb _].
  apply aset_length in Hkb, HVm, Hdl, HPg.
  destruct (rleb (bus_Vm b) r0).
  - bind_as H Vm2 HVm2. bind_as H V2 HV2. injection H as <-. cbn.
    apply aset_length in HVm2. repeat split; congruence.
  - bind_as H dl2 Hdl2. bind_as H V2 HV2. bind_as H P2 HP2.
    bind_as H Q2 HQ2. bind_as H S2 HS2. injection H as <-. cbn.
    apply aset_length in Hdl2. repeat split; congruence.
Qed.

Lemma ingest_loop_length (bm : real) (rows : list bus) : forall s s',
  for_each rows (ingest_row bm) s = Ok s' ->
  length (kb s') = length (kb s) /\ length (Vm s') = length (Vm s) /\
  length (delta s') = length (delta s) /\ length (Pg s') = length (Pg s).
Proof.
  induction rows as [|b t IH]; intros s s' H; cbn [for_each] in H.
  - injection H as <-. auto.
  - bind_as H s1 H1. apply ingest_row_length in H1. apply IH in H.
    destruct H1 as (? & ? & ? & ?), H as (? & ? & ? & ?).
    repeat split; congruence.
Qed.

(** A row whose bus number lies beyond the arrays stops the ingest, unless a
    row before it has stopped it already. *)
Lemma ingest_loop_out_of_range (bm : real) (pre : list bus) (row : bus)
  (post : list bus) : forall s,
  Z.of_nat (length (kb s)) < bus_no row ->
  for_each (pre ++ row :: post) (ingest_row bm) s = Raise IndexError \/
  (for_each (pre ++ row :: post) (ingest_row bm) s = Raise OverflowError /\
   Exists (fun r => in_int64 (bus_kind r) = false) pre).
Proof.
  induction pre as [|b t IH]; intros s Hs; cbn [app for_each].
  - left. unfold ingest_row, aset_int64.
    rewrite aset_out_of_range by lia. reflexivity.
  - destruct (ingest_row bm s b) as [s1|e] eqn:E1; cbn [bind].
    + apply ingest_row_length in E1. destruct E1 as (E1 & _).
      destruct (IH s1) as [H|[H Hex]]; [rewrite E1; exact Hs|left; exact H|].
      right. split; [exact H|]. apply Exists_cons_tl. exact Hex.
    + destruct (ingest_row_Raise _ _ _ _ E1) as [->|[-> Hk]]; [left; reflexivity|].
      right. split; [reflexivity|]. apply Exists_cons_hd. exact Hk.
Qed.

(** Row [i] of the table holds bus number [offset + i + 1]. *)
Definition in_bus_order (offset : nat) (rows : list bus) : Prop :=
  forall i r, nth_error rows i = Some r -> bus_no r = Z.of_nat (offset + i) + 1.

Lemma ingest_loop_ordered (bm : real) (rows : list bus) : forall offset s s',
  in_bus_order offset rows ->
  for_each rows (ingest_row bm) s = Ok s' ->
  (forall p, (p < offset)%nat ->
     nth_error (kb s') p = nth_error (kb s) p /\
     nth_error (Vm s') p = nth_error (Vm s) p /\
     nth_error (delta s') p = nth_error (delta s) p /\
     nth_error (Qmax s') p = nth_error (Qmax s) p) /\
  (forall i r, nth_error rows i = Some r ->
     nth_error (kb s') (offset + i) = Some (bus_kind r) /\
     nth_error (Vm s') (offset + i) = Some (stored_Vm r) /\
     nth_error (delta s') (offset + i) = Some (stored_delta r) /\
     nth_error (Qmax s') (offset + i) = Some (bus_Qmax r)).
Proof.
  induction rows as [|b t IH]; intros offset s s' Hord H; cbn [for_each] in H.
  - injection H as <-. split; [auto|]. intros [|i] r Hr; discriminate.
  - bind_as H s1 H1.
    assert (Hb : bus_no b = Z.of_nat offset + 1).
    { rewrite (Hord 0%nat b eq_refl). f_equal. lia. }
    destruct (ingest_row_spec bm s s1 b ltac:(lia) H1) as (_ & Hat & Hfr).
    cbv zeta in Hat, Hfr.
    replace (Z.to_nat (bus_no b - 1)) with offset in Hat, Hfr by lia.
    assert (Hord' : in_bus_order (S offset) t).
    { intros i r Hr. rewrite (Hord (S i) r Hr). f_equal. lia. }
    destruct (IH (S offset) s1 s' Hord' H) as [Hlow Hrows].
    split.
    + intros p Hp. destruct (Hlow p ltac:(lia)) as (-> & -> & -> & ->).
      apply Hfr. lia.
    + intros [|i] r Hr.
      * cbn in Hr. injection Hr as <-. rewrite Nat.add_0_r.
        destruct (Hlow offset ltac:(lia)) as (-> & -> & -> & ->). exact Hat.
      * cbn in Hr. replace (offset + S i)%nat with (S offset + i)%nat by lia.
        apply Hrows. exact Hr.
Qed.

End Ingest.

Section NewtonRun.
Context `{N : Numeric}.

(** The loop variables as [lfnewton] sets them before the first pass. *)
Definition newton_init (a : arrays) : iter_state :=
  {| it_Vm := Vm a; it_delta := delta a; it_P := P a; it_Q := Q a;
     it_iter := 0; it_maxerror := rlit 1 1; it_converge := 1 |}.

Lemma make_env_fields (cfg : config) (yb : ybus_out) (lines : list branch)
  (a : arrays) :
  let e := make_env cfg yb lines a in
  e_kb e = kb a /\ e_Qmax e = Qmax a /\ e_maxiter e = maxiter cfg /\
  e_accuracy e = accuracy cfg /\ e_n e = Z.to_nat (nbus yb).
Proof.
  unfold make_env. destruct (count_kinds (kb a) 0 0) as [[[nss ngs] ns] ng].
  cbn. auto.
Qed.

(** The steps of a run that returns. *)
Lemma lfnewton_Ok (cfg : config) (yb : ybus_out) (lines : list branch)
  (busdata : list bus) (out : lf_out) :
  lfnewton cfg yb lines busdata = Ok out ->
  exists a it bd1,
    0 <= nbus yb /\
    ingest (basemva cfg) (Z.to_nat (nbus yb)) busdata = Ok a /\
    while_loop (make_env cfg yb lines a) (Z.to_nat (maxiter cfg + 1))
      (newton_init a) = Ok it /\
    assign_column busdata (it_Vm it) set_Vm = Ok bd1 /\
    assign_column bd1 (map rad2deg (it_delta it)) set_delta = Ok (o_busdata out) /\
    Vm (o_arr out) = it_Vm it /\ delta (o_arr out) = it_delta it /\
    kb (o_arr out) = kb a /\ o_deltad out = map rad2deg (it_delta it) /\
    o_iter out = it_iter it /\ o_maxerror out = it_maxerror it /\
    o_tech out = (if negb (it_converge it =? 1) then tech_diverged
                  else tech_converged).
Proof.
  intros H. unfold lfnewton in H.
  destruct (Z.ltb_spec (nbus yb) 0); [discriminate|].
  bind_as H a Ha. bind_as H it Hit. bind_as H po Hpo.
  bind_as H bd1 Hbd1. bind_as H bd2 Hbd2. injection H as <-.
  exists a, it, bd1. cbn. repeat split; assumption.
Qed.

Lemma assign_column_length (rows rows' : list bus) (col : list real)
  (setf : bus -> real -> bus) :
  assign_column rows col setf = Ok rows' -> length rows' = length rows.
Proof.
  unfold assign_column. destruct (Nat.eqb_spec (length col) (length rows)).
  - intros [= <-]. rewrite length_map, length_combine. lia.
  - destruct col as [|x [|? ?]]; try discriminate.
    intros [= <-]. apply length_map.
Qed.

Lemma assign_column_nth (rows rows' : list bus) (col : list real)
  (setf : bus -> real -> bus) (k : nat) (row : bus) :
  assign_column rows col setf = Ok rows' ->
  nth_error rows k = Some row ->
  exists v, nth_error rows' k = Some (setf row v) /\
    forall v', nth_error col k = Some v' -> v' = v.
Proof.
  unfold assign_column. intros H Hrow.
  destruct (Nat.eqb_spec (length col) (length rows)) as [HL|HL].
  - injection H as <-.
    destruct (nth_error col k) as [v|] eqn:Ev.
    + exists v. split; [|congruence].
      rewrite nth_error_map.
      assert (E : nth_error (combine rows col) k = Some (row, v)).
      { clear HL. revert k col Hrow Ev.
        induction rows as [|r t IH]; intros [|k] [|c cs] Hr Hc;
          cbn in *; try discriminate; try congruence.
        apply IH; assumption. }
      rewrite E. reflexivity.
    + apply nth_error_None in Ev.
      assert (k < length rows)%nat by (apply nth_error_Some; congruence). lia.
  - destruct col as [|x [|? ?]]; try discriminate.
    injection H as <-. exists x. split.
    + rewrite nth_error_map, Hrow. reflexivity.
    + destruct k as [|[|k]]; cbn; congruence.
Qed.

(** Which entry of the column a row receives: its own when the column has
    one entry per row, the only one when NumPy broadcasts. *)
Lemma assign_column_entry (rows rows' : list bus) (col : list real)
  (setf : bus -> real -> bus) (k : nat) (row : bus) :
  assign_column rows col setf = Ok rows' ->
  nth_error rows k = Some row ->
  exists v, nth_error rows' k = Some (setf row v) /\
    ((length col = length rows /\ nth_error col k = Some v) \/
     (length col <> length rows /\ col = [v])).
Proof.
  unfold assign_column. intros H Hrow.
  destruct (Nat.eqb_spec (length col) (length rows)) as [HL|HL].
  - injection H as <-.
    destruct (nth_error col k) as [v|] eqn:Ev.
    + exists v. split; [|left; split; [exact HL|reflexivity]].
      rewrite nth_error_map.
      assert (E : nth_error (combine rows col) k = Some (row, v)).
      { clear HL. revert k col Hrow Ev.
        induction rows as [|r t IH]; intros [|k] [|c cs] Hr Hc;
          cbn in *; try discriminate; try congruence.
        apply IH; assumption. }
      rewrite E. reflexivity.
    + apply nth_error_None in Ev.
      assert (k < length rows)%nat by (apply nth_error_Some; congruence). lia.
  - destruct col as [|x [|? ?]]; try discriminate.
    injection H as <-. exists x. split.
    + rewrite nth_error_map, Hrow. reflexivity.
    + right. split; [exact HL|reflexivity].
Qed.

End NewtonRun.

Section NewtonTheorems.
Context `{N : Numeric}.

Lemma iteration_counts (e : env) (s s' : iter_state) :
  iteration e s = Ok s' ->
  it_iter s' = it_iter s + 1 /\
  it_converge s' =
    (if (it_iter s' =? e_maxiter e) && rgtb (it_maxerror s') (e_accuracy e)
     then 0 else it_converge s).
Proof.
  intros H. unfold iteration in H.
  destruct (e_m e <? 0); [discriminate|].
  bind_as H sw Hsw. bind_as H DX HDX. bind_as H dv Hdv. bind_as H me Hme.
  injection H as <-. cbn. auto.
Qed.

Lemma while_loop_counts (e : env) (k : nat) : forall s s',
  while_loop e k s = Ok s' ->
  it_iter s <= it_iter s' <= it_iter s + Z.of_nat k /\
  (e_maxiter e + 1 <= it_iter s + Z.of_nat k ->
   rgeb (it_maxerror s') (e_accuracy e) && (it_iter s' <=? e_maxiter e) = false) /\
  (it_converge s = 1 ->
   it_converge s' = 1 \/
   (it_converge s' = 0 /\ it_iter s < e_maxiter e <= it_iter s')).
Proof.
  induction k as [|k IH]; intros s s' H; cbn [while_loop] in H.
  - destruct (_ && _) eqn:T in H; injection H as <-.
    + split; [lia|]. split; [|auto]. intros Hk.
      apply andb_true_iff in T. destruct T as [_ T]. apply Z.leb_le in T. lia.
    + split; [lia|]. split; auto.
  - destruct (_ && _) eqn:T in H.
    + bind_as H s1 H1. destruct (iteration_counts _ _ _ H1) as [Hi Hc].
      destruct (IH _ _ H) as (Hb & Hex & Hcv).
      split; [lia|]. split; [intros Hk; apply Hex; lia|].
      intros Hc1. rewrite Hc1 in Hc.
      destruct ((it_iter s1 =? e_maxiter e) && _) eqn:Ed in Hc.
      * apply andb_true_iff in Ed. destruct Ed as [Ed _].
        apply Z.eqb_eq in Ed. right.
        assert (Hmono : forall k0 t t', while_loop e k0 t = Ok t' ->
                  it_converge t = 0 -> it_converge t' = 0).
        { clear. induction k0 as [|k0 IH0]; intros t t' Ht Hz;
            cbn [while_loop] in Ht.
          - destruct (_ && _) in Ht; injection Ht as <-; exact Hz.
          - destruct (_ && _) in Ht; [|injection Ht as <-; exact Hz].
            bind_as Ht t1 Ht1. apply (IH0 _ _ Ht).
            destruct (iteration_counts _ _ _ Ht1) as [_ ->].
            destruct (_ && _); [reflexivity|exact Hz]. }
        split; [exact (Hmono _ _ _ H Hc)|]. lia.
      * destruct (Hcv Hc) as [?|[? ?]]; [left; assumption|right].
        split; [assumption|]. lia.
    + injection H as <-. split; [lia|]. split; auto.
Qed.

End NewtonTheorems.

(** The buses the loop never moves: slack buses, and generator buses whose
    [Qmax] is zero. *)
Lemma loop_keeps_fixed `{N : Numeric} (cfg : config) (yb : ybus_out)
  (lines : list branch) (a : arrays) (k : nat) (it : iter_state) (p : nat) :
  while_loop (make_env cfg yb lines a) k (newton_init a) = Ok it ->
  (nth_error (kb a) p = Some 1 ->
   nth_error (it_Vm it) p = nth_error (Vm a) p /\
   nth_error (it_delta it) p = nth_error (delta a) p) /\
  (forall q, nth_error (kb a) p = Some 2 ->
   nth_error (Qmax a) p = Some q -> reqb q r0 = true ->
   nth_error (it_Vm it) p = nth_error (Vm a) p).
Proof.
  intros Hit.
  destruct (make_env_fields cfg yb lines a) as (Ekb & EQ & _).
  destruct (while_loop_frame _ p _ _ _ Hit) as [Hd Hv].
  cbn [newton_init it_delta it_Vm] in Hd, Hv. split.
  - intros Hk. split.
    + apply Hv. exists 1. rewrite Ekb. split; [exact Hk|]. split; [lia|].
      discriminate.
    + apply Hd. unfold delta_fixed. rewrite Ekb. exact Hk.
  - intros q Hk Hq Hz. apply Hv. exists 2. rewrite Ekb, EQ.
    split; [exact Hk|]. split; [lia|]. intros _. eauto.
Qed.

(** X4. [lfnewton] never changes the voltage of a slack bus after the ingest:
    in a run that returns, the final [Vm] and [delta] of every bus of kind 1
    are the values the ingest stored; likewise the [Vm] of a generator bus
    (kind 2) whose [Qmax] is zero, which the reactive-limit step never
    nudges. *)
Theorem newton_leaves_fixed_buses `{N : Numeric} (cfg : config) (yb : ybus_out)
  (lines : list branch) (busdata : list bus) (out : lf_out) :
  lfnewton cfg yb lines busdata = Ok out ->
  exists a,
    ingest (basemva cfg) (Z.to_nat (nbus yb)) busdata = Ok a /\
    forall p,
      (nth_error (kb a) p = Some 1 ->
       nth_error (Vm (o_arr out)) p = nth_error (Vm a) p /\
       nth_error (delta (o_arr out)) p = nth_error (delta a) p) /\
      (forall q, nth_error (kb a) p = Some 2 ->
       nth_error (Qmax a) p = Some q -> reqb q r0 = true ->
       nth_error (Vm (o_arr out)) p = nth_error (Vm a) p).
Proof.
  intros H.
  destruct (lfnewton_Ok _ _ _ _ _ H)
    as (a & it & bd1 & _ & Ha & Hit & _ & _ & EV & ED & _).
  exists a. split; [exact Ha|]. intros p. rewrite EV, ED.
  exact (loop_keeps_fixed _ _ _ _ _ _ p Hit).
Qed.

(** X5. With a bus table in bus-number order (row [k] holds bus [k + 1]), a
    run that returns leaves every slack row with a positive [Vm] as follows:
    the [Vm] column holds the pre-set magnitude exactly, the stored angle is
    the radian conversion of the pre-set angle, and the angle column holds
    that value converted back to degrees. *)
Theorem slack_row_retained `{N : Numeric} (cfg : config) (yb : ybus_out)
  (lines : list branch) (busdata : list bus) (out : lf_out) (k : nat)
  (row : bus) :
  in_bus_order 0 busdata ->
  nth_error busdata k = Some row ->
  bus_kind row = 1 ->
  rleb (bus_Vm row) r0 = false ->
  lfnewton cfg yb lines busdata = Ok out ->
  nth_error (Vm (o_arr out)) k = Some (bus_Vm row) /\
  nth_error (delta (o_arr out)) k = Some (deg2rad (bus_delta row)) /\
  exists row',
    nth_error (o_busdata out) k = Some row' /\
    bus_no row' = bus_no row /\ bus_kind row' = 1 /\
    bus_Vm row' = bus_Vm row /\
    bus_delta row' = rad2deg (deg2rad (bus_delta row)).
Proof.
  intros Hord Hrow Hkind HVm H.
  destruct (lfnewton_Ok _ _ _ _ _ H)
    as (a & it & bd1 & _ & Ha & Hit & Hb1 & Hb2 & EV & ED & _).
  assert (Hfix := fun p => loop_keeps_fixed _ _ _ _ _ _ p Hit).
  rewrite <- EV, <- ED in Hfix.
  unfold ingest in Ha.
  destruct (ingest_loop_ordered _ _ 0 _ _ Hord Ha) as [_ Hrows].
  destruct (Hrows k row Hrow) as (Hkb & Hvm & Hdl & _). cbn [Nat.add] in *.
  rewrite Hkind in Hkb.
  destruct (Hfix k) as [Hslack _]. destruct (Hslack Hkb) as [Ev Ed].
  unfold stored_Vm in Hvm. unfold stored_delta in Hdl. rewrite HVm in Hvm, Hdl.
  rewrite Hvm in Ev. rewrite Hdl in Ed.
  split; [exact Ev|]. split; [exact Ed|].
  destruct (assign_column_nth _ _ _ _ k row Hb1 Hrow) as (v & Hr1 & Hv).
  destruct (assign_column_nth _ _ _ _ k _ Hb2 Hr1) as (d & Hr2 & Hd).
  exists (set_delta (set_Vm row v) d). split; [exact Hr2|]. cbn.
  split; [reflexivity|]. split; [exact Hkind|]. split.
  - symmetry. apply Hv. rewrite <- EV. exact Ev.
  - symmetry. apply Hd. rewrite nth_error_map, <- ED, Ed. reflexivity.
Qed.

(** X6. The write-back at the end of [lfnewton] keeps the number of rows and
    every column except [Vm] and [delta], and fills these two by row
    position, whatever bus number a row carries: when the bus array has one
    entry per row of the table, row [k] receives entry [k]; when it has a
    single entry and the table another number of rows, NumPy broadcasts and
    every row receives that entry; with any other length the assignment
    raises and the run does not return. *)
Theorem resync_by_position `{N : Numeric} (cfg : config) (yb : ybus_out)
  (lines : list branch) (busdata : list bus) (out : lf_out) :
  lfnewton cfg yb lines busdata = Ok out ->
  length (o_busdata out) = length busdata /\
  forall k row, nth_error busdata k = Some row ->
    exists row',
      nth_error (o_busdata out) k = Some row' /\
      bus_no row' = bus_no row /\ bus_kind row' = bus_kind row /\
      bus_Pd row' = bus_Pd row /\ bus_Qd row' = bus_Qd row /\
      bus_Pg row' = bus_Pg row /\ bus_Qg row' = bus_Qg row /\
      bus_Qmin row' = bus_Qmin row /\ bus_Qmax row' = bus_Qmax row /\
      bus_Qsh row' = bus_Qsh row /\
      ((length (Vm (o_arr out)) = length busdata /\
        nth_error (Vm (o_arr out)) k = Some (bus_Vm row')) \/
       (length (Vm (o_arr out)) <> length busdata /\
        Vm (o_arr out) = [bus_Vm row'])) /\
      ((length (o_deltad out) = length busdata /\
        nth_error (o_deltad out) k = Some (bus_delta row')) \/
       (length (o_deltad out) <> length busdata /\
        o_deltad out = [bus_delta row'])).
Proof.
  intros H.
  destruct (lfnewton_Ok _ _ _ _ _ H)
    as (a & it & bd1 & _ & _ & _ & Hb1 & Hb2 & EV & _ & _ & EDd & _).
  pose proof (assign_column_length _ _ _ _ Hb1) as L1.
  split.
  - rewrite (assign_column_length _ _ _ _ Hb2). exact L1.
  - intros k row Hrow.
    destruct (assign_column_entry _ _ _ _ k row Hb1 Hrow) as (v & Hr1 & Hv).
    destruct (assign_column_entry _ _ _ _ k _ Hb2 Hr1) as (d & Hr2 & Hd).
    exists (set_delta (set_Vm row v) d). split; [exact Hr2|]. cbn.
    repeat (split; [reflexivity|]).
    rewrite EV, EDd. rewrite L1 in Hd. split; assumption.
Qed.

(** X7. A bus table that lists a bus numbered above every endpoint of the
    branch table makes the power flow raise: [lfybus] sizes the arrays by the
    largest endpoint and the ingest writes by bus number, so that row raises
    [IndexError]. A row before it stops the run first when its own write
    fails: with [IndexError] again, or with the [OverflowError] of a kind
    that does not fit the int64 array [kb], and only then; when every
    earlier kind fits, the exception is [IndexError]. *)
Theorem bus_beyond_branches_raises `{N : Numeric} (cfg : config)
  (lines : list branch) (pre : list bus) (row : bus) (post : list bus) :
  lines <> [] ->
  numbered_from_one lines ->
  Forall (fun e => e < bus_no row) (endpoints lines) ->
  (power_flow cfg lines (pre ++ row :: post) = Raise IndexError \/
   (power_flow cfg lines (pre ++ row :: post) = Raise OverflowError /\
    Exists (fun r => in_int64 (bus_kind r) = false) pre)) /\
  (Forall (fun r => in_int64 (bus_kind r) = true) pre ->
   power_flow cfg lines (pre ++ row :: post) = Raise IndexError).
Proof.
  intros Hne Hnum Hbig.
  destruct (lfybus_entries lines Hne Hnum) as (yb & E & Hnb & Hmax & _).
  rewrite Forall_forall in Hbig. specialize (Hbig _ Hmax).
  assert (Hrun : forall r,
            for_each (pre ++ row :: post) (ingest_row (basemva cfg))
              (init_arrays (Z.to_nat (nbus yb))) = Raise r ->
            power_flow cfg lines (pre ++ row :: post) = Raise r).
  { intros r Hr. unfold power_flow. rewrite E. cbn [bind]. unfold lfnewton.
    destruct (Z.ltb_spec (nbus yb) 0); [lia|].
    unfold ingest. rewrite Hr. reflexivity. }
  assert (Hcase := ingest_loop_out_of_range (basemva cfg) pre row post
                     (init_arrays (Z.to_nat (nbus yb)))).
  cbn [init_arrays kb] in Hcase. unfold zeros in Hcase.
  rewrite repeat_length, Z2Nat.id in Hcase by lia. specialize (Hcase Hbig).
  assert (Hor : power_flow cfg lines (pre ++ row :: post) = Raise IndexError \/
                (power_flow cfg lines (pre ++ row :: post) = Raise OverflowError /\
                 Exists (fun r => in_int64 (bus_kind r) = false) pre)).
  { destruct Hcase as [H|[H Hex]]; [left|right; split; [|exact Hex]];
      apply Hrun; exact H. }
  split; [exact Hor|]. intros Hall.
  destruct Hor as [H|[_ Hex]]; [exact H|].
  apply Exists_exists in Hex. destruct Hex as (r & Hin & Hr).
  rewrite Forall_forall in Hall. rewrite (Hall r Hin) in Hr. discriminate.
Qed.

(** X8. On return from [lfnewton] the loop test is false and [iter] is at
    most [maxiter + 1]; the status is one of the two texts; the
    not-converged text is reported only when [maxiter >= 1] and the loop
    reached pass [maxiter], so a run with [maxiter <= 0] reports the
    converged text whatever the mismatch. *)
Theorem newton_exit_status `{N : Numeric} (cfg : config) (yb : ybus_out)
  (lines : list branch) (busdata : list bus) (out : lf_out) :
  lfnewton cfg yb lines busdata = Ok out ->
  0 <= o_iter out <= Z.max 0 (maxiter cfg + 1) /\
  rgeb (o_maxerror out) (accuracy cfg) && (o_iter out <=? maxiter cfg) = false /\
  (o_tech out = tech_converged \/
   (o_tech out = tech_diverged /\ 1 <= maxiter cfg <= o_iter out)) /\
  (maxiter cfg <= 0 -> o_tech out = tech_converged).
Proof.
  intros H.
  destruct (lfnewton_Ok _ _ _ _ _ H)
    as (a & it & bd1 & _ & _ & Hit & _ & _ & _ & _ & _ & _ & -> & -> & ->).
  destruct (make_env_fields cfg yb lines a) as (_ & _ & Em & Ea & _).
  destruct (while_loop_counts _ _ _ _ Hit) as (Hb & Hex & Hcv).
  rewrite Em, Ea in *. cbn [newton_init it_iter it_converge] in *.
  split; [lia|]. split; [apply Hex; lia|].
  destruct (Hcv eq_refl) as [->|[-> Hr]]; cbn [Z.eqb negb Pos.eqb].
  - split; [left; reflexivity|]. intros _. reflexivity.
  - split; [right; split; [reflexivity|lia]|]. intros Hm. lia.
Qed.

(** ** Concrete power-flow cases *)

Module FlowCases.

#[local] Existing Instance Cases.NF.

Definition cfg : config :=
  {| basemva := rlit 100 1; accuracy := rlit 1 1000; maxiter := 10 |}.

Definition mkbus (no kind : Z) (vm pd pg : real) : bus :=
  {| bus_no := no; bus_kind := kind; bus_Vm := vm; bus_delta := rlit 0 1;
     bus_Pd := pd; bus_Qd := rlit 0 1; bus_Pg := pg; bus_Qg := rlit 0 1;
     bus_Qmin := rlit 0 1; bus_Qmax := rlit 0 1; bus_Qsh := rlit 0 1 |}.

(** A slack bus and a generator bus joined by one resistive line, the
    generator bus feeding its own load at the voltage of the slack bus: the
    flat start solves the network. *)
Definition line12 : list branch :=
  [ {| br_nl := 1; br_nr := 2; br_R := rlit 125 1000; br_X := rlit 0 1;
       br_Bc := rlit 0 1; br_a := rlit 1 1 |} ].

Definition slack1 : bus := mkbus 1 1 (rlit 105 100) (rlit 0 1) (rlit 0 1).

Definition buses12 : list bus :=
  [ slack1; mkbus 2 2 (rlit 105 100) (rlit 20 1) (rlit 20 1) ].

(** What [lfybus] leaves for [line12]. *)
Definition yb12 : ybus_out :=
  Eval vm_compute in
    match lfybus line12 with
    | Ok yb => yb
    | Raise _ => {| nbus := 0; Ybus := [] |}
    end.

(** One bus with a branch from it to itself. *)
Definition loop11 : list branch :=
  [ {| br_nl := 1; br_nr := 1; br_R := rlit 125 1000; br_X := rlit 0 1;
       br_Bc := rlit 0 1; br_a := rlit 1 1 |} ].

(** The line 1-3 of [Cases.lines13] with a bus table that goes up to 4. *)
Definition buses4 : list bus :=
  [ slack1; mkbus 2 0 (rlit 1 1) (rlit 10 1) (rlit 0 1);
    mkbus 3 0 (rlit 1 1) (rlit 10 1) (rlit 0 1);
    mkbus 4 0 (rlit 1 1) (rlit 10 1) (rlit 0 1) ].

(** Two rows for the one bus of [loop11], a generator bus. *)
Definition two_rows_one_bus : list bus :=
  [ mkbus 1 2 (rlit 105 100) (rlit 20 1) (rlit 20 1);
    mkbus 1 2 (rlit 102 100) (rlit 20 1) (rlit 20 1) ].

Lemma buses12_in_order : in_bus_order 0 buses12.
Proof.
  intros [|[|i]] r Hr; cbn in Hr; try (injection Hr as <-; reflexivity).
  destruct i; discriminate.
Qed.

End FlowCases.

Lemma single_slack_bus_raises_witness :
  power_flow FlowCases.cfg FlowCases.loop11 [FlowCases.slack1]
  = Raise ValueError.
Proof.
  refine (proj2 (proj2 (@single_slack_bus_raises Cases.NF FlowCases.cfg
                          FlowCases.loop11 FlowCases.slack1 _ _ _ _ _)) _).
  - repeat constructor.
  - reflexivity.
  - reflexivity.
  - vm_compute. reflexivity.
  - cbn. lia.
  - discriminate.
Defined.

Lemma newton_leaves_fixed_buses_witness :
  exists out a,
    ingest (basemva FlowCases.cfg) (Z.to_nat (nbus FlowCases.yb12))
      FlowCases.buses12 = Ok a /\
    forall p,
      (nth_error (kb a) p = Some 1 ->
       nth_error (Vm (o_arr out)) p = nth_error (Vm a) p /\
       nth_error (delta (o_arr out)) p = nth_error (delta a) p) /\
      (forall q, nth_error (kb a) p = Some 2 ->
       nth_error (Qmax a) p = Some q -> reqb q r0 = true ->
       nth_error (Vm (o_arr out)) p = nth_error (Vm a) p).
Proof.
  eexists.
  eapply (@newton_leaves_fixed_buses Cases.NF FlowCases.cfg FlowCases.yb12
            FlowCases.line12 FlowCases.buses12).
  vm_compute. reflexivity.
Defined.

Lemma slack_row_retained_witness :
  exists out,
    nth_error (Vm (o_arr out)) 0 = Some (bus_Vm FlowCases.slack1) /\
    nth_error (delta (o_arr out)) 0
      = Some (deg2rad (bus_delta FlowCases.slack1)) /\
    exists row',
      nth_error (o_busdata out) 0 = Some row' /\
      bus_no row' = bus_no FlowCases.slack1 /\ bus_kind row' = 1 /\
      bus_Vm row' = bus_Vm FlowCases.slack1 /\
      bus_delta row' = rad2deg (deg2rad (bus_delta FlowCases.slack1)).
Proof.
  eexists.
  eapply (@slack_row_retained Cases.NF FlowCases.cfg FlowCases.yb12
            FlowCases.line12 FlowCases.buses12 _ 0%nat FlowCases.slack1).
  - exact FlowCases.buses12_in_order.
  - reflexivity.
  - reflexivity.
  - vm_compute. reflexivity.
  - vm_compute. reflexivity.
Defined.

Lemma resync_by_position_witness :
  exists out,
    length (o_busdata out) = length FlowCases.buses12 /\
    forall k row, nth_error FlowCases.buses12 k = Some row ->
      exists row',
        nth_error (o_busdata out) k = Some row' /\
        bus_no row' = bus_no row /\ bus_kind row' = bus_kind row /\
        bus_Pd row' = bus_Pd row /\ bus_Qd row' = bus_Qd row /\
        bus_Pg row' = bus_Pg row /\ bus_Qg row' = bus_Qg row /\
        bus_Qmin row' = bus_Qmin row /\ bus_Qmax row' = bus_Qmax row /\
        bus_Qsh row' = bus_Qsh row /\
        ((length (Vm (o_arr out)) = length FlowCases.buses12 /\
          nth_error (Vm (o_arr out)) k = Some (bus_Vm row')) \/
         (length (Vm (o_arr out)) <> length FlowCases.buses12 /\
          Vm (o_arr out) = [bus_Vm row'])) /\
        ((length (o_deltad out) = length FlowCases.buses12 /\
          nth_error (o_deltad out) k = Some (bus_delta row')) \/
         (length (o_deltad out) <> length FlowCases.buses12 /\
          o_deltad out = [bus_delta row'])).
Proof.
  eexists.
  eapply (@resync_by_position Cases.NF FlowCases.cfg FlowCases.yb12
            FlowCases.line12 FlowCases.buses12).
  vm_compute. reflexivity.
Defined.

(** With one bus and two rows that carry its number, the arrays have one
    entry and the write-back broadcasts it: both rows end with the magnitude
    the second row set. *)
Lemma write_back_broadcasts :
  (out <- power_flow FlowCases.cfg FlowCases.loop11
            FlowCases.two_rows_one_bus ;;
   Ok (Vm (o_arr out),
       map (fun r => (bus_no r, bus_Vm r)) (o_busdata out)))
  = Ok ([rlit 102 100], [(1, rlit 102 100); (1, rlit 102 100)]).
Proof. vm_compute. reflexivity. Qed.

Lemma bus_beyond_branches_raises_witness :
  power_flow FlowCases.cfg Cases.lines13 FlowCases.buses4 = Raise IndexError.
Proof.
  apply (@bus_beyond_branches_raises Cases.NF FlowCases.cfg Cases.lines13
           (firstn 3 FlowCases.buses4)
           (FlowCases.mkbus 4 0 (rlit 1 1) (rlit 10 1) (rlit 0 1)) []).
  - discriminate.
  - repeat constructor; cbn; lia.
  - repeat constructor; cbn; lia.
  - repeat constructor.
Defined.

Lemma newton_exit_status_witness :
  exists out,
    0 <= o_iter out <= Z.max 0 (maxiter FlowCases.cfg + 1) /\
    rgeb (o_maxerror out) (accuracy FlowCases.cfg)
      && (o_iter out <=? maxiter FlowCases.cfg) = false /\
    (o_tech out = tech_converged \/
     (o_tech out = tech_diverged /\ 1 <= maxiter FlowCases.cfg <= o_iter out)) /\
    (maxiter FlowCases.cfg <= 0 -> o_tech out = tech_converged).
Proof.
  eexists.
  eapply (@newton_exit_status Cases.NF FlowCases.cfg FlowCases.yb12
            FlowCases.line12 FlowCases.buses12).
  vm_compute. reflexivity.
Defined.

(** ** More on the dispatch, and the cost of a schedule *)

Section DispatchMore.
Context `{N : Numeric}.

Lemma take_step_spec (wgt : list bool) (PP Pgg Pgg' : list real) (k : Z) :
  0 <= k ->
  take_step wgt PP Pgg k = Ok Pgg' ->
  length Pgg' = length Pgg /\
  forall p, (p <> Z.to_nat k \/ nth_error wgt p = Some false) ->
    nth_error Pgg' p = nth_error Pgg p.
Proof.
  intros Hk H. unfold take_step in H. bind_as H w Hw.
  pose proof (aget_nonneg _ _ _ Hk Hw) as Hw'.
  destruct w.
  - bind_as H x Hx. destruct (aset_nonneg _ _ _ _ Hk H) as (HL & _ & HF).
    split; [exact HL|]. intros p [Hp|Hp]; [apply HF, Hp|].
    apply HF. intros ->. congruence.
  - injection H as <-. auto.
Qed.

Lemma take_loop_spec (wgt : list bool) (PP : list real) (ks : list Z) :
  (forall k, In k ks -> 0 <= k) ->
  forall Pgg Pgg',
  for_each ks (take_step wgt PP) Pgg = Ok Pgg' ->
  length Pgg' = length Pgg /\
  forall p, nth_error wgt p = Some false ->
    nth_error Pgg' p = nth_error Pgg p.
Proof.
  intros Hks Pgg Pgg' H.
  apply (for_each_inv
           (fun a b : list real =>
              length b = length a /\
              forall p, nth_error wgt p = Some false ->
                nth_error b p = nth_error a p)) in H.
  - exact H.
  - intros; split; auto.
  - intros u v w [L1 F1] [L2 F2]. split; [congruence|].
    intros p Hp. rewrite (F2 p Hp). auto.
  - intros k u u' Hk Hu.
    destruct (take_step_spec _ _ _ _ _ (Hks k Hk) Hu) as [HL HF].
    split; [exact HL|]. intros p Hp. apply HF. auto.
Qed.

(** What one generator's schedule and weight may become in the limit check. *)
Definition clamp_rel (e : denv) (s s' : list real * list bool) : Prop :=
  length (fst s') = length (fst s) /\ length (snd s') = length (snd s) /\
  forall p,
    (nth_error (snd s) p = Some false -> nth_error (snd s') p = Some false) /\
    (nth_error (fst s') p = nth_error (fst s) p \/
     (nth_error (snd s') p = Some false /\
      (nth_error (fst s') p = nth_error (de_Pmax e) p \/
       nth_error (fst s') p = nth_error (de_Pmin e) p))).

Lemma clamp_step_rel (e : denv) (D : real) (s s' : list real * list bool)
  (k : Z) :
  0 <= k -> clamp_step e D s k = Ok s' -> clamp_rel e s s'.
Proof.
  intros Hk H. destruct s as [Pgg wgt]. unfold clamp_step in H.
  bind_as H Pk HPk. bind_as H Pmaxk HPmax.
  pose proof (aget_nonneg _ _ _ Hk HPmax) as Emax.
  destruct (rgtb Pk Pmaxk && _).
  - bind_as H Pgg1 HP1. bind_as H wgt1 HW1. injection H as <-.
    destruct (aset_nonneg _ _ _ _ Hk HP1) as (LP & EP & FP).
    destruct (aset_nonneg _ _ _ _ Hk HW1) as (LW & EW & FW).
    split; [exact LP|]. split; [exact LW|]. cbn [fst snd]. intros p.
    destruct (Nat.eq_dec p (Z.to_nat k)) as [->|Hne].
    + split; [intros _; exact EW|]. right. split; [exact EW|].
      left. congruence.
    + rewrite (FP p Hne), (FW p Hne). auto.
  - bind_as H Pmink HPmin.
    pose proof (aget_nonneg _ _ _ Hk HPmin) as Emin.
    destruct (rltb Pk Pmink && _).
    + bind_as H Pgg1 HP1. bind_as H wgt1 HW1. injection H as <-.
      destruct (aset_nonneg _ _ _ _ Hk HP1) as (LP & EP & FP).
      destruct (aset_nonneg _ _ _ _ Hk HW1) as (LW & EW & FW).
      split; [exact LP|]. split; [exact LW|]. cbn [fst snd]. intros p.
      destruct (Nat.eq_dec p (Z.to_nat k)) as [->|Hne].
      * split; [intros _; exact EW|]. right. split; [exact EW|].
        right. congruence.
      * rewrite (FP p Hne), (FW p Hne). auto.
    + injection H as <-. split; [reflexivity|]. split; [reflexivity|].
      intros p. auto.
Qed.

Lemma clamp_rel_refl (e : denv) (s : list real * list bool) : clamp_rel e s s.
Proof. split; [reflexivity|]. split; [reflexivity|]. intros p. auto. Qed.

Lemma clamp_rel_trans (e : denv) (a b c : list real * list bool) :
  clamp_rel e a b -> clamp_rel e b c -> clamp_rel e a c.
Proof.
  intros (L1 & M1 & H1) (L2 & M2 & H2).
  split; [congruence|]. split; [congruence|]. intros p.
  destruct (H1 p) as [W1 V1], (H2 p) as [W2 V2]. split; [auto|].
  destruct V2 as [E2|(F2 & V2)].
  - rewrite E2. destruct V1 as [E1|(F1 & V1)]; [left; exact E1|].
    right. split; [auto|exact V1].
  - right. split; assumption.
Qed.

(** A pass of the lambda iteration never reactivates a clamped generator,
    and leaves its schedule where it was or at one of its two limits. *)
Lemma dispatch_pass_clamped (e : denv) (s s' : dloop) :
  dispatch_pass e s = Ok s' ->
  length (d_Pgg s') = length (d_Pgg s) /\
  length (d_wgt s') = length (d_wgt s) /\
  forall p, nth_error (d_wgt s) p = Some false ->
    nth_error (d_wgt s') p = Some false /\
    (nth_error (d_Pgg s') p = nth_error (d_Pgg s) p \/
     nth_error (d_Pgg s') p = nth_error (de_Pmax e) p \/
     nth_error (d_Pgg s') p = nth_error (de_Pmin e) p).
Proof.
  intros H. unfold dispatch_pass in H.
  bind_as H ED HED. bind_as H PP HPP. bind_as H Pgg1 HP1.
  bind_as H PL1 HPL1. bind_as H Pw HPw. destruct Pw as [Pgg2 wgt2].
  bind_as H PL2 HPL2. bind_as H grad Hgrad. bind_as H sumgrad Hsg.
  injection H as <-. cbn [d_Pgg d_wgt].
  assert (Hks : forall k, In k (zrange 0 (de_ngg e)) -> 0 <= k).
  { intros k Hk. apply zrange_nonneg in Hk; lia. }
  destruct (take_loop_spec _ _ _ Hks _ _ HP1) as [LT FT].
  apply (for_each_inv (clamp_rel e) _ _ (clamp_rel_refl e) (clamp_rel_trans e))
    in HPw.
  2:{ intros k u u' Hk Hu. eapply clamp_step_rel; eauto. }
  destruct HPw as (LC & LW & HC). cbn [fst snd] in *.
  split; [congruence|]. split; [exact LW|].
  intros p Hp. destruct (HC p) as [HW HV]. split; [auto|].
  rewrite <- (FT p Hp). tauto.
Qed.

Lemma dispatch_pass_iterp (e : denv) (s s' : dloop) :
  dispatch_pass e s = Ok s' -> d_iterp s' = d_iterp s + 1.
Proof. intros H. apply dispatch_pass_within in H. tauto. Qed.

Lemma dispatch_loop_spec (e : denv) (k : nat) : forall s s',
  dispatch_loop e k s = Ok s' ->
  d_iterp s <= d_iterp s' <= d_iterp s + Z.of_nat k /\
  (200 <= d_iterp s + Z.of_nat k ->
   rgeb (rabs (d_DelP s')) (rlit 1 10000) && (d_iterp s' <? 200) = false) /\
  length (d_Pgg s') = length (d_Pgg s) /\
  forall p, nth_error (d_wgt s) p = Some false ->
    nth_error (d_wgt s') p = Some false /\
    (nth_error (d_Pgg s') p = nth_error (d_Pgg s) p \/
     nth_error (d_Pgg s') p = nth_error (de_Pmax e) p \/
     nth_error (d_Pgg s') p = nth_error (de_Pmin e) p).
Proof.
  induction k as [|k IH]; intros s s' H; cbn [dispatch_loop] in H.
  - destruct (_ && _) eqn:T in H; injection H as <-.
    + split; [lia|]. split; [|split; auto].
      intros Hk. apply andb_true_iff in T. destruct T as [_ T].
      apply Z.ltb_lt in T. lia.
    + split; [lia|]. split; [auto|]. split; auto.
  - destruct (_ && _) eqn:T in H.
    + bind_as H s1 H1. pose proof (dispatch_pass_iterp _ _ _ H1) as Hi.
      destruct (dispatch_pass_clamped _ _ _ H1) as (L1 & _ & C1).
      destruct (IH _ _ H) as (Hb & Hex & L2 & C2).
      split; [lia|]. split; [intros Hk; apply Hex; lia|].
      split; [congruence|].
      intros p Hp. destruct (C1 p Hp) as [W1 V1].
      destruct (C2 p W1) as [W2 V2]. split; [exact W2|].
      destruct V2 as [->|V2]; [exact V1|tauto].
    + injection H as <-. split; [lia|]. split; [auto|]. split; auto.
Qed.

End DispatchMore.

Section Gencost.
Context `{N : Numeric}.

(** [cost[i, :] . (1, P, P**2)] for one generator. *)
Definition unit_cost (c : cost_row) (p : real) : result real :=
  dot [c_alpha c; c_beta c; c_gama c] [r1; p; rsq p].

(** [gencost(Pgg, cost)]: [None] for an argument left out; the result is
    [None] after either of the two diagnostics. *)
Definition gencost (s : psys) (Pgg_arg : option (list real))
  (cost_arg : option (list cost_row)) : result (option real) :=
  match (match Pgg_arg with Some p => Some p | None => ps_Pgg s end) with
  | None => Ok None
  | Some Pgg =>
      match cost_arg with
      | None => Ok None
      | Some cost =>
          let ngg := length cost in
          if (length Pgg =? ngg)%nat then
            costv <- for_each (zrange 0 ngg)
                       (fun cv i =>
                          c <- aget cost i ;;
                          p <- aget Pgg i ;;
                          x <- unit_cost c p ;;
                          aset cv i x)
                       (zeros r0 ngg) ;;
            Ok (Some (rsum costv))
          else Raise ValueError
      end
  end.

(** What [np.dot] gives for one generator: the product of its row of the
    cost table and the column [(1, P, P**2)]. *)
Definition cost_term (cp : cost_row * real) : real :=
  let '(c, p) := cp in
  vdot [c_alpha c; c_beta c; c_gama c] [r1; p; rsq p].

Lemma aget_in_range {A : Type} (l : list A) (i : nat) (x : A) :
  nth_error l i = Some x -> aget l (Z.of_nat i) = Ok x.
Proof.
  intros H. assert (i < length l)%nat by (apply nth_error_Some; congruence).
  unfold aget, py_idx.
  destruct (Z.leb_spec 0 (Z.of_nat i)); [|lia].
  destruct (Z.ltb_spec (Z.of_nat i) (Z.of_nat (length l))); [|lia].
  rewrite Nat2Z.id, H. reflexivity.
Qed.

Lemma aset_in_range {A : Type} (l : list A) (i : nat) (v : A) :
  (i < length l)%nat -> exists l', aset l (Z.of_nat i) v = Ok l'.
Proof.
  intros H. unfold aset, py_idx.
  destruct (Z.leb_spec 0 (Z.of_nat i)); [|lia].
  destruct (Z.ltb_spec (Z.of_nat i) (Z.of_nat (length l))); [|lia].
  eauto.
Qed.

Lemma costv_loop (cost : list cost_row) (Pgg : list real) (cnt : nat) :
  length Pgg = length cost ->
  forall lo cv,
  (lo + cnt <= length cost)%nat ->
  length cv = length cost ->
  exists cv',
    for_each (zrange (Z.of_nat lo) cnt)
      (fun cv i =>
         c <- aget cost i ;; p <- aget Pgg i ;; x <- unit_cost c p ;;
         aset cv i x) cv = Ok cv' /\
    length cv' = length cost /\
    forall q,
      nth_error cv' q =
        if (lo <=? q)%nat && (q <? lo + cnt)%nat
        then nth_error (map cost_term (combine cost Pgg)) q
        else nth_error cv q.
Proof.
  intros HL. induction cnt as [|cnt IH]; intros lo cv Hlo Hcv.
  - exists cv. cbn [zrange for_each]. split; [reflexivity|]. split; [exact Hcv|].
    intros q. destruct (Nat.leb_spec lo q), (Nat.ltb_spec q (lo + 0));
      cbn; try reflexivity; lia.
  - cbn [zrange for_each].
    destruct (nth_error cost lo) as [c|] eqn:Ec.
    2:{ apply nth_error_None in Ec. lia. }
    destruct (nth_error Pgg lo) as [p|] eqn:Ep.
    2:{ apply nth_error_None in Ep. lia. }
    rewrite (aget_in_range _ _ _ Ec). cbn [bind].
    rewrite (aget_in_range _ _ _ Ep). cbn [bind].
    unfold unit_cost at 1, dot at 1. cbn [length Nat.eqb bind].
    destruct (aset_in_range cv lo (cost_term (c, p)) ltac:(lia)) as [cv1 E1].
    unfold cost_term in E1 at 1. rewrite E1. cbn [bind].
    destruct (aset_nonneg _ _ _ _ (Nat2Z.is_nonneg lo) E1) as (L1 & At1 & F1).
    rewrite Nat2Z.id in At1, F1.
    replace (Z.of_nat lo + 1) with (Z.of_nat (S lo)) by lia.
    destruct (IH (S lo) cv1 ltac:(lia) ltac:(congruence)) as (cv' & E & L' & H').
    exists cv'. split; [exact E|]. split; [exact L'|].
    intros q. rewrite (H' q).
    destruct (Nat.eq_dec q lo) as [->|Hne].
    + destruct (Nat.leb_spec (S lo) lo); [lia|]. cbn [andb].
      destruct (Nat.leb_spec lo lo); [|lia].
      destruct (Nat.ltb_spec lo (lo + S cnt)); [|lia]. cbn [andb].
      rewrite At1. symmetry. rewrite nth_error_map.
      assert (Ecb : nth_error (combine cost Pgg) lo = Some (c, p)).
      { clear -Ec Ep. revert cost Pgg Ec Ep.
        induction lo as [|lo IHlo]; intros [|c0 cs] [|p0 ps] Hc Hp;
          cbn in *; try discriminate; try congruence.
        apply IHlo; assumption. }
      rewrite Ecb. reflexivity.
    + rewrite (F1 q Hne).
      destruct (Nat.leb_spec (S lo) q), (Nat.leb_spec lo q),
        (Nat.ltb_spec q (S lo + cnt)), (Nat.ltb_spec q (lo + S cnt));
        cbn [andb]; try reflexivity; lia.
Qed.

(** The loop over the generators fills [costv] with one [np.dot] each. *)
Lemma costv_filled (cost : list cost_row) (Pgg : list real) :
  length Pgg = length cost ->
  for_each (zrange 0 (length cost))
    (fun cv i =>
       c <- aget cost i ;; p <- aget Pgg i ;; x <- unit_cost c p ;;
       aset cv i x) (zeros r0 (length cost))
  = Ok (map cost_term (combine cost Pgg)).
Proof.
  intros HL.
  destruct (costv_loop cost Pgg (length cost) HL 0 (zeros r0 (length cost))
              ltac:(lia) ltac:(apply repeat_length)) as (cv & E & L & H).
  cbn [Z.of_nat] in E. rewrite E. f_equal.
  apply nth_error_ext. intros q. rewrite (H q).
  destruct (Nat.ltb_spec q (0 + length cost)); cbn [Nat.leb andb]; [reflexivity|].
  symmetry. transitivity (@None real).
  - apply nth_error_None. rewrite length_map, length_combine. lia.
  - symmetry. apply nth_error_None. unfold zeros. rewrite repeat_length. lia.
Qed.

End Gencost.

(** X9. [gencost] with both arguments given: when the schedule has one entry
    per row of the cost table, the result is [np.sum] of the array that
    holds, for each generator in table order, [np.dot] of its cost row
    [(alpha, beta, gama)] and [(1, P, P**2)], each as NumPy computes it;
    otherwise stacking the three rows raises [ValueError]. *)
Theorem gencost_value `{N : Numeric} (s : psys) (Pgg : list real)
  (cost : list cost_row) :
  gencost s (Some Pgg) (Some cost) =
    if (length Pgg =? length cost)%nat
    then Ok (Some (rsum (map cost_term (combine cost Pgg))))
    else Raise ValueError.
Proof.
  unfold gencost.
  destruct (Nat.eqb_spec (length Pgg) (length cost)) as [HL|HL]; [|reflexivity].
  rewrite (costv_filled cost Pgg HL). reflexivity.
Qed.

(** A call that returns a schedule has stored it, one entry per row of the
    cost table. *)
Lemma dispatch_stores_schedule `{N : Numeric} (s s' : psys)
  (args : dispatch_args) (cost : list cost_row) (Pgg : list real)
  (lam PL : real) :
  dispatch s args = Ok (s', Schedule Pgg lam PL) ->
  arg_cost args = Some cost ->
  length Pgg = length cost /\ ps_Pgg s' = Some Pgg.
Proof.
  intros H Hc. unfold dispatch in H. rewrite Hc in H.
  destruct (rgtb _ _) in H; [discriminate|].
  destruct (rltb _ _) in H; [discriminate|].
  bind_as H lam0 Hl. bind_as H fin Hf.
  destruct (Z.eqb_spec (d_iterp fin) 0) as [|Hit]; [discriminate|].
  bind_as H bd Hbd. injection H as <- <- <- <-.
  destruct (dispatch_loop_spec _ _ _ _ Hf) as (_ & _ & HL & _).
  cbn [dloop_init d_Pgg] in HL.
  split; [rewrite HL; apply repeat_length|reflexivity].
Qed.

(** X10. A call of [dispatch] that returns a schedule has made between 1 and
    200 passes and stopped with the loop test false (residual below 0.0001 or
    200 passes made); the schedule has one entry per row of the cost table
    and is what the call stores in [self.Pgg], with [self.lambda_] the
    returned lambda. *)
Theorem dispatch_returns `{N : Numeric} (s s' : psys) (args : dispatch_args)
  (Pgg : list real) (lam PL : real) :
  dispatch s args = Ok (s', Schedule Pgg lam PL) ->
  exists cost lam0 fin,
    arg_cost args = Some cost /\
    lambda0 s cost = Ok lam0 /\
    dispatch_loop (denv_of s args cost) 200 (dloop_init (length cost) lam0)
      = Ok fin /\
    Pgg = d_Pgg fin /\ lam = d_lambda fin /\ PL = d_PL fin /\
    1 <= d_iterp fin <= 200 /\
    rgeb (rabs (d_DelP fin)) (rlit 1 10000) && (d_iterp fin <? 200) = false /\
    length Pgg = length cost /\
    ps_Pgg s' = Some Pgg /\ ps_lambda s' = Some lam.
Proof.
  intros H. unfold dispatch in H.
  destruct (arg_cost args) as [cost|] eqn:Hc; [|discriminate].
  destruct (rgtb _ _) in H; [discriminate|].
  destruct (rltb _ _) in H; [discriminate|].
  bind_as H lam0 Hl. bind_as H fin Hf.
  destruct (Z.eqb_spec (d_iterp fin) 0) as [|Hit]; [discriminate|].
  bind_as H bd Hbd. injection H as <- <- <- <-.
  destruct (dispatch_loop_spec _ _ _ _ Hf) as (Hb & Hex & HL & _).
  cbn [dloop_init d_iterp d_Pgg] in Hb, Hex, HL.
  exists cost, lam0, fin. repeat (split; [first [reflexivity|assumption]|]).
  split; [lia|]. split; [apply Hex; lia|].
  split; [rewrite HL; apply repeat_length|]. cbn. auto.
Qed.

(** X11. After a call of [dispatch] that returned a schedule, [gencost] called
    with the same cost table and no schedule argument finds the stored
    schedule, raises nothing and returns what it returns when handed the
    returned schedule itself: [np.sum] of the per-generator [np.dot] of the
    cost row and [(1, P, P**2)]. *)
Theorem gencost_after_dispatch `{N : Numeric} (s s' : psys)
  (args : dispatch_args) (cost : list cost_row) (Pgg : list real)
  (lam PL : real) :
  dispatch s args = Ok (s', Schedule Pgg lam PL) ->
  arg_cost args = Some cost ->
  gencost s' None (Some cost)
  = Ok (Some (rsum (map cost_term (combine cost Pgg)))).
Proof.
  intros H Hc.
  destruct (dispatch_stores_schedule _ _ _ _ _ _ _ H Hc) as [HL HP].
  unfold gencost. rewrite HP.
  destruct (Nat.eqb_spec (length Pgg) (length cost)) as [_|Hne];
    [|contradiction].
  rewrite (costv_filled cost Pgg HL). reflexivity.
Qed.

(** X12. Within one call of [dispatch], a generator whose weight is 0 at some
    point of the lambda iteration has weight 0 from then on, and its schedule
    stays where it was or sits at one of its two limits: the result of the
    linear solve is never taken for it again. *)
Theorem clamped_generator_stays_clamped `{N : Numeric} (e : denv) (k : nat)
  (s s' : dloop) (p : nat) :
  dispatch_loop e k s = Ok s' ->
  nth_error (d_wgt s) p = Some false ->
  nth_error (d_wgt s') p = Some false /\
  (nth_error (d_Pgg s') p = nth_error (d_Pgg s) p \/
   nth_error (d_Pgg s') p = nth_error (de_Pmax e) p \/
   nth_error (d_Pgg s') p = nth_error (de_Pmin e) p).
Proof.
  intros H Hp. destruct (dispatch_loop_spec _ _ _ _ H) as (_ & _ & _ & HC).
  exact (HC p Hp).
Qed.

Section SyncPg.
Context `{N : Numeric}.

Lemma sync_Pg_spec (kbs : option (list Z)) (Pgg : list real)
  (rows : list bus) : forall ng rows',
  sync_Pg kbs Pgg ng rows = Ok rows' ->
  length rows' = length rows /\
  forall k row, nth_error rows k = Some row ->
    exists row', nth_error rows' k = Some row' /\
      (row' = row \/ exists p, In p Pgg /\ row' = set_Pg row p).
Proof.
  induction rows as [|b t IH]; intros ng rows' H; cbn [sync_Pg] in H.
  - injection H as <-. split; [reflexivity|]. intros [|k] row Hr; discriminate.
  - bind_as H isgen Hg.
    assert (Hcons : forall ng' b' t', sync_Pg kbs Pgg ng' t = Ok t' ->
              (b' = b \/ exists p, In p Pgg /\ b' = set_Pg b p) ->
              length (b' :: t') = length (b :: t) /\
              forall k row, nth_error (b :: t) k = Some row ->
                exists row', nth_error (b' :: t') k = Some row' /\
                  (row' = row \/ exists p, In p Pgg /\ row' = set_Pg row p)).
    { intros ng' b' t' Ht Hb'. destruct (IH _ _ Ht) as [L R].
      split; [cbn; congruence|]. intros [|k] row Hr; cbn in Hr.
      - injection Hr as <-. exists b'. split; [reflexivity|exact Hb'].
      - apply R. exact Hr. }
    destruct isgen.
    + destruct (nth_error Pgg ng) as [p|] eqn:Ep.
      * bind_as H t' Ht. injection H as <-.
        apply (Hcons _ _ _ Ht). right. exists p. split; [|reflexivity].
        eapply nth_error_In; eauto.
      * bind_as H t' Ht. injection H as <-. apply (Hcons _ _ _ Ht). auto.
    + bind_as H t' Ht. injection H as <-. apply (Hcons _ _ _ Ht). auto.
Qed.

End SyncPg.

(** X13. Whatever it returns, [dispatch] leaves [kb], [self.Pg], [nbus],
    [Pdt] and [basemva] as they were; of the bus table it keeps the number of
    rows, and each row is unchanged or differs in its [Pg] column only, which
    then holds an entry of the returned schedule. *)
Theorem dispatch_touches_only_Pg_column `{N : Numeric} (s s' : psys)
  (args : dispatch_args) (r : dispatch_ret) :
  dispatch s args = Ok (s', r) ->
  ps_kb s' = ps_kb s /\ ps_Pg s' = ps_Pg s /\ ps_nbus s' = ps_nbus s /\
  ps_Pdt s' = ps_Pdt s /\ ps_basemva s' = ps_basemva s /\
  match ps_busdata s with
  | None => ps_busdata s' = None
  | Some rows =>
      exists rows', ps_busdata s' = Some rows' /\
        length rows' = length rows /\
        forall k row, nth_error rows k = Some row ->
          exists row', nth_error rows' k = Some row' /\
            (row' = row \/
             exists Pgg lam PL p,
               r = Schedule Pgg lam PL /\ In p Pgg /\ row' = set_Pg row p)
  end.
Proof.
  intros H. unfold dispatch in H.
  assert (Hsame : forall s0 : psys, ps_busdata s0 = ps_busdata s ->
            match ps_busdata s with
            | None => ps_busdata s0 = None
            | Some rows =>
                exists rows', ps_busdata s0 = Some rows' /\
                  length rows' = length rows /\
                  forall k row, nth_error rows k = Some row ->
                    exists row', nth_error rows' k = Some row' /\
                      (row' = row \/
                       exists Pgg lam PL p,
                         r = Schedule Pgg lam PL /\ In p Pgg /\
                         row' = set_Pg row p)
            end).
  { intros s0 E. destruct (ps_busdata s) as [rows|]; [|exact E].
    exists rows. split; [exact E|]. split; [reflexivity|]. eauto. }
  destruct (arg_cost args) as [cost|].
  2:{ injection H as <- <-. repeat (split; [reflexivity|]). apply Hsame.
      reflexivity. }
  destruct (rgtb _ _) in H.
  { injection H as <- <-. repeat (split; [reflexivity|]). apply Hsame.
    reflexivity. }
  destruct (rltb _ _) in H.
  { injection H as <- <-. repeat (split; [reflexivity|]). apply Hsame.
    reflexivity. }
  clear Hsame. bind_as H lam0 Hl. bind_as H fin Hf.
  destruct (d_iterp fin =? 0); [discriminate|].
  bind_as H bd Hbd. injection H as <- <-. cbn.
  repeat (split; [reflexivity|]).
  destruct (ps_busdata s) as [rows|].
  - bind_as Hbd rows' Hr. bind_as Hbd u Hu. injection Hbd as <-.
    destruct (sync_Pg_spec _ _ _ _ _ Hr) as [L R].
    exists rows'. split; [reflexivity|]. split; [exact L|].
    intros k row Hrow. destruct (R k row Hrow) as (row' & E & [->|(p & Hp & ->)]).
    + exists row. auto.
    + exists (set_Pg row p). split; [exact E|]. right.
      exists (d_Pgg fin), (d_lambda fin), (d_PL fin), p. auto.
  - injection Hbd as <-. reflexivity.
Qed.

(** X14. With a bus table in bus-number order, an ingest that succeeds
    leaves, at the position of each row, the row's kind; the row's [Vm], or
    1.0 when that is not positive; and as angle the radian conversion of the
    row's angle, or, when [Vm] is not positive, the angle exactly as the
    table gives it (degrees, unconverted). The arrays keep the length
    [nbus]. *)
Theorem ingest_in_bus_order `{N : Numeric} (bm : real) (n : nat)
  (rows : list bus) (a : arrays) (k : nat) (row : bus) :
  in_bus_order 0 rows ->
  ingest bm n rows = Ok a ->
  nth_error rows k = Some row ->
  nth_error (kb a) k = Some (bus_kind row) /\
  nth_error (Vm a) k
    = Some (if rleb (bus_Vm row) r0 then r1 else bus_Vm row) /\
  nth_error (delta a) k
    = Some (if rleb (bus_Vm row) r0 then bus_delta row
            else deg2rad (bus_delta row)) /\
  length (kb a) = n /\ length (Vm a) = n /\ length (delta a) = n.
Proof.
  intros Hord Ha Hrow. unfold ingest in Ha.
  destruct (ingest_loop_ordered _ _ 0 _ _ Hord Ha) as [_ Hrows].
  destruct (Hrows k row Hrow) as (Hk & Hv & Hd & _).
  destruct (ingest_loop_length _ _ _ _ Ha) as (Lk & Lv & Ld & _).
  cbn [Nat.add init_arrays kb Vm delta] in *.
  unfold zeros in *. rewrite repeat_length in Lk, Lv, Ld.
  repeat split; assumption.
Qed.

(** X15. For any branch table whose bus numbers start at 1, self-loops
    included, [lfybus] succeeds, [nbus] is the largest bus number among the
    endpoints of the branches, [Ybus] has [nbus] rows of [nbus] entries, and
    each of these entries is as follows: an off-diagonal entry is the in-order sum of [- y/a] over the branches
    between the two buses, and the diagonal entry of bus [i] starts from the
    sum of [- y/a] over the self-loops at [i] and then receives, for each
    branch, [y/a**2 + Bc] if it leaves [i] and otherwise [y + Bc] if it
    arrives at [i], so that a self-loop contributes its from-side term
    only. *)
Theorem lfybus_with_self_loops `{N : Numeric} (lines : list branch) :
  lines <> [] ->
  numbered_from_one lines ->
  exists out, lfybus lines = Ok out /\
    In (nbus out) (endpoints lines) /\
    Forall (fun e => e <= nbus out) (endpoints lines) /\
    length (Ybus out) = Z.to_nat (nbus out) /\
    Forall (fun row => length row = Z.to_nat (nbus out)) (Ybus out) /\
    forall i j, 1 <= i <= nbus out -> 1 <= j <= nbus out ->
      mget (Z.to_nat (nbus out)) (Ybus out) (i - 1) (j - 1) =
        Ok (if i =? j
            then fold_left (diag_acc i) lines
                   (fold_left (off_acc i i) lines czero)
            else fold_left (off_acc i j) lines czero).
Proof.
  intros Hne Hnum.
  destruct (lfybus_entries lines Hne Hnum)
    as (out & E & Hnb & Hin & Hle & HS & HE).
  exists out. split; [exact E|].
  split; [exact Hin|]. split; [exact Hle|].
  split; [exact (proj1 HS)|]. split; [exact (proj2 HS)|].
  intros i j Hi Hj.
  rewrite mget_entry by (try exact HS; rewrite Z2Nat.id; lia).
  rewrite (HE i j Hi Hj). reflexivity.
Qed.

Module SolvedCase.

#[local] Existing Instance Cases.NF.

(** An object after a power flow on a slack bus and a load bus. *)
Definition solved : psys :=
  {| ps_basemva := rlit 100 1; ps_B := None; ps_B0 := None; ps_B00 := None;
     ps_lambda := None; ps_Pgg := None;
     ps_busdata :=
       Some [ FlowCases.slack1;
              FlowCases.mkbus 2 0 (rlit 1 1) (rlit 50 1) (rlit 0 1) ];
     ps_Pg := Some [rlit 51 1; rlit 0 1];
     ps_kb := Some [1; 0]; ps_nbus := 2; ps_Pdt := rlit 50 1 |}.

(** The cost table of [DispatchCases.args_ok]. *)
Definition cost_ok : list cost_row :=
  DispatchCases.cost_of DispatchCases.args_ok.

(** A state of the lambda iteration in which the generator is clamped. *)
Definition clamped : dloop :=
  {| d_wgt := [false]; d_lambda := rlit 7 1; d_iterp := 0;
     d_DelP := rlit 10 1; d_Pgg := [rlit 100 1]; d_PL := rlit 0 1;
     d_clamp_DelP := rlit 10 1 |}.

(** The second row of [FlowCases.buses12]. *)
Definition pv2 : bus :=
  FlowCases.mkbus 2 2 (rlit 105 100) (rlit 20 1) (rlit 20 1).

(** A branch from bus 1 to itself beside the line 1-2. *)
Definition lines_loop : list branch := FlowCases.loop11 ++ FlowCases.line12.

End SolvedCase.

Lemma dispatch_returns_witness :
  exists s' Pgg lam PL cost lam0 fin,
    arg_cost DispatchCases.args_ok = Some cost /\
    lambda0 SolvedCase.solved cost = Ok lam0 /\
    dispatch_loop (denv_of SolvedCase.solved DispatchCases.args_ok cost) 200
      (dloop_init (length cost) lam0) = Ok fin /\
    Pgg = d_Pgg fin /\ lam = d_lambda fin /\ PL = d_PL fin /\
    1 <= d_iterp fin <= 200 /\
    rgeb (rabs (d_DelP fin)) (rlit 1 10000) && (d_iterp fin <? 200) = false /\
    length Pgg = length cost /\
    ps_Pgg s' = Some Pgg /\ ps_lambda s' = Some lam.
Proof.
  do 4 eexists.
  eapply (@dispatch_returns Cases.NF SolvedCase.solved _
            DispatchCases.args_ok).
  vm_compute. reflexivity.
Defined.

Lemma gencost_after_dispatch_witness :
  exists s' Pgg,
    gencost s' None (Some SolvedCase.cost_ok)
    = Ok (Some (rsum (map cost_term (combine SolvedCase.cost_ok Pgg)))).
Proof.
  do 2 eexists.
  eapply (@gencost_after_dispatch Cases.NF SolvedCase.solved _
            DispatchCases.args_ok).
  - vm_compute. reflexivity.
  - reflexivity.
Defined.

Lemma clamped_generator_stays_clamped_witness :
  exists s',
    nth_error (d_wgt s') 0 = Some false /\
    (nth_error (d_Pgg s') 0 = nth_error (d_Pgg SolvedCase.clamped) 0 \/
     nth_error (d_Pgg s') 0
       = nth_error (de_Pmax (denv_of SolvedCase.solved DispatchCases.args_ok
                               SolvedCase.cost_ok)) 0 \/
     nth_error (d_Pgg s') 0
       = nth_error (de_Pmin (denv_of SolvedCase.solved DispatchCases.args_ok
                               SolvedCase.cost_ok)) 0).
Proof.
  eexists.
  eapply (@clamped_generator_stays_clamped Cases.NF
            (denv_of SolvedCase.solved DispatchCases.args_ok SolvedCase.cost_ok)
            200 SolvedCase.clamped).
  - vm_compute. reflexivity.
  - reflexivity.
Defined.

Lemma dispatch_touches_only_Pg_column_witness :
  exists s' r,
    ps_kb s' = ps_kb SolvedCase.solved /\
    ps_Pg s' = ps_Pg SolvedCase.solved /\
    ps_nbus s' = ps_nbus SolvedCase.solved /\
    ps_Pdt s' = ps_Pdt SolvedCase.solved /\
    ps_basemva s' = ps_basemva SolvedCase.solved /\
    match ps_busdata SolvedCase.solved with
    | None => ps_busdata s' = None
    | Some rows =>
        exists rows', ps_busdata s' = Some rows' /\
          length rows' = length rows /\
          forall k row, nth_error rows k = Some row ->
            exists row', nth_error rows' k = Some row' /\
              (row' = row \/
               exists Pgg lam PL p,
                 r = Schedule Pgg lam PL /\ In p Pgg /\ row' = set_Pg row p)
    end.
Proof.
  do 2 eexists.
  eapply (@dispatch_touches_only_Pg_column Cases.NF SolvedCase.solved _
            DispatchCases.args_ok).
  vm_compute. reflexivity.
Defined.

Lemma ingest_in_bus_order_witness :
  exists a,
    nth_error (kb a) 1 = Some (bus_kind SolvedCase.pv2) /\
    nth_error (Vm a) 1
      = Some (if rleb (bus_Vm SolvedCase.pv2) r0 then r1
              else bus_Vm SolvedCase.pv2) /\
    nth_error (delta a) 1
      = Some (if rleb (bus_Vm SolvedCase.pv2) r0
              then bus_delta SolvedCase.pv2
              else deg2rad (bus_delta SolvedCase.pv2)) /\
    length (kb a) = 2%nat /\ length (Vm a) = 2%nat /\
    length (delta a) = 2%nat.
Proof.
  eexists.
  eapply (@ingest_in_bus_order Cases.NF (basemva FlowCases.cfg) 2
            FlowCases.buses12 _ 1%nat SolvedCase.pv2).
  - exact FlowCases.buses12_in_order.
  - vm_compute. reflexivity.
  - reflexivity.
Defined.

Lemma lfybus_with_self_loops_witness :
  exists out, lfybus SolvedCase.lines_loop = Ok out /\
    In (nbus out) (endpoints SolvedCase.lines_loop) /\
    Forall (fun e => e <= nbus out) (endpoints SolvedCase.lines_loop) /\
    length (Ybus out) = Z.to_nat (nbus out) /\
    Forall (fun row => length row = Z.to_nat (nbus out)) (Ybus out) /\
    forall i j, 1 <= i <= nbus out -> 1 <= j <= nbus out ->
      mget (Z.to_nat (nbus out)) (Ybus out) (i - 1) (j - 1) =
        Ok (if i =? j
            then fold_left (diag_acc i) SolvedCase.lines_loop
                   (fold_left (off_acc i i) SolvedCase.lines_loop czero)
            else fold_left (off_acc i j) SolvedCase.lines_loop czero).
Proof.
  apply (@lfybus_with_self_loops Cases.NF SolvedCase.lines_loop).
  - discriminate.
  - repeat constructor; cbn; lia.
Defined.

(** ** The nudge window and the generation lists *)

Section NudgeWindow.
Context `{N : Numeric}.

Lemma nudge_outside_window (e : env) (iter n : Z) (vm vm' q : list real) :
  (iter <=? 7) && (2 <? iter) = false ->
  nudge e iter n vm q = Ok vm' -> vm' = vm.
Proof.
  intros Hw H. unfold nudge in H. bind_as H Qmaxn HQ.
  destruct (negb _); [|congruence].
  bind_as H Qn HQn. bind_as H Qdn HQd. bind_as H Qshn HQs.
  rewrite Hw in H. congruence.
Qed.

Lemma sweep_step_outside_window (e : env) (iter n : Z) (dl : list real)
  (s s' : sweep) :
  (iter <=? 7) && (2 <? iter) = false ->
  sweep_step e iter dl s n = Ok s' -> sw_Vm s' = sw_Vm s.
Proof.
  intros Hw H. unfold sweep_step in H.
  bind_inv H. bind_inv H. bind_as H kbn Hkb.
  bind_inv H. bind_inv H. bind_inv H. bind_inv H. bind_inv H. bind_inv H.
  bind_inv H. bind_as H Vm2 HVm2. bind_inv H. bind_inv H.
  injection H as <-. cbn [sw_Vm].
  destruct (kbn =? 2).
  - eapply nudge_outside_window; eauto.
  - congruence.
Qed.

Lemma correct_step_load_only (e : env) (DX dl vm dl' vm' : list real) (n : Z)
  (p : nat) (k : Z) :
  0 <= n ->
  correct_step e DX (dl, vm) n = Ok (dl', vm') ->
  nth_error (e_kb e) p = Some k -> k <> 0 ->
  nth_error vm' p = nth_error vm p.
Proof.
  intros Hn H Hk Hk0. unfold correct_step in H.
  bind_inv H. bind_inv H. bind_as H kbn Hkb.
  pose proof (aget_nonneg _ _ _ Hn Hkb) as Hkbn.
  bind_as H dl1 Ha2. bind_as H vm1 Ha3. injection H as <- <-.
  destruct (kbn =? 0) eqn:E0; cbn [andb] in Ha3.
  - destruct (in_range _ _) in Ha3; [|injection Ha3 as <-; reflexivity].
    bind_inv Ha3. bind_inv Ha3.
    destruct (aset_nonneg _ _ _ _ Hn Ha3) as (_ & _ & HF). apply HF.
    intros ->. apply Z.eqb_eq in E0. congruence.
  - injection Ha3 as <-. reflexivity.
Qed.

(** The magnitude the reactive-limit step leaves for a generator bus whose
    [Qmax] is not zero, in passes 3 to 7. *)
Definition nudged (bm v q qd qsh qmin qmax : real) : real :=
  let Qgc := rsub (radd (rmul q bm) qd) qsh in
  if rltb Qgc qmin then radd v (rlit 1 100)
  else if rgtb Qgc qmax then rsub v (rlit 1 100)
  else v.

Lemma nudge_spec (e : env) (iter n : Z) (vm vm' q : list real) :
  0 <= n ->
  nudge e iter n vm q = Ok vm' ->
  exists qmax,
    nth_error (e_Qmax e) (Z.to_nat n) = Some qmax /\
    (negb (reqb qmax r0) && ((iter <=? 7) && (2 <? iter)) = false -> vm' = vm) /\
    (negb (reqb qmax r0) && ((iter <=? 7) && (2 <? iter)) = true ->
     exists v qn qd qsh qmin,
       nth_error vm (Z.to_nat n) = Some v /\
       nth_error q (Z.to_nat n) = Some qn /\
       nth_error (e_Qd e) (Z.to_nat n) = Some qd /\
       nth_error (e_Qsh e) (Z.to_nat n) = Some qsh /\
       nth_error (e_Qmin e) (Z.to_nat n) = Some qmin /\
       nth_error vm' (Z.to_nat n)
       = Some (nudged (e_basemva e) v qn qd qsh qmin qmax)).
Proof.
  intros Hn H. unfold nudge in H. bind_as H qmax HQ.
  apply (aget_nonneg _ _ _ Hn) in HQ.
  exists qmax. split; [exact HQ|].
  destruct (negb (reqb qmax r0)); cbn [andb].
  - bind_as H qn Hqn. bind_as H qd Hqd. bind_as H qsh Hqsh.
    apply (aget_nonneg _ _ _ Hn) in Hqn, Hqd, Hqsh.
    destruct ((iter <=? 7) && (2 <? iter)).
    + split; [discriminate|]. intros _.
      bind_as H qmin Hqmin. bind_as H v Hv.
      apply (aget_nonneg _ _ _ Hn) in Hqmin, Hv.
      exists v, qn, qd, qsh, qmin. repeat (split; [assumption|]).
      unfold nudged. destruct (rltb _ _).
      * destruct (aset_nonneg _ _ _ _ Hn H) as (_ & E & _). exact E.
      * destruct (rgtb _ _).
        -- destruct (aset_nonneg _ _ _ _ Hn H) as (_ & E & _). exact E.
        -- injection H as <-. exact Hv.
    + split; [|discriminate]. intros _. congruence.
  - split; [|discriminate]. intros _. congruence.
Qed.

Lemma nudge_touch (e : env) (iter n : Z) (vm vm' q : list real) (p : nat) :
  0 <= n -> nudge e iter n vm q = Ok vm' -> p <> Z.to_nat n ->
  nth_error vm' p = nth_error vm p.
Proof.
  intros Hn H Hp. apply (nudge_frame _ _ _ _ _ _ p Hn H).
  intros ->. congruence.
Qed.

(** A step of the sweep writes [Vm] and [Q] at its own bus only. *)
Lemma sweep_step_touch (e : env) (iter n : Z) (dl : list real) (s s' : sweep)
  (p : nat) :
  0 <= n ->
  sweep_step e iter dl s n = Ok s' ->
  p <> Z.to_nat n ->
  nth_error (sw_Vm s') p = nth_error (sw_Vm s) p /\
  nth_error (sw_Q s') p = nth_error (sw_Q s) p.
Proof.
  intros Hn H Hp. unfold sweep_step in H.
  bind_inv H. bind_inv H. bind_as H kbn Hkb.
  bind_inv H. bind_inv H. bind_inv H. bind_inv H.
  bind_as H P1 HP1. bind_as H Q1 HQ1. bind_as H Q2 HQ2.
  bind_as H Vm2 HVm2. bind_inv H. bind_inv H.
  injection H as <-. cbn [sw_Vm sw_Q]. split.
  - destruct (kbn =? 2).
    + apply (nudge_touch _ _ _ _ _ _ p Hn HVm2 Hp).
    + injection HVm2 as <-. reflexivity.
  - transitivity (nth_error Q1 p).
    + destruct (kbn =? 2).
      * destruct (aset_nonneg _ _ _ _ Hn HQ2) as (_ & _ & F). apply F, Hp.
      * injection HQ2 as <-. reflexivity.
    + destruct (kbn =? 1).
      * destruct (aset_nonneg _ _ _ _ Hn HQ1) as (_ & _ & F). apply F, Hp.
      * injection HQ1 as <-. reflexivity.
Qed.

(** The step of a generator bus: it stores the computed [Q] and runs the
    reactive-limit step on the magnitudes it found. *)
Lemma sweep_step_gen (e : env) (iter n : Z) (dl : list real) (s s' : sweep) :
  0 <= n ->
  sweep_step e iter dl s n = Ok s' ->
  nth_error (e_kb e) (Z.to_nat n) = Some 2 ->
  nudge e iter n (sw_Vm s) (sw_Q s') = Ok (sw_Vm s') /\
  exists v, nth_error (sw_Vm s) (Z.to_nat n) = Some v.
Proof.
  intros Hn H Hk. unfold sweep_step in H.
  bind_inv H. bind_inv H. bind_as H kbn Hkb.
  apply (aget_nonneg _ _ _ Hn) in Hkb. rewrite Hk in Hkb. injection Hkb as <-.
  bind_inv H. bind_as H Vn HVn. bind_inv H. bind_inv H.
  bind_as H P1 HP1. bind_as H Q1 HQ1. bind_as H Q2 HQ2.
  bind_as H Vm2 HVm2. bind_inv H. bind_inv H.
  injection H as <-. cbn [sw_Vm sw_Q]. cbn [Z.eqb Pos.eqb] in HVm2.
  split; [exact HVm2|].
  exists Vn. apply (aget_nonneg _ _ _ Hn HVn).
Qed.

(** The sweep over the buses, seen from one position. *)
Lemma sweep_loop_at (e : env) (iter : Z) (dl : list real) (p : nat) :
  forall cnt lo s s',
  for_each (zrange (Z.of_nat lo) cnt) (sweep_step e iter dl) s = Ok s' ->
  (~ (lo <= p < lo + cnt)%nat ->
   nth_error (sw_Vm s') p = nth_error (sw_Vm s) p /\
   nth_error (sw_Q s') p = nth_error (sw_Q s) p) /\
  ((lo <= p < lo + cnt)%nat ->
   exists s1 s2,
     sweep_step e iter dl s1 (Z.of_nat p) = Ok s2 /\
     nth_error (sw_Vm s1) p = nth_error (sw_Vm s) p /\
     nth_error (sw_Vm s') p = nth_error (sw_Vm s2) p /\
     nth_error (sw_Q s') p = nth_error (sw_Q s2) p).
Proof.
  induction cnt as [|cnt IH]; intros lo s s' H; cbn [zrange for_each] in H.
  - injection H as <-. split; [auto|lia].
  - bind_as H s1 H1.
    replace (Z.of_nat lo + 1) with (Z.of_nat (S lo)) in H by lia.
    destruct (IH (S lo) s1 s' H) as [Hout Hin].
    destruct (Nat.eq_dec p lo) as [->|Hne].
    + split; [lia|]. intros _.
      destruct Hout as [EV EQ]; [lia|].
      exists s, s1. auto.
    + pose proof (sweep_step_touch e iter (Z.of_nat lo) dl s s1 p
                    (Nat2Z.is_nonneg lo) H1) as Ht.
      rewrite Nat2Z.id in Ht. destruct (Ht Hne) as [TV TQ].
      split.
      * intros Hp. destruct Hout as [EV EQ]; [lia|].
        split; congruence.
      * intros Hp. destruct Hin as (s2 & s3 & E & A & B & C); [lia|].
        exists s2, s3. repeat split; congruence.
Qed.

End NudgeWindow.

(** X16. What one pass of the Newton-Raphson loop does to the voltage
    magnitude of a bus that is not a load bus. A bus of a kind other than 0
    and 2 keeps its magnitude, and so does a generator bus (kind 2) in a pass
    whose number is not between 3 and 7, or whose [Qmax] is zero. In passes 3
    to 7 a generator bus with [Qmax] not zero is nudged: with [Q] the
    reactive power the pass stores for it and
    [Qgc = Q * basemva + Qd - Qsh], its magnitude goes up by 0.01 when
    [Qgc < Qmin], otherwise down by 0.01 when [Qgc > Qmax], and otherwise
    stays. *)
Theorem nudge_only_in_passes_3_to_7 `{N : Numeric} (e : env)
  (s s' : iter_state) (p : nat) (k : Z) :
  iteration e s = Ok s' ->
  nth_error (e_kb e) p = Some k ->
  k <> 0 ->
  it_iter s' = it_iter s + 1 /\
  (k <> 2 \/ it_iter s' <= 2 \/ 7 < it_iter s' ->
   nth_error (it_Vm s') p = nth_error (it_Vm s) p) /\
  (k = 2 -> (p < e_n e)%nat ->
   exists v q qmax,
     nth_error (it_Vm s) p = Some v /\
     nth_error (it_Q s') p = Some q /\
     nth_error (e_Qmax e) p = Some qmax /\
     (reqb qmax r0 = true -> nth_error (it_Vm s') p = Some v) /\
     (reqb qmax r0 = false -> 3 <= it_iter s' <= 7 ->
      exists qd qsh qmin,
        nth_error (e_Qd e) p = Some qd /\
        nth_error (e_Qsh e) p = Some qsh /\
        nth_error (e_Qmin e) p = Some qmin /\
        nth_error (it_Vm s') p
        = Some (nudged (e_basemva e) v q qd qsh qmin qmax))).
Proof.
  intros H Hk Hk0.
  destruct (iteration_counts _ _ _ H) as [Hi _].
  split; [exact Hi|].
  unfold iteration in H.
  destruct (e_m e <? 0); [discriminate|].
  bind_as H sw Hsw. bind_as H DX HDX. bind_as H dv Hdv. bind_as H me Hme.
  injection H as <-. cbn [it_Vm it_Q it_iter] in *. destruct dv as [dl' vm'].
  cbn [snd].
  assert (Hcorr : nth_error vm' p = nth_error (sw_Vm sw) p).
  { apply (for_each_inv
             (fun a b : list real * list real =>
                nth_error (snd b) p = nth_error (snd a) p)) in Hdv.
    - exact Hdv.
    - reflexivity.
    - intros; congruence.
    - intros x [d0 v0] [d1 v1] Hx Hu. apply zrange_nonneg in Hx; [|lia].
      cbn [snd]. eapply correct_step_load_only; [|exact Hu|exact Hk|exact Hk0].
      lia. }
  rewrite Hcorr.
  destruct (sweep_loop_at e (it_iter s + 1) (it_delta s) p (e_n e) 0 _ _ Hsw)
    as [Hout Hin].
  cbn [sw_Vm sw_Q] in Hout, Hin.
  destruct (Nat.lt_ge_cases p (e_n e)) as [Hp|Hp].
  2:{ split; [|lia]. intros _. apply Hout. lia. }
  destruct Hin as (s1 & s2 & E & A & B & C); [lia|].
  split.
  - intros Hcase. rewrite B, <- A.
    destruct (Z.eq_dec k 2) as [->|Hk2].
    + destruct (sweep_step_gen _ _ _ _ _ _ (Nat2Z.is_nonneg p) E) as [Hn _];
        [rewrite Nat2Z.id; exact Hk|].
      f_equal. eapply nudge_outside_window; [|exact Hn].
      destruct Hcase as [Hc|Hc]; [congruence|].
      destruct (Z.leb_spec (it_iter s + 1) 7), (Z.ltb_spec 2 (it_iter s + 1));
        cbn; try reflexivity; lia.
    + clear -E Hk Hk2. unfold sweep_step in E.
      bind_inv E. bind_inv E. bind_as E kbn Hkb.
      apply (aget_nonneg _ _ _ (Nat2Z.is_nonneg p)) in Hkb.
      rewrite Nat2Z.id, Hk in Hkb. injection Hkb as <-.
      bind_inv E. bind_inv E. bind_inv E. bind_inv E. bind_inv E. bind_inv E.
      bind_inv E. bind_as E Vm2 HVm2. bind_inv E. bind_inv E.
      injection E as <-. cbn [sw_Vm].
      destruct (Z.eqb_spec k 2); [contradiction|]. congruence.
  - intros -> _.
    destruct (sweep_step_gen _ _ _ _ _ _ (Nat2Z.is_nonneg p) E) as [Hn [v Hv]];
      [rewrite Nat2Z.id; exact Hk|].
    rewrite Nat2Z.id in Hv.
    destruct (nudge_spec _ _ _ _ _ _ (Nat2Z.is_nonneg p) Hn)
      as (qmax & HQ & Hoff & Hon).
    rewrite Nat2Z.id in HQ, Hon.
    assert (Hq : exists q, nth_error (sw_Q s2) p = Some q).
    { clear -E Hk. unfold sweep_step in E.
      bind_inv E. bind_inv E. bind_as E kbn Hkb.
      apply (aget_nonneg _ _ _ (Nat2Z.is_nonneg p)) in Hkb.
      rewrite Nat2Z.id, Hk in Hkb. injection Hkb as <-.
      bind_inv E. bind_inv E. bind_inv E. bind_inv E. bind_inv E. bind_inv E.
      bind_as E Q2 HQ2. bind_inv E. bind_inv E. bind_inv E.
      injection E as <-. cbn [sw_Q]. cbn [Z.eqb Pos.eqb] in HQ2.
      destruct (aset_nonneg _ _ _ _ (Nat2Z.is_nonneg p) HQ2) as (_ & At & _).
      rewrite Nat2Z.id in At. eauto. }
    destruct Hq as [q Hq].
    exists v, q, qmax.
    split; [rewrite <- A; exact Hv|]. split; [rewrite C; exact Hq|].
    split; [exact HQ|]. split.
    + intros Hz. rewrite B, Hoff, Hv; [reflexivity|].
      rewrite Hz. reflexivity.
    + intros Hz Hw.
      destruct Hon as (v0 & qn & qd & qsh & qmin & E1 & E2 & E3 & E4 & E5 & E6).
      { rewrite Hz. cbn [negb andb].
        destruct (Z.leb_spec (it_iter s + 1) 7), (Z.ltb_spec 2 (it_iter s + 1));
          cbn; try reflexivity; lia. }
      exists qd, qsh, qmin. repeat (split; [assumption|]).
      rewrite B, E6. congruence.
Qed.

Section PostLoop.
Context `{N : Numeric}.

(** A slack or generator bus: the kinds [lfnewton] lists in [Pgg]. *)
Definition is_gen (k : Z) : bool := (k =? 1) || (k =? 2).

Lemma post_step_lengths (bm : real) (kbs : list Z)
  (vm p q pd qd qsh : list real) (s s' : post) (n : Z) :
  0 <= n ->
  post_step bm kbs vm p q pd qd qsh s n = Ok s' ->
  exists k, nth_error kbs (Z.to_nat n) = Some k /\
    length (po_Pgg s') = (length (po_Pgg s) + (if is_gen k then 1 else 0))%nat /\
    length (po_Qgg s') = (length (po_Qgg s) + (if is_gen k then 1 else 0))%nat.
Proof.
  intros Hn H. unfold post_step in H.
  bind_as H kbn Hkb. pose proof (aget_nonneg _ _ _ Hn Hkb) as Hk.
  bind_inv H. bind_inv H. bind_inv H. bind_inv H. bind_inv H. bind_inv H.
  bind_as H s1 Hs1. bind_as H yl Hyl. injection H as <-. cbn [po_Pgg po_Qgg].
  exists kbn. split; [exact Hk|]. unfold is_gen.
  destruct (kbn =? 1).
  - bind_inv Hs1. bind_inv Hs1. bind_inv Hs1. injection Hs1 as <-.
    cbn. rewrite !length_app. cbn. auto.
  - destruct (kbn =? 2).
    + bind_inv Hs1. bind_inv Hs1. bind_inv Hs1. injection Hs1 as <-.
      cbn. rewrite !length_app. cbn. auto.
    + injection Hs1 as <-. cbn. lia.
Qed.

Lemma skipn_nth_error {A : Type} (l : list A) : forall lo x,
  nth_error l lo = Some x -> skipn lo l = x :: skipn (S lo) l.
Proof.
  induction l as [|y t IH]; intros [|lo] x H; cbn in H; try discriminate.
  - injection H as ->. reflexivity.
  - cbn [skipn]. rewrite (IH lo x H). reflexivity.
Qed.

Lemma post_loop_lengths (bm : real) (kbs : list Z)
  (vm p q pd qd qsh : list real) (cnt : nat) : forall lo s s',
  for_each (zrange (Z.of_nat lo) cnt) (post_step bm kbs vm p q pd qd qsh) s
    = Ok s' ->
  length (po_Pgg s') =
    (length (po_Pgg s) + length (filter is_gen (firstn cnt (skipn lo kbs))))%nat /\
  length (po_Qgg s') =
    (length (po_Qgg s) + length (filter is_gen (firstn cnt (skipn lo kbs))))%nat.
Proof.
  induction cnt as [|cnt IH]; intros lo s s' H; cbn [zrange for_each] in H.
  - injection H as <-. cbn. lia.
  - bind_as H s1 H1.
    destruct (post_step_lengths _ _ _ _ _ _ _ _ _ _ _ (Nat2Z.is_nonneg lo) H1)
      as (k & Hk & LP & LQ).
    rewrite Nat2Z.id in Hk.
    replace (Z.of_nat lo + 1) with (Z.of_nat (S lo)) in H by lia.
    destruct (IH _ _ _ H) as [LP' LQ'].
    rewrite (skipn_nth_error _ _ _ Hk). cbn [firstn filter].
    destruct (is_gen k); cbn [length]; lia.
Qed.

End PostLoop.

(** X17. In a run of [lfnewton] that returns, [Pgg] and [Qgg] have one entry
    for each bus of kind 1 or 2 and none for the others: their length is the
    number of slack and generator buses. *)
Theorem Pgg_one_entry_per_generator `{N : Numeric} (cfg : config)
  (yb : ybus_out) (lines : list branch) (busdata : list bus) (out : lf_out) :
  lfnewton cfg yb lines busdata = Ok out ->
  length (o_Pgg out) = length (filter is_gen (kb (o_arr out))) /\
  length (o_Qgg out) = length (filter is_gen (kb (o_arr out))).
Proof.
  intros H. unfold lfnewton in H.
  destruct (Z.ltb_spec (nbus yb) 0); [discriminate|].
  bind_as H a Ha. bind_as H it Hit. bind_as H po Hpo.
  bind_as H bd1 Hbd1. bind_as H bd2 Hbd2. injection H as <-.
  cbn [o_Pgg o_Qgg o_arr kb].
  destruct (ingest_loop_length _ _ _ _ Ha) as (Lk & _).
  cbn [init_arrays kb] in Lk. unfold zeros in Lk. rewrite repeat_length in Lk.
  destruct (post_loop_lengths _ _ _ _ _ _ _ _ _ 0%nat _ _ Hpo) as [LP LQ].
  cbn [po_Pgg po_Qgg length Nat.add skipn] in LP, LQ.
  rewrite <- Lk, firstn_all in LP, LQ. auto.
Qed.

Module PassCase.

#[local] Existing Instance Cases.NF.

(** The network of [FlowCases.line12] with reactive limits 10 and 50 on the
    generator bus, solved to accuracy 0: the flat start has no mismatch, so
    the first two passes leave it as it is and the loop goes on. *)
Definition cfg0 : config :=
  {| basemva := rlit 100 1; accuracy := rlit 0 1; maxiter := 10 |}.

Definition pv_limited : bus :=
  {| bus_no := 2; bus_kind := 2; bus_Vm := rlit 105 100; bus_delta := rlit 0 1;
     bus_Pd := rlit 20 1; bus_Qd := rlit 0 1; bus_Pg := rlit 20 1;
     bus_Qg := rlit 0 1; bus_Qmin := rlit 10 1; bus_Qmax := rlit 50 1;
     bus_Qsh := rlit 0 1 |}.

Definition buses_limited : list bus := [FlowCases.slack1; pv_limited].

(** The arrays the ingest leaves. *)
Definition arrays_limited : arrays :=
  Eval vm_compute in
    match ingest (basemva cfg0) 2 buses_limited with
    | Ok a => a
    | Raise _ => init_arrays 0
    end.

Definition env_limited : env :=
  make_env cfg0 FlowCases.yb12 FlowCases.line12 arrays_limited.

(** The loop variables after the first two passes. *)
Definition after2 : iter_state :=
  Eval vm_compute in
    match while_loop env_limited 2 (newton_init arrays_limited) with
    | Ok s => s
    | Raise _ => newton_init arrays_limited
    end.

End PassCase.

Lemma nudge_only_in_passes_3_to_7_witness :
  exists s',
    it_iter s' = it_iter PassCase.after2 + 1 /\
    (2 <> 2 \/ it_iter s' <= 2 \/ 7 < it_iter s' ->
     nth_error (it_Vm s') 1 = nth_error (it_Vm PassCase.after2) 1) /\
    (2 = 2 -> (1 < e_n PassCase.env_limited)%nat ->
     exists v q qmax,
       nth_error (it_Vm PassCase.after2) 1 = Some v /\
       nth_error (it_Q s') 1 = Some q /\
       nth_error (e_Qmax PassCase.env_limited) 1 = Some qmax /\
       (reqb qmax r0 = true -> nth_error (it_Vm s') 1 = Some v) /\
       (reqb qmax r0 = false -> 3 <= it_iter s' <= 7 ->
        exists qd qsh qmin,
          nth_error (e_Qd PassCase.env_limited) 1 = Some qd /\
          nth_error (e_Qsh PassCase.env_limited) 1 = Some qsh /\
          nth_error (e_Qmin PassCase.env_limited) 1 = Some qmin /\
          nth_error (it_Vm s') 1
          = Some (nudged (e_basemva PassCase.env_limited) v q qd qsh qmin qmax))).
Proof.
  eexists.
  eapply (@nudge_only_in_passes_3_to_7 Cases.NF PassCase.env_limited
            PassCase.after2 _ 1%nat 2).
  - vm_compute. reflexivity.
  - reflexivity.
  - discriminate.
Defined.

(** In that run the third pass finds [Qgc] below [Qmin] and raises the
    magnitude of the generator bus from 1.05 by 0.01. *)
Lemma generator_nudged_in_pass_3 :
  (s' <- iteration PassCase.env_limited PassCase.after2 ;;
   Ok (it_iter PassCase.after2, it_iter s', it_Vm PassCase.after2, it_Vm s'))
  = Ok (2, 3, [rlit 105 100; rlit 105 100],
        [rlit 105 100; radd (rlit 105 100) (rlit 1 100)]).
Proof. vm_compute. reflexivity. Qed.

Lemma Pgg_one_entry_per_generator_witness :
  exists out : @lf_out Cases.NF,
    length (o_Pgg out) = length (filter is_gen (kb (o_arr out))) /\
    length (o_Qgg out) = length (filter is_gen (kb (o_arr out))).
Proof.
  eexists.
  eapply (@Pgg_one_entry_per_generator Cases.NF FlowCases.cfg FlowCases.yb12
            FlowCases.line12 FlowCases.buses12).
  vm_compute. reflexivity.
Defined.

(** * The slack bus, the status text, the ingest reset and the dispatch gates *)

Section IngestByNumber.
Context `{N : Numeric}.



End IngestByNumber.


Section NewtonStatus.
Context `{N : Numeric}.

(** The loop test. *)
Definition loop_test (e : env) (s : iter_state) : bool :=
  rgeb (it_maxerror s) (e_accuracy e) && (it_iter s <=? e_maxiter e).

(** A loop allowed [k + j] passes is one allowed [k] passes followed by one
    allowed [j]. *)
Lemma while_loop_split (e : env) (j : nat) : forall k s,
  while_loop e (k + j) s = (s1 <- while_loop e k s ;; while_loop e j s1).
Proof.
  induction k as [|k IH]; intros s.
  - cbn [Nat.add while_loop]. destruct (_ && _); reflexivity.
  - cbn [Nat.add while_loop].
    destruct (rgeb _ _ && _) eqn:T.
    + destruct (iteration e s) as [s1|x]; cbn [bind]; [apply IH|reflexivity].
    + cbn [bind]. destruct j; cbn [while_loop]; rewrite T; reflexivity.
Qed.

(** A loop that stops before its bound stops on the loop test. *)
Lemma while_loop_early (e : env) (k : nat) : forall s s',
  while_loop e k s = Ok s' ->
  it_iter s' < it_iter s + Z.of_nat k -> loop_test e s' = false.
Proof.
  induction k as [|k IH]; intros s s' H Hlt; cbn [while_loop] in H.
  - destruct (_ && _) in H; injection H as <-; lia.
  - destruct (rgeb _ _ && _) eqn:T in H.
    + bind_as H s1 H1. destruct (iteration_counts _ _ _ H1) as [Hi _].
      apply (IH _ _ H). lia.
    + injection H as <-. exact T.
Qed.

(** A loop that ends at the pass number it started from has made no pass. *)
Lemma while_loop_no_pass (e : env) (k : nat) (s s' : iter_state) :
  while_loop e k s = Ok s' -> it_iter s' = it_iter s -> s' = s.
Proof.
  destruct k as [|k]; cbn [while_loop]; intros H Hi.
  - destruct (_ && _) in H; congruence.
  - destruct (_ && _) in H; [|congruence].
    bind_as H s1 H1. destruct (iteration_counts _ _ _ H1) as [Hi1 _].
    destruct (while_loop_counts _ _ _ _ H) as [Hb _]. lia.
Qed.

(** Up to pass [maxiter], the flag is down exactly when the loop has just
    made pass [maxiter] and that pass ended above the accuracy. *)
Lemma while_loop_flag (e : env) (k : nat) : forall s s',
  while_loop e k s = Ok s' ->
  it_converge s = 1 ->
  it_iter s + Z.of_nat k <= e_maxiter e ->
  (it_converge s' = 1 \/ it_converge s' = 0) /\
  (it_converge s' = 0 <->
   it_iter s' = e_maxiter e /\ it_iter s < it_iter s' /\
   rgtb (it_maxerror s') (e_accuracy e) = true).
Proof.
  induction k as [|k IH]; intros s s' H Hc Hk; cbn [while_loop] in H.
  - assert (s' = s) as -> by (destruct (_ && _) in H; congruence).
    split; [auto|]. split; [congruence|lia].
  - destruct (rgeb _ _ && _) eqn:T in H.
    2:{ injection H as <-. split; [auto|]. split; [congruence|lia]. }
    bind_as H s1 H1. destruct (iteration_counts _ _ _ H1) as [Hi Hf].
    rewrite Hc in Hf.
    destruct (while_loop_counts _ _ _ _ H) as [Hb _].
    destruct ((it_iter s1 =? e_maxiter e)
              && rgtb (it_maxerror s1) (e_accuracy e)) eqn:Ed.
    + apply andb_true_iff in Ed. destruct Ed as [Ei Eg].
      apply Z.eqb_eq in Ei.
      assert (s' = s1) as ->.
      { apply (while_loop_no_pass _ _ _ _ H). lia. }
      split; [auto|]. split; [intros _|intros _; exact Hf].
      split; [exact Ei|]. split; [lia|exact Eg].
    + destruct (IH _ _ H Hf ltac:(lia)) as [Hor Hiff].
      split; [exact Hor|]. split.
      * intros Hz. apply Hiff in Hz. destruct Hz as (A & B & C).
        split; [exact A|]. split; [lia|exact C].
      * intros (A & B & C). apply Hiff. split; [exact A|]. split; [|exact C].
        destruct (Z.eq_dec (it_iter s') (it_iter s1)) as [Eq|Hne]; [|lia].
        apply (while_loop_no_pass _ _ _ _ H) in Eq. subst s'.
        rewrite A, Z.eqb_refl, C in Ed. discriminate.
Qed.

(** The pass after [maxiter], if it is made, leaves the flag as it is. *)
Lemma while_loop_last_pass (e : env) (s it : iter_state) :
  while_loop e 1 s = Ok it ->
  it_iter s <= e_maxiter e ->
  (it_iter s < e_maxiter e -> loop_test e s = false) ->
  it_converge it = it_converge s.
Proof.
  intros H Hle Hearly. cbn [while_loop] in H.
  destruct (rgeb _ _ && _) eqn:T in H; [|congruence].
  bind_as H s1 H1. destruct (iteration_counts _ _ _ H1) as [Hi Hf].
  assert (it = s1) as -> by (destruct (_ && _) in H; congruence).
  rewrite Hf.
  destruct (Z.eqb_spec (it_iter s1) (e_maxiter e)) as [Ei|_]; [|reflexivity].
  unfold loop_test in Hearly. rewrite Hearly in T by lia. discriminate.
Qed.

End NewtonStatus.

(** C4, as amended. A run of [lfnewton] that returns reports one of the two
    status texts, and the not-converged one exactly when [maxiter >= 1], the
    loop made its pass number [maxiter], and that pass ended with the
    maximum mismatch strictly above [accuracy]. The loop test lets pass
    [maxiter + 1] follow, which leaves the status as it is; the voltages
    returned are those of the last pass made. *)
Theorem newton_status_text `{N : Numeric} (cfg : config) (yb : ybus_out)
  (lines : list branch) (busdata : list bus) (out : lf_out) :
  lfnewton cfg yb lines busdata = Ok out ->
  exists a it,
    ingest (basemva cfg) (Z.to_nat (nbus yb)) busdata = Ok a /\
    while_loop (make_env cfg yb lines a) (Z.to_nat (maxiter cfg + 1))
      (newton_init a) = Ok it /\
    Vm (o_arr out) = it_Vm it /\ delta (o_arr out) = it_delta it /\
    o_iter out = it_iter it /\ o_maxerror out = it_maxerror it /\
    (o_tech out = tech_converged \/ o_tech out = tech_diverged) /\
    (o_tech out = tech_diverged <->
     1 <= maxiter cfg /\
     exists s,
       while_loop (make_env cfg yb lines a) (Z.to_nat (maxiter cfg))
         (newton_init a) = Ok s /\
       it_iter s = maxiter cfg /\
       rgtb (it_maxerror s) (accuracy cfg) = true).
Proof.
  intros H.
  destruct (lfnewton_Ok _ _ _ _ _ H)
    as (a & it & bd1 & _ & Ha & Hit & _ & _ & EV & ED & _ & _ & Ei & Em & Et).
  exists a, it. repeat (split; [assumption|]).
  destruct (make_env_fields cfg yb lines a) as (_ & _ & EM & EA & _).
  set (e := make_env cfg yb lines a) in *.
  assert (Hflag : (it_converge it = 1 \/ it_converge it = 0) /\
            (it_converge it = 0 <->
             1 <= maxiter cfg /\
             exists s,
               while_loop e (Z.to_nat (maxiter cfg)) (newton_init a) = Ok s /\
               it_iter s = maxiter cfg /\
               rgtb (it_maxerror s) (accuracy cfg) = true)).
  { destruct (Z.lt_ge_cases (maxiter cfg) 0) as [Hneg|Hpos].
    - replace (Z.to_nat (maxiter cfg + 1)) with 0%nat in Hit by lia.
      cbn [while_loop] in Hit.
      assert (it = newton_init a) as ->
        by (destruct (_ && _) in Hit; congruence).
      cbn [newton_init it_converge]. split; [auto|].
      split; [discriminate|lia].
    - replace (Z.to_nat (maxiter cfg + 1))
        with (Z.to_nat (maxiter cfg) + 1)%nat in Hit by lia.
      rewrite while_loop_split in Hit. bind_as Hit s Hs.
      destruct (while_loop_counts _ _ _ _ Hs) as [Hb _].
      cbn [newton_init it_iter] in Hb.
      destruct (while_loop_flag _ _ _ _ Hs eq_refl) as [Hor Hiff].
      { cbn [newton_init it_iter]. rewrite EM. lia. }
      cbn [newton_init it_iter] in Hiff. rewrite EM, EA in Hiff.
      assert (Hc : it_converge it = it_converge s).
      { apply (while_loop_last_pass _ _ _ Hit); [rewrite EM; lia|].
        intros Hlt. apply (while_loop_early _ _ _ _ Hs).
        cbn [newton_init it_iter]. rewrite EM in Hlt. lia. }
      rewrite Hc. split; [exact Hor|]. split.
      + intros Hz. apply Hiff in Hz. destruct Hz as (A & B & C).
        split; [lia|]. exists s. auto.
      + intros (Hm & s2 & Hs2 & A & C).
        rewrite Hs in Hs2. injection Hs2 as <-.
        apply Hiff. split; [exact A|]. split; [lia|exact C]. }
  destruct Hflag as [Hor Hiff]. rewrite Et.
  destruct Hor as [E1|E0].
  - rewrite E1. cbn [Z.eqb Pos.eqb negb]. split; [auto|]. split.
    + discriminate.
    + intros Hr. apply Hiff in Hr. congruence.
  - rewrite E0. cbn [Z.eqb negb]. split; [auto|]. split.
    + intros _. apply Hiff. exact E0.
    + reflexivity.
Qed.

Section IngestReset.
Context `{N : Numeric}.

(** Every array of the power flow has [n] entries. *)
Definition sized (n : nat) (s : arrays) : Prop :=
  length (kb s) = n /\ length (Vm s) = n /\ length (delta s) = n /\
  length (V s) = n /\ length (P s) = n /\ length (Q s) = n /\
  length (Sbus s) = n /\ length (Pd s) = n /\ length (Qd s) = n /\
  length (Pg s) = n /\ length (Qg s) = n /\ length (Qmin s) = n /\
  length (Qmax s) = n /\ length (Qsh s) = n.

Lemma aset_at {A : Type} (l : list A) (p : nat) (v : A) :
  (p < length l)%nat ->
  exists l', aset l (Z.of_nat p) v = Ok l' /\ length l' = length l /\
    nth_error l' p = Some v.
Proof.
  intros Hp. destruct (aset_in_range l p v Hp) as [l' E].
  exists l'. split; [exact E|].
  destruct (aset_nonneg _ _ _ _ (Nat2Z.is_nonneg p) E) as (L & At & _).
  rewrite Nat2Z.id in At. auto.
Qed.

End IngestReset.

(** C5. What the ingest does with a row whose [Vm] is not positive: the row
    is taken in (its bus number being within the arrays), the magnitude of
    its bus is set to 1.0 and its phasor to [1 + 0j], but the angle is not
    reset: [self.delta] keeps the value of the table, in degrees, and [P],
    [Q] and [S] are left as they were. *)
Theorem nonpositive_Vm_keeps_delta `{N : Numeric} (bm : real) (n : nat)
  (s : arrays) (b : bus) :
  sized n s ->
  1 <= bus_no b <= Z.of_nat n ->
  in_int64 (bus_kind b) = true ->
  rleb (bus_Vm b) r0 = true ->
  exists s',
    ingest_row bm s b = Ok s' /\
    nth_error (Vm s') (Z.to_nat (bus_no b - 1)) = Some r1 /\
    nth_error (V s') (Z.to_nat (bus_no b - 1)) = Some (radd_c r1 czero) /\
    nth_error (delta s') (Z.to_nat (bus_no b - 1)) = Some (bus_delta b) /\
    P s' = P s /\ Q s' = Q s /\ Sbus s' = Sbus s.
Proof.
  intros (L1 & L2 & L3 & L4 & L5 & L6 & L7 & L8 & L9 & L10 & L11 & L12 & L13
          & L14) Hno Hint HVm.
  set (p := Z.to_nat (bus_no b - 1)).
  assert (Hp : (p < n)%nat) by lia.
  unfold ingest_row, aset_int64.
  replace (bus_no b - 1) with (Z.of_nat p) by lia.
  destruct (aset_at (kb s) p (bus_kind b)) as (kb1 & -> & _); [lia|].
  cbn [bind]. rewrite Hint.
  destruct (aset_at (Vm s) p (bus_Vm b)) as (Vm1 & -> & LV & _); [lia|].
  destruct (aset_at (delta s) p (bus_delta b)) as (dl1 & -> & _ & Ed); [lia|].
  destruct (aset_at (Pd s) p (bus_Pd b)) as (Pd1 & -> & _); [lia|].
  destruct (aset_at (Qd s) p (bus_Qd b)) as (Qd1 & -> & _); [lia|].
  destruct (aset_at (Pg s) p (bus_Pg b)) as (Pg1 & -> & _); [lia|].
  destruct (aset_at (Qg s) p (bus_Qg b)) as (Qg1 & -> & _); [lia|].
  destruct (aset_at (Qmin s) p (bus_Qmin b)) as (Qmin1 & -> & _); [lia|].
  destruct (aset_at (Qmax s) p (bus_Qmax b)) as (Qmax1 & -> & _); [lia|].
  destruct (aset_at (Qsh s) p (bus_Qsh b)) as (Qsh1 & -> & _); [lia|].
  cbn [bind]. rewrite HVm.
  destruct (aset_at Vm1 p r1) as (Vm2 & -> & _ & EV); [lia|].
  destruct (aset_at (V s) p (radd_c r1 czero)) as (V2 & -> & _ & EP); [lia|].
  cbn [bind]. eexists. split; [reflexivity|].
  cbn [Vm V delta P Q Sbus]. fold p. auto 10.
Qed.

Section SingleBusPasses.
Context `{N : Numeric}.

(** With the loop test false at the start, the run of a single slack bus
    returns without a pass. *)
Lemma single_bus_no_pass (cfg : config) (lines : list branch) (s : bus) :
  lines <> [] ->
  Forall (fun b => br_nl b = 1 /\ br_nr b = 1) lines ->
  bus_no s = 1 -> bus_kind s = 1 ->
  rgeb (rlit 1 1) (accuracy cfg) && (0 <=? maxiter cfg) = false ->
  exists out,
    power_flow cfg lines [s] = Ok out /\
    o_iter out = 0 /\
    Vm (o_arr out) = [stored_Vm s] /\
    delta (o_arr out) = [stored_delta s] /\
    o_tech out = tech_converged.
Proof.
  intros Hne Hall Hno Hkind Hcond.
  assert (Hnum : numbered_from_one lines).
  { unfold numbered_from_one. eapply Forall_impl; [|exact Hall].
    cbn. intros b [-> ->]. lia. }
  destruct (lfybus_entries lines Hne Hnum) as (out & E & _ & Hin & _ & HS & _).
  apply (endpoints_all_one _ _ Hall) in Hin.
  unfold power_flow. rewrite E. cbn [bind].
  destruct out as [nb Y]. cbn [nbus Ybus] in *. subst nb.
  destruct (shape_one Y HS) as [c ->].
  unfold lfnewton, make_env. cbn [nbus Ybus].
  change (1 <? 0) with false. cbv iota.
  change (Z.to_nat 1) with 1%nat.
  unfold ingest, init_arrays, zeros. cbn [repeat for_each].
  unfold ingest_row, stored_Vm, stored_delta. rewrite Hno, Hkind.
  destruct (rleb (bus_Vm s) r0) eqn:HVm;
    (cbn -[polar deg2rad rad2deg rsq];
     assert (Hw : forall k st,
               it_maxerror st = rlit 1 1 -> it_iter st = 0 ->
               forall e, e_accuracy e = accuracy cfg ->
                         e_maxiter e = maxiter cfg ->
                         while_loop e k st = Ok st);
     [ intros k st Hm Hi e Ha Hx; destruct k; cbn [while_loop];
       rewrite Hm, Hi, Ha, Hx, Hcond; reflexivity |];
     rewrite Hw by reflexivity;
     cbn -[polar deg2rad rad2deg rsq];
     eexists; split; [reflexivity|]; cbn; auto).
Qed.

End SingleBusPasses.

(** C9. A network of a single slack bus, its branches self-loops at bus 1,
    solves without a pass only when the loop test fails at the start, that
    is when [accuracy] is above the initial mismatch 1.0 or [maxiter] is
    negative: the run then returns with [iter = 0], the converged status and
    the voltage the ingest stored. Whenever the test holds at the start, as
    with the default settings, the run raises in its first pass and returns
    nothing. *)
Theorem single_slack_bus_passes `{N : Numeric} (cfg : config)
  (lines : list branch) (s : bus) :
  lines <> [] ->
  Forall (fun b => br_nl b = 1 /\ br_nr b = 1) lines ->
  bus_no s = 1 -> bus_kind s = 1 ->
  (rgeb (rlit 1 1) (accuracy cfg) && (0 <=? maxiter cfg) = true ->
   exists e, power_flow cfg lines [s] = Raise e) /\
  (rgeb (rlit 1 1) (accuracy cfg) && (0 <=? maxiter cfg) = false ->
   exists out,
     power_flow cfg lines [s] = Ok out /\
     o_iter out = 0 /\
     Vm (o_arr out) = [stored_Vm s] /\
     delta (o_arr out) = [stored_delta s] /\
     o_tech out = tech_converged).
Proof.
  intros Hne Hall Hno Hkind. split.
  - intros Ht. apply andb_true_iff in Ht. destruct Ht as [Hacc Hmax].
    apply Z.leb_le in Hmax.
    rewrite (single_bus_first_pass cfg lines s Hne Hall Hno Hkind Hacc Hmax).
    destruct (lin_solve [] []); eauto.
  - intros Ht. exact (single_bus_no_pass cfg lines s Hne Hall Hno Hkind Ht).
Qed.

(** C6, as amended. A call of [dispatch] whose demand is above
    [np.sum(Pmax)] or below [np.sum(Pmin)] returns its diagnostic at once,
    the first of the two gates that holds deciding which, and enters no
    lambda iteration. It leaves every field of the object as it was except
    [B], [B0] and [B00]: each of these keeps its value when it was set and is
    otherwise left at the default the call filled in before the gates, a zero
    array of the size of the cost table (0 for [B00]). *)
Theorem infeasible_dispatch_effect `{N : Numeric} (s : psys)
  (args : dispatch_args) (cost : list cost_row) :
  arg_cost args = Some cost ->
  rgtb (demand_of s args) (rsum (map snd (limits_of args (length cost))))
  || rltb (demand_of s args) (rsum (map fst (limits_of args (length cost))))
  = true ->
  dispatch s args =
    Ok ({| ps_basemva := ps_basemva s;
           ps_B := Some (match ps_B s with
                         | Some B => B
                         | None => zeros2 r0 (length cost) (length cost)
                         end);
           ps_B0 := Some (match ps_B0 s with
                          | Some b => b
                          | None => zeros r0 (length cost)
                          end);
           ps_B00 := Some (match ps_B00 s with Some b => b | None => r0 end);
           ps_lambda := ps_lambda s; ps_Pgg := ps_Pgg s;
           ps_busdata := ps_busdata s; ps_Pg := ps_Pg s; ps_kb := ps_kb s;
           ps_nbus := ps_nbus s; ps_Pdt := ps_Pdt s |},
        if rgtb (demand_of s args)
             (rsum (map snd (limits_of args (length cost))))
        then DemandAboveMax else DemandBelowMin).
Proof.
  intros Hc Hgate. unfold dispatch. rewrite Hc.
  cbn [denv_of de_Pdt de_Pmax de_Pmin].
  destruct (rgtb (demand_of s args) _) eqn:E1; [reflexivity|].
  cbn [orb] in Hgate. rewrite Hgate. reflexivity.
Qed.

(** C7, as amended. In the schedule a call of [dispatch] returns, a
    generator that is still active is neither above its [Pmax] nor below its
    [Pmin], as the two comparisons of the limit check evaluate them,
    provided the residual that the limit check of the last pass tested was at
    most 0.001: the check clamps nothing on a larger residual, so a call
    that stops on its 200-pass bound can return an active generator outside
    its limits. *)
Theorem active_generators_within_limits `{N : Numeric} (s s' : psys)
  (args : dispatch_args) (cost : list cost_row) (Pgg : list real)
  (lam PL : real) :
  dispatch s args = Ok (s', Schedule Pgg lam PL) ->
  arg_cost args = Some cost ->
  exists lam0 fin,
    lambda0 s cost = Ok lam0 /\
    dispatch_loop (denv_of s args cost) 200 (dloop_init (length cost) lam0)
      = Ok fin /\
    Pgg = d_Pgg fin /\ lam = d_lambda fin /\
    1 <= d_iterp fin <= 200 /\
    (rleb (rabs (d_clamp_DelP fin)) (rlit 1 1000) = true ->
     forall k pg pmin pmax,
       nth_error (d_wgt fin) k = Some true ->
       nth_error Pgg k = Some pg ->
       nth_error (limits_of args (length cost)) k = Some (pmin, pmax) ->
       rgtb pg pmax = false /\ rltb pg pmin = false).
Proof.
  intros H Hc. unfold dispatch in H. rewrite Hc in H.
  destruct (rgtb _ _) in H; [discriminate|].
  destruct (rltb _ _) in H; [discriminate|].
  bind_as H lam0 Hl. bind_as H fin Hf.
  destruct (Z.eqb_spec (d_iterp fin) 0) as [|Hit]; [discriminate|].
  bind_as H bd Hbd. injection H as _ <- <- _.
  exists lam0, fin. split; [exact Hl|]. split; [exact Hf|].
  split; [reflexivity|]. split; [reflexivity|].
  destruct (dispatch_loop_spec _ _ _ _ Hf) as (Hb & _).
  cbn [dloop_init d_iterp] in Hb. split; [lia|].
  intros HD k pg pmin pmax Hw Hpg Hlim.
  destruct (dispatch_loop_last _ _ _ _ Hf) as [->|[s0 Hs0]].
  - cbn in Hit. contradiction.
  - destruct (dispatch_pass_within _ _ _ Hs0) as [_ Hin].
    assert (Hk : (k < length cost)%nat).
    { destruct (dispatch_loop_spec _ _ _ _ Hf) as (_ & _ & HL & _).
      cbn [dloop_init d_Pgg] in HL. unfold zeros in HL.
      rewrite repeat_length in HL. rewrite <- HL.
      apply nth_error_Some. congruence. }
    apply (Hin HD k Hk pg pmin pmax Hw Hpg).
    + cbn [denv_of de_Pmin]. rewrite nth_error_map, Hlim. reflexivity.
    + cbn [denv_of de_Pmax]. rewrite nth_error_map, Hlim. reflexivity.
Qed.

(** ** Concrete cases *)

Module ClaimCases.

#[local] Existing Instance Cases.NF.


(** The same line with the slack bus numbered 2 and listed first, at
    1.0625 pu, and the generator bus numbered 1 drawing the 50 MW that this
    voltage difference delivers. *)
Definition slack2 : bus := FlowCases.mkbus 2 1 (rlit 10625 10000) (rlit 0 1) (rlit 0 1).
Definition pv1 : bus := FlowCases.mkbus 1 2 (rlit 1 1) (rlit 50 1) (rlit 0 1).

(** [FlowCases.buses12] with a load of 50 MW against 20 MW generated, and
    no pass allowed beyond the first. *)
Definition cfg_cap0 : config :=
  {| basemva := rlit 100 1; accuracy := rlit 1 1000; maxiter := 0 |}.
Definition buses_short : list bus :=
  [ FlowCases.slack1; FlowCases.mkbus 2 2 (rlit 105 100) (rlit 50 1) (rlit 20 1) ].

(** A row with no voltage set and an angle of 30 degrees. *)
Definition unset2 : bus :=
  {| bus_no := 2; bus_kind := 0; bus_Vm := rlit 0 1; bus_delta := rlit 30 1;
     bus_Pd := rlit 50 1; bus_Qd := rlit 0 1; bus_Pg := rlit 0 1;
     bus_Qg := rlit 0 1; bus_Qmin := rlit 0 1; bus_Qmax := rlit 0 1;
     bus_Qsh := rlit 0 1 |}.


End ClaimCases.



(** With the slack bus listed first but numbered 2, the write-back by row
    position hands its row the magnitude of bus 1. *)
Lemma slack_row_takes_other_magnitude :
  (out <- power_flow FlowCases.cfg FlowCases.line12
            [ClaimCases.slack2; ClaimCases.pv1] ;;
   Ok (o_iter out, Vm (o_arr out),
       map (fun r => (bus_no r, bus_kind r, bus_Vm r)) (o_busdata out)))
  = Ok (1, [rlit 1 1; rlit 10625 10000],
        [(2, 1, rlit 1 1); (1, 2, rlit 10625 10000)]).
Proof. vm_compute. reflexivity. Qed.

Lemma newton_status_text_witness :
  exists (out : @lf_out Cases.NF) a it,
    ingest (basemva FlowCases.cfg) (Z.to_nat (nbus FlowCases.yb12))
      FlowCases.buses12 = Ok a /\
    while_loop (make_env FlowCases.cfg FlowCases.yb12 FlowCases.line12 a)
      (Z.to_nat (maxiter FlowCases.cfg + 1)) (newton_init a) = Ok it /\
    Vm (o_arr out) = it_Vm it /\ delta (o_arr out) = it_delta it /\
    o_iter out = it_iter it /\ o_maxerror out = it_maxerror it /\
    (o_tech out = tech_converged \/ o_tech out = tech_diverged) /\
    (o_tech out = tech_diverged <->
     1 <= maxiter FlowCases.cfg /\
     exists s,
       while_loop (make_env FlowCases.cfg FlowCases.yb12 FlowCases.line12 a)
         (Z.to_nat (maxiter FlowCases.cfg)) (newton_init a) = Ok s /\
       it_iter s = maxiter FlowCases.cfg /\
       rgtb (it_maxerror s) (accuracy FlowCases.cfg) = true).
Proof.
  eexists.
  eapply (@newton_status_text Cases.NF FlowCases.cfg FlowCases.yb12
            FlowCases.line12 FlowCases.buses12).
  vm_compute. reflexivity.
Defined.

(** C4, the claim as stated fails: with [maxiter = 0] the loop makes its one
    pass, which ends with a mismatch of 0.3 against an accuracy of 0.001,
    and the run reports the converged text. *)
Lemma cap_zero_reports_converged :
  (out <- power_flow ClaimCases.cfg_cap0 FlowCases.line12
            ClaimCases.buses_short ;;
   Ok (o_iter out,
       rgeb (o_maxerror out) (accuracy ClaimCases.cfg_cap0),
       rgtb (o_maxerror out) (rlit 29 100),
       o_tech out))
  = Ok (1, true, true, tech_converged).
Proof. vm_compute. reflexivity. Qed.

Lemma nonpositive_Vm_keeps_delta_witness :
  exists s',
    ingest_row (rlit 100 1) (init_arrays 2) ClaimCases.unset2 = Ok s' /\
    nth_error (Vm s') (Z.to_nat (bus_no ClaimCases.unset2 - 1)) = Some r1 /\
    nth_error (V s') (Z.to_nat (bus_no ClaimCases.unset2 - 1))
      = Some (radd_c r1 czero) /\
    nth_error (delta s') (Z.to_nat (bus_no ClaimCases.unset2 - 1))
      = Some (bus_delta ClaimCases.unset2) /\
    P s' = P (init_arrays 2) /\ Q s' = Q (init_arrays 2) /\
    Sbus s' = Sbus (init_arrays 2).
Proof.
  apply (@nonpositive_Vm_keeps_delta Cases.NF (rlit 100 1) 2 (init_arrays 2)
           ClaimCases.unset2).
  - repeat split.
  - cbn. lia.
  - reflexivity.
  - vm_compute. reflexivity.
Defined.

(** The ingest of a table whose second row has [Vm = 0] and an angle of 30
    degrees: the magnitude becomes 1.0 and the stored angle is 30.0. *)
Lemma unset_row_keeps_30_degrees :
  (a <- ingest (rlit 100 1) 2 [FlowCases.slack1; ClaimCases.unset2] ;;
   Ok (Vm a, delta a))
  = Ok ([rlit 105 100; rlit 1 1], [rlit 0 1; rlit 30 1]).
Proof. vm_compute. reflexivity. Qed.

Lemma single_slack_bus_passes_witness :
  (rgeb (rlit 1 1) (accuracy FlowCases.cfg) && (0 <=? maxiter FlowCases.cfg)
   = true ->
   exists e,
     power_flow FlowCases.cfg FlowCases.loop11 [FlowCases.slack1] = Raise e) /\
  (rgeb (rlit 1 1) (accuracy FlowCases.cfg) && (0 <=? maxiter FlowCases.cfg)
   = false ->
   exists out,
     power_flow FlowCases.cfg FlowCases.loop11 [FlowCases.slack1] = Ok out /\
     o_iter out = 0 /\
     Vm (o_arr out) = [stored_Vm FlowCases.slack1] /\
     delta (o_arr out) = [stored_delta FlowCases.slack1] /\
     o_tech out = tech_converged).
Proof.
  apply (@single_slack_bus_passes Cases.NF FlowCases.cfg FlowCases.loop11
           FlowCases.slack1).
  - discriminate.
  - repeat constructor.
  - reflexivity.
  - reflexivity.
Defined.

(** The single slack bus with the default settings: the run raises. *)
Lemma single_slack_bus_default_raises :
  (rgeb (rlit 1 1) (accuracy FlowCases.cfg) && (0 <=? maxiter FlowCases.cfg),
   power_flow FlowCases.cfg FlowCases.loop11 [FlowCases.slack1])
  = (true, Raise ValueError).
Proof. vm_compute. reflexivity. Qed.

Lemma infeasible_dispatch_effect_witness :
  dispatch DispatchCases.fresh DispatchCases.args_over =
    Ok ({| ps_basemva := rlit 100 1;
           ps_B := Some (zeros2 r0 1 1); ps_B0 := Some (zeros r0 1);
           ps_B00 := Some r0;
           ps_lambda := None; ps_Pgg := None; ps_busdata := None;
           ps_Pg := None; ps_kb := None; ps_nbus := 0; ps_Pdt := rlit 0 1 |},
        DemandAboveMax).
Proof.
  apply (@infeasible_dispatch_effect Cases.NF DispatchCases.fresh
           DispatchCases.args_over
           (DispatchCases.cost_of DispatchCases.args_over)).
  - reflexivity.
  - vm_compute. reflexivity.
Defined.

Lemma active_generators_within_limits_witness :
  exists Pgg lam lam0 fin,
    lambda0 DispatchCases.fresh (DispatchCases.cost_of DispatchCases.args_ok)
      = Ok lam0 /\
    dispatch_loop
      (denv_of DispatchCases.fresh DispatchCases.args_ok
         (DispatchCases.cost_of DispatchCases.args_ok))
      200 (dloop_init 1 lam0) = Ok fin /\
    Pgg = d_Pgg fin /\ lam = d_lambda fin /\
    1 <= d_iterp fin <= 200 /\
    (rleb (rabs (d_clamp_DelP fin)) (rlit 1 1000) = true ->
     forall k pg pmin pmax,
       nth_error (d_wgt fin) k = Some true ->
       nth_error Pgg k = Some pg ->
       nth_error (limits_of DispatchCases.args_ok 1) k = Some (pmin, pmax) ->
       rgtb pg pmax = false /\ rltb pg pmin = false).
Proof.
  do 2 eexists.
  eapply (@active_generators_within_limits Cases.NF DispatchCases.fresh _
            DispatchCases.args_ok
            (DispatchCases.cost_of DispatchCases.args_ok)).
  - vm_compute. reflexivity.
  - reflexivity.
Defined.
